(** * CollabraChain x402 payment gateway and smart-wallet executor

    A shallow embedding of [X402PayService] (the payment-session protocol)
    and of [SmartWalletService] (the user-operation executor), with the
    properties of the specification stated and proved over it; then of the
    HTTP handlers and router in front of the payment service, and of the
    wallet state functions with their file storage, with properties read
    off the code.

    Conventions.
    - The pending-payment registry, a JS [Map<string, X402PaymentResponse>],
      is a [gmap string X402PaymentResponse].
    - Unix times are [Z]; [Date.now()] is a millisecond reading passed in
      by the caller of each operation.
    - [console.log]/[console.error] append a [LogEntry] to the state; every
      [fetch] appends the request it sends to the state, so that "was the
      network touched, and in which order" is observable.
    - The facilitator, the uuid generator and the wallet provider are
      collaborators outside the repository: they enter as oracles. *)

From stdpp Require Import numbers gmap strings list fin_maps pretty.
From Stdlib Require Import ZArith Lia Ascii.
From Stdlib Require Qcanon.

Local Open Scope string_scope.
Local Open Scope Z_scope.

(** ** Completion records and the state-and-exception monad *)

Inductive Completion (A : Type) : Type :=
  | Normal (a : A)
  | Throw (message : string).
Arguments Normal {A} a.
Arguments Throw {A} message.

(** ** Decimal scaling: [parseUnits] and [formatUnits] *)

Module Units.
Local Open Scope list_scope.

(** JS strings are sequences of characters; the string operations the two
    functions use are written over [list ascii]. *)
Definition chars := list ascii.

Definition is_digit (c : ascii) : bool :=
  (48 <=? nat_of_ascii c)%nat && (nat_of_ascii c <=? 57)%nat.
Definition digit_value (c : ascii) : Z := Z.of_nat (nat_of_ascii c - 48).
Definition digit_char (d : Z) : ascii := ascii_of_nat (Z.to_nat d + 48).

Definition zero_char : ascii := "0"%char.
Definition dot_char : ascii := "."%char.
Definition minus_char : ascii := "-"%char.

(** The decimal reading of a digit sequence; the empty one reads 0. *)
Definition digits_value (ds : chars) : Z :=
  fold_left (λ acc c, acc * 10 + digit_value c) ds 0.

Fixpoint digits_of (fuel : nat) (n : Z) : chars :=
  match fuel with
  | O => []
  | S fuel' =>
      if n <? 10 then [digit_char n]
      else digits_of fuel' (n `div` 10) ++ [digit_char (n `mod` 10)]
  end.

(** [n.toString()] of a bigint. *)
Definition toString (n : Z) : chars :=
  if n <? 0 then minus_char :: digits_of (S (Z.to_nat (Z.log2 (- n)))) (- n)
  else digits_of (S (Z.to_nat (Z.log2 n))) n.

(** [BigInt(s)] on the strings that can reach it here: an optional minus
    sign followed by decimal digits. The empty string converts to 0; a
    lone sign and any other character is a SyntaxError. *)
Definition BigInt (s : chars) : Completion Z :=
  match s with
  | c :: ds =>
      if decide (c = minus_char) then
        if forallb is_digit ds && negb (bool_decide (ds = [])) then
          Normal (- digits_value ds)
        else Throw "SyntaxError: Cannot convert to a BigInt"
      else if forallb is_digit s then Normal (digits_value s)
      else Throw "SyntaxError: Cannot convert to a BigInt"
  | [] => Normal 0
  end.

(** [s.split(sep)] *)
Fixpoint split (sep : ascii) (s : chars) : list chars :=
  match s with
  | [] => [[]]
  | c :: r =>
      if decide (c = sep) then [] :: split sep r
      else match split sep r with
           | piece :: pieces => (c :: piece) :: pieces
           | [] => [[c]]
           end
  end.

(** [s.replace(/(0+)$/, '')]: drop the trailing zeros. *)
Fixpoint trim_trailing_zeros (s : chars) : chars :=
  match s with
  | [] => []
  | c :: r =>
      match trim_trailing_zeros r with
      | [] => if decide (c = zero_char) then [] else [c]
      | r' => c :: r'
      end
  end.

Definition padEnd (n : nat) (s : chars) : chars :=
  s ++ replicate (n - length s) zero_char.
Definition padStart (n : nat) (s : chars) : chars :=
  replicate (n - length s) zero_char ++ s.
(** [s.slice(from, to)] and [s.slice(from)] for indices within range. *)
Definition slice (from to : nat) (s : chars) : chars :=
  take (to - from) (drop from s).
Definition slice_from (from : nat) (s : chars) : chars := drop from s.

(** The regular-expression test at the head of [parseUnits]: an optional
    minus sign, digits, an optional dot, digits; each run of digits may be
    empty. *)
Fixpoint digits_then_optional_fraction (s : chars) : bool :=
  match s with
  | [] => true
  | c :: r =>
      if is_digit c then digits_then_optional_fraction r
      else if decide (c = dot_char) then forallb is_digit r
      else false
  end.
Definition matches_decimal (s : chars) : bool :=
  match s with
  | c :: r =>
      if decide (c = minus_char) then digits_then_optional_fraction r
      else digits_then_optional_fraction s
  | [] => true
  end.

(** [Math.round(Number(`${unit}.${right}`))], read in exact decimal: the
    unit digit, plus one when the first dropped digit is 5 or more. *)
Definition round_half_up (unit right : chars) : Z :=
  digits_value unit +
  match right with
  | c :: _ => if 5 <=? digit_value c then 1 else 0
  | [] => 0
  end.

(** Modelled from the spec: [parseUnits] belongs to the viem package, which
    the repository imports but does not contain. The spec has it scale a
    decimal amount to the token's precision (["10.5"] at 6 decimals is raw
    [10500000]); the definition follows the library's algorithm step by
    step, with the rounding of excess fractional digits read in exact
    decimal instead of through a floating-point number. *)
Definition parseUnits_chars (value : chars) (decimals : nat)
    : Completion Z :=
  if negb (matches_decimal value) then Throw "InvalidDecimalNumberError"
  else
    let pieces := split dot_char value in
    let integer := default [] (pieces !! 0%nat) in
    let fraction := default [zero_char] (pieces !! 1%nat) in
    let negative := bool_decide (head integer = Some minus_char) in
    let integer := if negative then slice_from 1 integer else integer in
    let fraction := trim_trailing_zeros fraction in
    let '(integer, fraction) :=
      if decide (decimals = 0%nat) then
        (if decide (round_half_up [] fraction = 1)
         then toString (digits_value integer + 1) else integer,
         [])
      else if decide (decimals < length fraction)%nat then
        let left := slice 0 (decimals - 1) fraction in
        let unit := slice (decimals - 1) decimals fraction in
        let right := slice_from decimals fraction in
        let rounded := round_half_up unit right in
        let fraction :=
          if 9 <? rounded then
            padStart (length left + 1)
              (toString (digits_value left + 1) ++ [zero_char])
          else left ++ toString rounded in
        let '(integer, fraction) :=
          if decide (decimals < length fraction)%nat then
            (toString (digits_value integer + 1), slice_from 1 fraction)
          else (integer, fraction) in
        (integer, slice 0 decimals fraction)
      else (integer, padEnd decimals fraction) in
    BigInt ((if negative then [minus_char] else []) ++ integer ++ fraction).

Definition parseUnits (value : string) (decimals : nat) : Completion Z :=
  parseUnits_chars (String.list_ascii_of_string value) decimals.

(** Modelled from the spec: [formatUnits] belongs to the viem package as
    well; it is the decoding direction, from raw units back to a decimal
    string at the token's precision. *)
Definition formatUnits_chars (value : Z) (decimals : nat) : chars :=
  let display := toString value in
  let negative := bool_decide (head display = Some minus_char) in
  let display := if negative then slice_from 1 display else display in
  let display := padStart decimals display in
  let integer := slice 0 (length display - decimals) display in
  let fraction := slice_from (length display - decimals) display in
  let fraction := trim_trailing_zeros fraction in
  (if negative then [minus_char] else []) ++
  (if decide (integer = []) then [zero_char] else integer) ++
  (if decide (fraction = []) then [] else dot_char :: fraction).

Definition formatUnits (value : Z) (decimals : nat) : string :=
  String.string_of_list_ascii (formatUnits_chars value decimals).

(** *** Vocabulary for the round trip *)

Definition all_digits (s : chars) : Prop := forallb is_digit s = true.

Fixpoint strip_leading_zeros (s : chars) : chars :=
  match s with
  | c :: r => if decide (c = zero_char) then strip_leading_zeros r else s
  | [] => []
  end.

(** The integer part written canonically: no leading zeros, and "0" for
    zero (also for an empty integer part, as in ".5"). *)
Definition canonical_integer (s : chars) : chars :=
  match strip_leading_zeros s with
  | [] => [zero_char]
  | r => r
  end.

(** The fraction written canonically: no trailing zeros, and no dot at all
    when nothing is left. *)
Definition canonical_fraction (s : chars) : chars :=
  match trim_trailing_zeros s with
  | [] => []
  | r => dot_char :: r
  end.

(** A decimal numeral: integer digits, then optionally a dot and fraction
    digits. *)
Definition numeral (integer : chars) (fraction : option chars) : chars :=
  match fraction with
  | Some f => integer ++ dot_char :: f
  | None => integer
  end.

Definition fraction_digits (fraction : option chars) : chars :=
  default [] fraction.

(** The amount a numeral denotes is the value of its digits, integer and
    fraction together, divided by ten to the number of fraction digits.
    Two numerals denote the same amount when the values agree after cross
    multiplication. *)
Definition same_amount (integer1 : chars) (fraction1 : option chars)
    (integer2 : chars) (fraction2 : option chars) : Prop :=
  digits_value (integer1 ++ fraction_digits fraction1) *
    10 ^ Z.of_nat (length (fraction_digits fraction2)) =
  digits_value (integer2 ++ fraction_digits fraction2) *
    10 ^ Z.of_nat (length (fraction_digits fraction1)).

(** The numeral is already canonical: nonempty integer part without
    leading zeros (or just "0"), and a fraction, if written, that is
    nonempty and does not end in 0. *)
Definition canonical (integer : chars) (fraction : option chars) : Prop :=
  canonical_integer integer = integer ∧
  match fraction with
  | Some f => f ≠ [] ∧ trim_trailing_zeros f = f
  | None => True
  end.

End Units.


(** ** The smart-wallet executor *)

Module SmartWallet.

(** What an [await] can observe of a promise. A promise that never settles
    never resumes the awaiting function. *)
Inductive Promise (A : Type) : Type :=
  | Fulfilled (a : A)
  | Rejected (error : string)
  | NeverSettles.
Arguments Fulfilled {A} a.
Arguments Rejected {A} error.
Arguments NeverSettles {A}.

Inductive Status := pending | complete | failed.

Record SmartWalletUserOperation := mkUserOperation {
  userOpHash : string;
  transactionHash : option string;
  status : Status;
  receipt : option string;
  error : option string
}.

Record TokenTransferParams := mkTransferParams {
  tokenAddress : string;
  tp_to : string;
  tp_amount : string;
  tp_decimals : nat
}.

Local Unset Elimination Schemes.
Inductive AbiValue :=
  | VAddress (a : string)
  | VUint (n : Z)
  | VString (s : string)
  | VArray (items : list AbiValue).
Local Set Elimination Schemes.

Record AbiParameter := mkParam { param_name : string; param_type : string }.
Record AbiFunction := mkAbiFunction {
  abi_constant : bool;
  abi_inputs : list AbiParameter;
  abi_name : string;
  abi_outputs : list AbiParameter
}.

Definition ERC20_ABI : list AbiFunction :=
  [ mkAbiFunction true [mkParam "_owner" "address"] "balanceOf"
      [mkParam "balance" "uint256"];
    mkAbiFunction false
      [mkParam "_to" "address"; mkParam "_value" "uint256"] "transfer"
      [mkParam "success" "bool"];
    mkAbiFunction true [] "decimals" [mkParam "" "uint8"];
    mkAbiFunction true [] "symbol" [mkParam "" "string"] ].

Record ContractCallParams := mkCallParams {
  contractAddress : string;
  abi : list AbiFunction;
  functionName : string;
  args : list AbiValue
}.

(** One entry of the [calls] batch of a user operation. *)
Record Call := mkCall {
  call_to : string;
  call_value : option Z;
  call_data : string
}.

Record UserOperationRequest := mkRequest {
  req_smartAccount : string;
  req_network : string;
  req_paymasterUrl : string;
  req_calls : list Call
}.

(** What the provider's own [waitForUserOperation] resolves to. *)
Record ProviderOperation := mkProviderOperation {
  p_status : string;
  p_transactionHash : option string;
  p_receipt : option string
}.

(** The wallet provider (the CDP client) and the ABI encoder of viem:
    collaborators outside the repository. *)
Record Provider := mkProvider {
  sendUserOperation : UserOperationRequest → Promise string;
  provider_waitForUserOperation : string → string → Promise ProviderOperation;
  encodeFunctionData : list AbiFunction → string → list AbiValue →
                       Completion string
}.

(** The service object: the smart account once [initialize] has run, and
    what the service has handed to the network and to the console. *)
Record Wallet := mkWallet {
  smartAccount : option string;
  submitted : list UserOperationRequest;
  wallet_console : list string
}.

Definition PAYMASTER_URL : string :=
  "https://api.developer.coinbase.com/rpc/v1/base/ysRNUL0e5tLaH0gTgLkD5BA8I8go4AGO".

Definition W (A : Type) : Type := Wallet → Promise A * Wallet.

Definition console_write (line : string) (w : Wallet) : Wallet :=
  mkWallet (smartAccount w) (submitted w) (wallet_console w ++ [line]).

Definition submit (r : UserOperationRequest) (w : Wallet) : Wallet :=
  mkWallet (smartAccount w) (submitted w ++ [r]) (wallet_console w).

Definition failed_operation (hash error : string)
    : SmartWalletUserOperation :=
  mkUserOperation hash None failed None (Some error).

(** [waitForUserOperation]: one call to the provider's wait, then the
    translation of what it resolved or rejected with. *)
Definition waitForUserOperation (provider : Provider) (userOpHash : string)
    : W SmartWalletUserOperation := λ w,
  let w := console_write "Waiting for user operation to be confirmed..." w in
  match smartAccount w with
  | None =>
      (Fulfilled (failed_operation userOpHash
                    "TypeError: Cannot read properties of undefined"),
       console_write "Error waiting for user operation:" w)
  | Some address =>
      match provider_waitForUserOperation provider address userOpHash with
      | Fulfilled userOperation =>
          if decide (p_status userOperation = "complete") then
            (Fulfilled (mkUserOperation userOpHash
                          (p_transactionHash userOperation) complete
                          (p_receipt userOperation) None), w)
          else
            (Fulfilled (failed_operation userOpHash "Transaction failed"), w)
      | Rejected error =>
          (Fulfilled (failed_operation userOpHash error),
           console_write "Error waiting for user operation:" w)
      | NeverSettles => (NeverSettles, w)
      end
  end.

(** The shared tail of the three submitting functions: the [await] of
    [sendUserOperation] inside their [try], followed by the wait. *)
Definition send_and_wait (provider : Provider) (failure_line : string)
    (account : string) (calls : list Call) : W SmartWalletUserOperation :=
  λ w,
  let request := mkRequest account "base" PAYMASTER_URL calls in
  let w := submit request w in
  match sendUserOperation provider request with
  | Fulfilled hash => waitForUserOperation provider hash w
  | Rejected error =>
      (Fulfilled (failed_operation "" error), console_write failure_line w)
  | NeverSettles => (NeverSettles, w)
  end.

Definition sendNativeTokens (provider : Provider) (to : string) (amount : Z)
    : W SmartWalletUserOperation := λ w,
  match smartAccount w with
  | None => (Rejected "Smart wallet not initialized", w)
  | Some account =>
      send_and_wait provider "Failed to send native tokens:" account
        [mkCall to (Some amount) "0x"] w
  end.

Definition transferTokens (provider : Provider) (params : TokenTransferParams)
    : W SmartWalletUserOperation := λ w,
  match smartAccount w with
  | None => (Rejected "Smart wallet not initialized", w)
  | Some account =>
      match Units.parseUnits (tp_amount params) (tp_decimals params) with
      | Throw error =>
          (Fulfilled (failed_operation "" error),
           console_write "Failed to transfer tokens:" w)
      | Normal amount =>
          match encodeFunctionData provider ERC20_ABI "transfer"
                  [VAddress (tp_to params); VUint amount] with
          | Throw error =>
              (Fulfilled (failed_operation "" error),
               console_write "Failed to transfer tokens:" w)
          | Normal data =>
              send_and_wait provider "Failed to transfer tokens:" account
                [mkCall (tokenAddress params) None data] w
          end
      end
  end.

Definition callContract (provider : Provider) (params : ContractCallParams)
    : W SmartWalletUserOperation := λ w,
  match smartAccount w with
  | None => (Rejected "Smart wallet not initialized", w)
  | Some account =>
      match encodeFunctionData provider (abi params) (functionName params)
              (args params) with
      | Throw error =>
          (Fulfilled (failed_operation "" error),
           console_write "Failed to call contract:" w)
      | Normal data =>
          send_and_wait provider "Failed to call contract:" account
            [mkCall (contractAddress params) None data] w
      end
  end.

(** [milestonePayments.map((payment) => parseUnits(payment, 6))]: the first
    string that does not parse aborts the whole map. *)
Fixpoint parse_payments (payments : list string) : Completion (list Z) :=
  match payments with
  | [] => Normal []
  | payment :: rest =>
      match Units.parseUnits payment 6 with
      | Throw error => Throw error
      | Normal amount =>
          match parse_payments rest with
          | Throw error => Throw error
          | Normal amounts => Normal (amount :: amounts)
          end
      end
  end.

Definition createProject (provider : Provider) (contractAddress : string)
    (abi : list AbiFunction) (client freelancer : string)
    (milestoneDescriptions milestonePayments : list string)
    : W SmartWalletUserOperation := λ w,
  match parse_payments milestonePayments with
  | Throw error => (Rejected error, w)
  | Normal amounts =>
      callContract provider
        (mkCallParams contractAddress abi "createProject"
           [ VAddress client; VAddress freelancer;
             VArray (VString <$> milestoneDescriptions);
             VArray (VUint <$> amounts) ]) w
  end.

Definition approveMilestone (provider : Provider) (projectAddress : string)
    (abi : list AbiFunction) (milestoneIndex : Z)
    : W SmartWalletUserOperation :=
  callContract provider
    (mkCallParams projectAddress abi "approveMilestone"
       [VUint milestoneIndex]).

(** *** Vocabulary of the specification, and sample collaborators *)

Definition is_hex (c : ascii) : bool :=
  let n := nat_of_ascii c in
  ((48 <=? n) && (n <=? 57) || (65 <=? n) && (n <=? 70) ||
   (97 <=? n) && (n <=? 102))%nat.

(** A well-formed address in the sense of the specification: [0x] followed
    by forty hexadecimal digits. The service itself never tests this. *)
Definition isAddress (a : string) : bool :=
  match String.list_ascii_of_string a with
  | c0 :: cx :: rest =>
      bool_decide (c0 = "0"%char) && bool_decide (cx = "x"%char) &&
      (length rest =? 40)%nat && forallb is_hex rest
  | _ => false
  end.

(** A provider that accepts every operation and completes it. *)
Definition provider_ok : Provider :=
  mkProvider (λ _, Fulfilled "0xop")
             (λ _ _, Fulfilled (mkProviderOperation "complete"
                                  (Some "0xtx") (Some "receipt")))
             (λ _ name _, Normal ("0xdata:" +:+ name)).

(** A provider whose wait call gives up after its own bound. *)
Definition provider_timing_out : Provider :=
  mkProvider (λ _, Fulfilled "0xop")
             (λ _ _, Rejected "TimeoutError")
             (λ _ name _, Normal ("0xdata:" +:+ name)).

(** A provider whose wait call never settles. *)
Definition provider_stalled : Provider :=
  mkProvider (λ _, Fulfilled "0xop")
             (λ _ _, NeverSettles)
             (λ _ name _, Normal ("0xdata:" +:+ name)).

(** A provider that reports the operation as still pending. *)
Definition provider_pending : Provider :=
  mkProvider (λ _, Fulfilled "0xop")
             (λ _ _, Fulfilled (mkProviderOperation "pending" None None))
             (λ _ name _, Normal ("0xdata:" +:+ name)).

Definition ready_wallet : Wallet :=
  mkWallet (Some "0x1111111111111111111111111111111111111111") [] [].

(** The request a single-call operation is submitted as. *)
Definition single_call (account : string) (c : Call) : UserOperationRequest :=
  mkRequest account "base" PAYMASTER_URL [c].

End SmartWallet.

Module X402.

(** *** Data model (the interfaces at the top of the service file) *)

Record X402PaymentResponse := mkPaymentResponse {
  paymentId : string;
  amount : string;
  currency : string;
  recipient : string;
  deadline : Z;
  nonce : string;
  signature : option string
}.

Record X402PaymentVerification := mkVerification {
  v_paymentId : string;
  v_transactionHash : string;
  verified : bool;
  v_amount : string;
  timestamp : Z
}.

(** What the facilitator's [/verify] body decodes to. Every field may be
    missing in the JSON; the code reads them through [||]. *)
Record X402VerificationResult := mkVerificationResult {
  r_verified : option bool;
  r_amount : option string;
  r_reason : option string
}.

Inductive Scenario :=
  | AI_PROJECT_CREATION
  | APPLICATION_SIGNAL_FEE
  | MILESTONE_APPROVAL_FEE
  | DISPUTE_BOND.

Record ScenarioConfig := mkScenario {
  sc_amount : string;
  sc_currency : string;
  sc_description : string
}.

Definition X402_PAYMENT_SCENARIOS (scenario : Scenario) : ScenarioConfig :=
  match scenario with
  | AI_PROJECT_CREATION =>
      mkScenario "1000000" "USDC" "AI-Assisted Project Creation"
  | APPLICATION_SIGNAL_FEE =>
      mkScenario "500000" "USDC" "Project Application Signal Fee"
  | MILESTONE_APPROVAL_FEE =>
      mkScenario "2000000" "USDC" "Milestone Approval Service Fee"
  | DISPUTE_BOND =>
      mkScenario "10000000" "USDC" "Dispute Resolution Bond"
  end.

(** *** The outside world *)

(** The two requests the service ever sends. *)
Inductive Request :=
  | PostVerify (url : string)
      (paymentId transactionHash : string)
      (expectedAmount expectedRecipient expectedCurrency : string)
  | PostSettle (url : string) (paymentId transactionHash : string).

Inductive JsonOutcome :=
  | JsonValue (body : X402VerificationResult)
  | JsonThrows (message : string).

Record Response := mkResponse {
  ok : bool;
  status : Z;
  statusText : string;
  json : JsonOutcome
}.

Inductive FetchOutcome :=
  | FetchResponse (response : Response)
  | FetchThrows (message : string).

(** The facilitator as seen during one call. *)
Definition Fetch := Request → FetchOutcome.

Inductive LogEntry :=
  | PAYMENT_GENERATED (scenario : Scenario) (paymentId amount currency
      description : string) (deadline : Z)
  | PAYMENT_VERIFIED (paymentId transactionHash amount : string)
      (timestamp : Z)
  | PAYMENT_FAILED (paymentId transactionHash reason : string)
  | VERIFICATION_ERROR (paymentId transactionHash error : string)
  | SETTLEMENT_FAILED (paymentId transactionHash : string) (status : Z)
      (statusText : string)
  | PAYMENT_SETTLED (paymentId transactionHash : string)
  | SETTLEMENT_ERROR (paymentId transactionHash error : string)
  | PAYMENT_EXPIRED (paymentId : string) (deadline : Z).

(** The service object together with what it has written to the console
    and to the network, and the number of identifiers drawn from the uuid
    generator so far. *)
Record State := mkState {
  facilitatorUrl : string;
  recipientAddress : string;
  pendingPayments : gmap string X402PaymentResponse;
  console : list LogEntry;
  sent : list Request;
  drawn : nat
}.

Definition constructor (facilitatorUrl recipientAddress : string) : State :=
  mkState facilitatorUrl recipientAddress ∅ [] [] 0.

Definition set_pending (f : gmap string X402PaymentResponse →
                            gmap string X402PaymentResponse) (s : State) :=
  mkState (facilitatorUrl s) (recipientAddress s) (f (pendingPayments s))
          (console s) (sent s) (drawn s).

Definition M (A : Type) : Type := State → Completion A * State.

Definition ret {A} (a : A) : M A := λ s, (Normal a, s).
Definition throw {A} (message : string) : M A := λ s, (Throw message, s).
Definition bind {A B} (m : M A) (k : A → M B) : M B :=
  λ s, match m s with
       | (Normal a, s') => k a s'
       | (Throw e, s') => (Throw e, s')
       end.
Definition try_catch {A} (body : M A) (handler : string → M A) : M A :=
  λ s, match body s with
       | (Normal a, s') => (Normal a, s')
       | (Throw e, s') => handler e s'
       end.

#[global] Instance M_ret : MRet M := @ret.
#[global] Instance M_bind : MBind M := λ A B k m, bind m k.

Definition log (e : LogEntry) : M unit := λ s,
  (Normal tt,
   mkState (facilitatorUrl s) (recipientAddress s) (pendingPayments s)
           (console s ++ [e]) (sent s) (drawn s)).

(** [await fetch(...)]: the request goes out, then the oracle's answer is
    either a response or a rejection, which [await] rethrows. *)
Definition do_fetch (fetch : Fetch) (req : Request) : M Response := λ s,
  let s' := mkState (facilitatorUrl s) (recipientAddress s)
                    (pendingPayments s) (console s) (sent s ++ [req])
                    (drawn s) in
  match fetch req with
  | FetchResponse r => (Normal r, s')
  | FetchThrows e => (Throw e, s')
  end.

Definition response_json (r : Response) : M X402VerificationResult :=
  match json r with
  | JsonValue b => mret b
  | JsonThrows e => throw e
  end.

Definition get_state : M State := λ s, (Normal s, s).

Definition pending_get (id : string) : M (option X402PaymentResponse) :=
  λ s, (Normal (pendingPayments s !! id), s).
Definition pending_set (id : string) (p : X402PaymentResponse) : M unit :=
  λ s, (Normal tt, set_pending (insert id p) s).
Definition pending_delete (id : string) : M unit :=
  λ s, (Normal tt, set_pending (delete id) s).

(** JS [a || b] on an optional string: the empty string is falsy too. *)
Definition or_string (a : option string) (b : string) : string :=
  match a with
  | Some x => if decide (x = "") then b else x
  | None => b
  end.
Definition or_false (a : option bool) : bool :=
  match a with Some b => b | None => false end.

(** [Math.floor(Date.now() / 1000)] *)
Definition unix_seconds (now_ms : Z) : Z := now_ms `div` 1000.

(** *** generatePaymentRequest, create402Response *)

Section Service.
(** [uuidv4()] and [randomBytes(32).toString("hex")]: the i-th draw. *)
Variable uuid_stream : nat → string.
Variable nonce_stream : nat → string.

Definition uuidv4 : M string := λ s,
  (Normal (uuid_stream (drawn s)),
   mkState (facilitatorUrl s) (recipientAddress s) (pendingPayments s)
           (console s) (sent s) (S (drawn s))).

Definition generatePaymentRequest (now : Z) (scenario : Scenario)
    : M X402PaymentResponse :=
  let config := X402_PAYMENT_SCENARIOS scenario in
  this ← get_state;
  paymentId ← uuidv4;
  let nonce := nonce_stream (drawn this) in
  let deadline := unix_seconds now + 3600 in
  let paymentRequest :=
    mkPaymentResponse paymentId (sc_amount config) (sc_currency config)
                      (recipientAddress this) deadline nonce None in
  pending_set paymentId paymentRequest;;
  log (PAYMENT_GENERATED scenario paymentId (sc_amount config)
         (sc_currency config) (sc_description config) deadline);;
  mret paymentRequest.

Record PaymentBody := mkPaymentBody {
  pb_id : string;
  pb_amount : string;
  pb_currency : string;
  pb_recipient : string;
  pb_deadline : Z;
  pb_description : string;
  pb_facilitator : string
}.

Record Body402 := mkBody402 {
  b_error : string;
  b_code : Z;
  b_message : string;
  b_payment : PaymentBody
}.

Record Response402 := mkResponse402 {
  r402_status : Z;
  r402_headers : list (string * string);
  r402_body : Body402
}.

Definition create402Response (now : Z) (scenario : Scenario)
    : M Response402 :=
  paymentRequest ← generatePaymentRequest now scenario;
  let config := X402_PAYMENT_SCENARIOS scenario in
  this ← get_state;
  mret (mkResponse402 402
    [ ("Content-Type", "application/json");
      ("X-Payment-Required", "x402");
      ("X-Payment-Amount", amount paymentRequest);
      ("X-Payment-Currency", currency paymentRequest);
      ("X-Payment-Recipient", recipient paymentRequest);
      ("X-Payment-Id", paymentId paymentRequest) ]
    (mkBody402 "Payment Required" 402 (sc_description config)
      (mkPaymentBody (paymentId paymentRequest) (amount paymentRequest)
         (currency paymentRequest) (recipient paymentRequest)
         (deadline paymentRequest) (sc_description config)
         (facilitatorUrl this)))).
End Service.

(** *** settlePayment, verifyPayment *)

Definition settlePayment (fetch : Fetch) (paymentId transactionHash : string)
    : M unit :=
  try_catch
    (this ← get_state;
     response ← do_fetch fetch
       (PostSettle (facilitatorUrl this ++ "/settle")
                   paymentId transactionHash);
     if negb (ok response) then
       log (SETTLEMENT_FAILED paymentId transactionHash (status response)
              (statusText response))
     else
       log (PAYMENT_SETTLED paymentId transactionHash))
    (λ error, log (SETTLEMENT_ERROR paymentId transactionHash error)).

(** The [catch] block of [verifyPayment]. *)
Definition verification_error (now : Z) (paymentId transactionHash : string)
    (error : string) : M X402PaymentVerification :=
  log (VERIFICATION_ERROR paymentId transactionHash error);;
  mret (mkVerification paymentId transactionHash false "0"
          (unix_seconds now)).

Definition verifyPayment (fetch : Fetch) (now : Z)
    (paymentId transactionHash : string) : M X402PaymentVerification :=
  try_catch
    (o ← pending_get paymentId;
     match o with
     | None => throw "Payment not found"
     | Some pendingPayment =>
       this ← get_state;
       response ← do_fetch fetch
         (PostVerify (facilitatorUrl this ++ "/verify")
            paymentId transactionHash
            (amount pendingPayment) (recipient pendingPayment)
            (currency pendingPayment));
       if negb (ok response) then
         throw ("Verification failed: " ++ statusText response)
       else
         verificationResult ← response_json response;
         let verification :=
           mkVerification paymentId transactionHash
             (or_false (r_verified verificationResult))
             (or_string (r_amount verificationResult)
                        (amount pendingPayment))
             (unix_seconds now) in
         (if verified verification then
            pending_delete paymentId;;
            log (PAYMENT_VERIFIED paymentId transactionHash
                   (v_amount verification) (timestamp verification));;
            settlePayment fetch paymentId transactionHash
          else
            log (PAYMENT_FAILED paymentId transactionHash
                   (or_string (r_reason verificationResult) "Unknown")));;
         mret verification
     end)
    (verification_error now paymentId transactionHash).

Definition isPaymentPending (paymentId : string) (s : State) : bool :=
  bool_decide (is_Some (pendingPayments s !! paymentId)).

Definition getPendingPayment (paymentId : string) (s : State)
    : option X402PaymentResponse :=
  pendingPayments s !! paymentId.

(** *** cleanupExpiredPayments *)

(** One turn of the [for ... of this.pendingPayments.entries()] loop. *)
Definition cleanup_entry (now : Z) (entry : string * X402PaymentResponse)
    : M unit :=
  let '(paymentId, payment) := entry in
  if bool_decide (deadline payment < now) then
    pending_delete paymentId;;
    log (PAYMENT_EXPIRED paymentId (deadline payment))
  else mret tt.

Fixpoint for_of {A} (body : A → M unit) (entries : list A) : M unit :=
  match entries with
  | [] => mret tt
  | e :: rest => body e;; for_of body rest
  end.

(** The loop visits every entry once; deleting the entry under the cursor
    does not disturb a JS [Map] iteration. A [gmap] keeps no insertion
    order, so the order of the [PAYMENT_EXPIRED] lines is that of
    [map_to_list], not the order of issue. *)
Definition cleanupExpiredPayments (now_ms : Z) : M unit :=
  let now := unix_seconds now_ms in
  this ← get_state;
  for_of (cleanup_entry now) (map_to_list (pendingPayments this)).

(** *** verifyPayment as a resumable task

    [verifyPayment] is an [async] function: it runs until its next [await]
    and then yields to whatever else the event loop has ready. A [Task] is
    the continuation held at each suspension point; [resume] runs one task
    from its suspension point to the next one. Other calls may run in
    between two resumptions, which is what [interleave] does. *)

Inductive Task :=
  | Called (paymentId transactionHash : string)
  | AwaitVerify (paymentId transactionHash : string)
      (pendingPayment : X402PaymentResponse) (req : Request)
  | AwaitJson (paymentId transactionHash : string)
      (pendingPayment : X402PaymentResponse) (response : Response)
  | AwaitSettle (verification : X402PaymentVerification) (req : Request)
  | Returned (c : Completion X402PaymentVerification).

Definition send (req : Request) (s : State) : State :=
  mkState (facilitatorUrl s) (recipientAddress s) (pendingPayments s)
          (console s) (sent s ++ [req]) (drawn s).

Definition finish (m : M X402PaymentVerification) (s : State)
    : Task * State :=
  let '(c, s') := m s in (Returned c, s').

Definition resume (fetch : Fetch) (now : Z) (t : Task) (s : State)
    : Task * State :=
  match t with
  | Called paymentId transactionHash =>
      match pendingPayments s !! paymentId with
      | None =>
          finish (verification_error now paymentId transactionHash
                    "Payment not found") s
      | Some pendingPayment =>
          let req := PostVerify (facilitatorUrl s ++ "/verify")
                       paymentId transactionHash
                       (amount pendingPayment) (recipient pendingPayment)
                       (currency pendingPayment) in
          (AwaitVerify paymentId transactionHash pendingPayment req,
           send req s)
      end
  | AwaitVerify paymentId transactionHash pendingPayment req =>
      match fetch req with
      | FetchThrows error =>
          finish (verification_error now paymentId transactionHash error) s
      | FetchResponse response =>
          if negb (ok response) then
            finish (verification_error now paymentId transactionHash
                      ("Verification failed: " ++ statusText response)) s
          else (AwaitJson paymentId transactionHash pendingPayment response,
                s)
      end
  | AwaitJson paymentId transactionHash pendingPayment response =>
      match json response with
      | JsonThrows error =>
          finish (verification_error now paymentId transactionHash error) s
      | JsonValue verificationResult =>
          let verification :=
            mkVerification paymentId transactionHash
              (or_false (r_verified verificationResult))
              (or_string (r_amount verificationResult)
                         (amount pendingPayment))
              (unix_seconds now) in
          if verified verification then
            let '(_, s1) :=
              (pending_delete paymentId;;
               log (PAYMENT_VERIFIED paymentId transactionHash
                      (v_amount verification) (timestamp verification))) s in
            let req := PostSettle (facilitatorUrl s1 ++ "/settle")
                         paymentId transactionHash in
            (AwaitSettle verification req, send req s1)
          else
            finish
              (log (PAYMENT_FAILED paymentId transactionHash
                      (or_string (r_reason verificationResult) "Unknown"));;
               mret verification) s
      end
  | AwaitSettle verification req =>
      let paymentId := v_paymentId verification in
      let transactionHash := v_transactionHash verification in
      finish
        (match fetch req with
         | FetchResponse response =>
             if negb (ok response) then
               log (SETTLEMENT_FAILED paymentId transactionHash
                      (status response) (statusText response))
             else log (PAYMENT_SETTLED paymentId transactionHash)
         | FetchThrows error =>
             log (SETTLEMENT_ERROR paymentId transactionHash error)
         end;;
         mret verification) s
  | Returned c => (Returned c, s)
  end.

(** Run one call alone, with nothing else scheduled in between. *)
Fixpoint run_alone (fetch : Fetch) (now : Z) (fuel : nat) (t : Task)
    (s : State) : Task * State :=
  match fuel with
  | O => (t, s)
  | S fuel' =>
      let '(t', s') := resume fetch now t s in
      run_alone fetch now fuel' t' s'
  end.

(** Several calls in flight; [schedule] lists which one the event loop
    resumes next. *)
Fixpoint interleave (fetch : Fetch) (now : Z) (schedule : list nat)
    (tasks : list Task) (s : State) : list Task * State :=
  match schedule with
  | [] => (tasks, s)
  | i :: rest =>
      match tasks !! i with
      | None => interleave fetch now rest tasks s
      | Some t =>
          let '(t', s') := resume fetch now t s in
          interleave fetch now rest (<[i := t']> tasks) s'
      end
  end.

Definition returned_verified (t : Task) : bool :=
  match t with
  | Returned (Normal v) => verified v
  | _ => false
  end.

(** What the sweep writes to the console for a list of entries. *)
Definition sweep_log (now : Z) (entries : list (string * X402PaymentResponse))
    : list LogEntry :=
  omap (λ e, if bool_decide (deadline e.2 < now)
             then Some (PAYMENT_EXPIRED e.1 (deadline e.2)) else None)
       entries.

(** *** Histories of calls that do not overlap *)

Section History.
Variable uuid_stream : nat → string.
Variable nonce_stream : nat → string.

Inductive Op :=
  | DoIssue (now : Z) (scenario : Scenario)
  | DoVerify (fetch : Fetch) (now : Z) (paymentId transactionHash : string)
  | DoCleanup (now : Z).

Definition run_op (s : State) (op : Op) : State :=
  match op with
  | DoIssue now scenario =>
      snd (create402Response uuid_stream nonce_stream now scenario s)
  | DoVerify fetch now paymentId transactionHash =>
      snd (verifyPayment fetch now paymentId transactionHash s)
  | DoCleanup now => snd (cleanupExpiredPayments now s)
  end.

Definition run_ops (ops : list Op) (s : State) : State :=
  fold_left run_op ops s.

(** Every stored id came out of the generator. *)
Definition ids_were_drawn (s : State) : Prop :=
  ∀ id, is_Some (pendingPayments s !! id) →
        ∃ i, (i < drawn s)%nat ∧ uuid_stream i = id.

(** An id that was drawn and is not stored (any more). *)
Definition consumed (id : string) (s : State) : Prop :=
  ids_were_drawn s ∧
  pendingPayments s !! id = None ∧
  ∃ i, (i < drawn s)%nat ∧ uuid_stream i = id.

(** *** Calls in flight, together with new calls, issues and sweeps

    What the event loop does next: it resumes a call in flight, with the
    facilitator as it answers at that moment; a new call arrives; a
    challenge is issued; or the sweep runs. A call that has arrived has
    not read the store until it is resumed for the first time. *)
Inductive Event :=
  | Resumes (i : nat) (fetch : Fetch) (now : Z)
  | Calls (paymentId transactionHash : string)
  | Issues (now : Z) (scenario : Scenario)
  | Sweeps (now : Z).

Definition run_event (sys : list Task * State) (e : Event)
    : list Task * State :=
  match e with
  | Resumes i fetch now =>
      match sys.1 !! i with
      | None => sys
      | Some t =>
          let '(t', s') := resume fetch now t sys.2 in (<[i := t']> sys.1, s')
      end
  | Calls paymentId transactionHash =>
      ((sys.1 ++ [Called paymentId transactionHash])%list, sys.2)
  | Issues now scenario =>
      (sys.1, snd (create402Response uuid_stream nonce_stream now scenario
                     sys.2))
  | Sweeps now => (sys.1, snd (cleanupExpiredPayments now sys.2))
  end.

Definition run_events (events : list Event) (sys : list Task * State)
    : list Task * State :=
  fold_left run_event events sys.

(** The call has not read the store yet. *)
Definition not_started (t : Task) : Prop :=
  match t with
  | Called _ _ => True
  | _ => False
  end.

(** The call has had the facilitator's confirmation: it is waiting for the
    answer to its settle request, or it has returned [verified = true]. *)
Definition confirmed (t : Task) (v : X402PaymentVerification) : Prop :=
  match t with
  | AwaitSettle v' _ => v' = v
  | Returned (Normal v') => v' = v ∧ verified v = true
  | _ => False
  end.

Definition was_drawn (id : string) (s : State) : Prop :=
  ∃ i, (i < drawn s)%nat ∧ uuid_stream i = id.

(** What holds of a call in flight, whatever else has run since it
    started: the id it looked up was drawn, and once it is confirmed the
    session is gone. *)
Definition task_ok (s : State) (t : Task) : Prop :=
  match t with
  | Called _ _ => True
  | AwaitVerify id _ _ _ | AwaitJson id _ _ _ => was_drawn id s
  | AwaitSettle v _ =>
      was_drawn (v_paymentId v) s ∧
      pendingPayments s !! v_paymentId v = None
  | Returned (Normal v) =>
      verified v = true →
      was_drawn (v_paymentId v) s ∧
      pendingPayments s !! v_paymentId v = None
  | Returned (Throw _) => True
  end.

Definition sys_ok (sys : list Task * State) : Prop :=
  ids_were_drawn sys.2 ∧ Forall (task_ok sys.2) sys.1.
End History.

(** The request [verifyPayment] sends for a stored challenge. *)
Definition verify_request (s : State) (paymentId transactionHash : string)
    (p : X402PaymentResponse) : Request :=
  PostVerify (facilitatorUrl s ++ "/verify") paymentId transactionHash
             (amount p) (recipient p) (currency p).

Definition settle_request (s : State) (paymentId transactionHash : string)
    : Request :=
  PostSettle (facilitatorUrl s ++ "/settle") paymentId transactionHash.

(** The facilitator confirms: a 2xx response whose body says verified. *)
Definition facilitator_confirms (fetch : Fetch) (req : Request) : Prop :=
  ∃ r body, fetch req = FetchResponse r ∧ ok r = true ∧
            json r = JsonValue body ∧ r_verified body = Some true.

(** The facilitator does not confirm: the transport fails, the response is
    not OK, its body does not parse, or it does not say verified. *)
Definition facilitator_refuses (fetch : Fetch) (req : Request) : Prop :=
  match fetch req with
  | FetchThrows _ => True
  | FetchResponse r =>
      ok r = false ∨
      match json r with
      | JsonThrows _ => True
      | JsonValue body => or_false (r_verified body) = false
      end
  end.

(** Change the deadline of one stored challenge and nothing else. *)
Definition with_deadline (d : Z) (p : X402PaymentResponse)
    : X402PaymentResponse :=
  mkPaymentResponse (paymentId p) (amount p) (currency p) (recipient p) d
                    (nonce p) (signature p).
Definition set_deadline (id : string) (d : Z) (s : State) : State :=
  set_pending (alter (with_deadline d) id) s.

Definition expired (now_ms : Z) (p : X402PaymentResponse) : Prop :=
  deadline p < unix_seconds now_ms.

#[global] Instance expired_dec now_ms p : Decision (expired now_ms p) :=
  Z_lt_dec (deadline p) (unix_seconds now_ms).

(** *** Sample collaborators and states used in the worked instances *)

Definition confirming_response : Response :=
  mkResponse true 200 "OK"
    (JsonValue (mkVerificationResult (Some true) (Some "1000000") None)).

(** A facilitator that confirms every payment and settles it. *)
Definition facilitator_up : Fetch := λ _, FetchResponse confirming_response.

(** A facilitator that confirms, but whose settle endpoint is unreachable. *)
Definition facilitator_settle_down : Fetch := λ req,
  match req with
  | PostVerify _ _ _ _ _ _ => FetchResponse confirming_response
  | PostSettle _ _ _ => FetchThrows "fetch failed"
  end.

(** A facilitator that answers 500 to everything. *)
Definition facilitator_broken : Fetch := λ _,
  FetchResponse
    (mkResponse false 500 "Internal Server Error" (JsonThrows "no body")).

(** The i-th id and nonce of the sample generator: the decimal numeral. *)
Definition sample_stream (i : nat) : string := pretty i.

Definition fresh_service : State :=
  constructor "https://facilitator.x402.xyz"
              "0x742d35Cc6635C0532925a3b8D716C4C3e4d4Cc62".

(** The challenge the sample generator produces first, at second 1000. *)
Definition sample_challenge : X402PaymentResponse :=
  mkPaymentResponse "0" "1000000" "USDC"
    "0x742d35Cc6635C0532925a3b8D716C4C3e4d4Cc62" 4600 "0" None.

(** The service after one challenge, issued at second 1000. *)
Definition one_challenge : State :=
  snd (create402Response sample_stream sample_stream 1000000
         AI_PROJECT_CREATION fresh_service).

End X402.

(** ** The HTTP handlers of the payment gateway *)

Module Gateway.
Import X402.

(** A value found in a parsed JSON request body. A field that is absent
    reads [undefined]; objects and arrays are kept as their JSON text, since
    the handlers only test and store them. *)
Inductive JsValue :=
  | JUndefined
  | JNull
  | JBool (b : bool)
  | JNumber (n : Qcanon.Qc)
  | JString (s : string)
  | JObject (json : string).

(** JS truthiness, as tested by [!v]. *)
Definition truthy (v : JsValue) : bool :=
  match v with
  | JUndefined | JNull => false
  | JBool b => b
  | JNumber n => negb (bool_decide (n = Qc_of_Z 0))
  | JString s => negb (bool_decide (s = ""))
  | JObject _ => true
  end.

Definition is_undefined (v : JsValue) : bool :=
  match v with JUndefined => true | _ => false end.

Definition Body := gmap string JsValue.

(** [body[name]] *)
Definition field (body : Body) (name : string) : JsValue :=
  default JUndefined (body !! name).

Record Session := mkSession {
  userId : JsValue;
  scenario : Scenario;
  metadata : Body;
  session_timestamp : Z
}.

Inductive LogTag :=
  | AI_PROJECT_CREATION_REQUESTED
  | AI_PROJECT_CREATION_ERROR
  | AI_PROJECT_CREATION_PAID
  | AI_PROJECT_PROCESSING_ERROR
  | PROJECT_APPLICATION_REQUESTED
  | PROJECT_APPLICATION_ERROR
  | PROJECT_APPLICATION_PAID
  | PROJECT_APPLICATION_PROCESSING_ERROR
  | MILESTONE_APPROVAL_REQUESTED
  | MILESTONE_APPROVAL_ERROR
  | MILESTONE_APPROVAL_PAID
  | MILESTONE_APPROVAL_PROCESSING_ERROR
  | DISPUTE_CREATION_REQUESTED
  | DISPUTE_CREATION_ERROR
  | DISPUTE_CREATION_PAID
  | DISPUTE_CREATION_PROCESSING_ERROR
  | PAYMENT_STATUS_ERROR
  | SESSION_EXPIRED.

(** One [console.log(tag, {...})] or [console.error(tag, error)]. *)
Inductive AppLog :=
  | LogFields (tag : LogTag) (fields : list (string * JsValue))
  | LogError (tag : LogTag) (error : string).

(** The module state of the endpoints file: the service instance, the
    session registry and the console. *)
Record App := mkApp {
  x402Service : State;
  paymentSessions : gmap string Session;
  app_console : list AppLog
}.

Record ProjectMilestone := mkProjectMilestone {
  pm_title : string;
  pm_description : string;
  pm_budget : string;
  pm_duration : string
}.

Record AiProject := mkAiProject {
  ai_title : string;
  ai_description : string;
  ai_category : JsValue;
  ai_skillsRequired : list string;
  ai_estimatedBudget : string;
  ai_estimatedDuration : string;
  ai_milestones : list ProjectMilestone
}.

(** The JSON bodies the handlers answer with. *)
Inductive ResponseBody :=
  | ErrorBody (error : string)
  | PaymentRequired (body : Body402)
  | ProjectCreated (message : string) (project : AiProject)
      (paymentVerification : X402PaymentVerification)
  | ApplicationSubmitted (message : string) (projectAddress : JsValue)
      (applicationStatus : string)
      (paymentVerification : X402PaymentVerification)
  | MilestoneApproved (message : string) (projectAddress milestoneId : JsValue)
      (sbtsMinted : bool) (paymentVerification : X402PaymentVerification)
  | DisputeCreated (message : string) (projectAddress milestoneId : JsValue)
      (disputeId : string) (arbiterAssigned : bool)
      (paymentVerification : X402PaymentVerification)
  | StatusPending (payment : option X402PaymentResponse)
      (session : option (Scenario * JsValue * Z))
  | StatusNotFound (message : string).

Record HttpResponse := mkHttp {
  http_status : Z;
  http_headers : list (string * string);
  http_body : ResponseBody
}.

(** [res.status(code).json(body)]; [res.json(body)] answers 200. *)
Definition json_response (code : Z) (body : ResponseBody) : HttpResponse :=
  mkHttp code [] body.

Definition internal_error : HttpResponse :=
  json_response 500 (ErrorBody "Internal server error").

Definition write_log (entry : AppLog) (app : App) : App :=
  mkApp (x402Service app) (paymentSessions app) (app_console app ++ [entry]).

Definition with_service (svc : State) (app : App) : App :=
  mkApp svc (paymentSessions app) (app_console app).

Definition with_sessions (f : gmap string Session → gmap string Session)
    (app : App) : App :=
  mkApp (x402Service app) (f (paymentSessions app)) (app_console app).

(** An object literal [{k1: v1, ...}]. *)
Definition object (fields : list (string * JsValue)) : Body :=
  list_to_map fields.

Section Handlers.
Variable uuid_stream : nat → string.
Variable nonce_stream : nat → string.
(** The string a template literal makes of a value. *)
Variable render : JsValue → string.

(** The part the four request handlers share once their fields are
    checked: issue the challenge, remember the session under the id of the
    challenge, log, and answer 402 with the envelope of the service.
    [now] is the clock as the service reads it, [now'] the reading taken
    for the session's timestamp afterwards. *)
Definition open_session (kind : Scenario) (requested error : LogTag)
    (user : JsValue) (meta : list (string * JsValue))
    (logged : string → list (string * JsValue)) (now now' : Z) (app : App)
    : HttpResponse * App :=
  match create402Response uuid_stream nonce_stream now kind
          (x402Service app) with
  | (Normal payment402, svc) =>
      let id := pb_id (b_payment (r402_body payment402)) in
      let app := with_service svc app in
      let app :=
        with_sessions
          (insert id (mkSession user kind (object meta) now')) app in
      let app := write_log (LogFields requested (logged id)) app in
      (mkHttp 402 (r402_headers payment402)
              (PaymentRequired (r402_body payment402)), app)
  | (Throw e, svc) =>
      (internal_error, write_log (LogError error e) (with_service svc app))
  end.

(** Reading [req.body] when no body was parsed throws inside the [try]. *)
Definition no_body (error : LogTag) (app : App) : HttpResponse * App :=
  (internal_error,
   write_log (LogError error "TypeError: Cannot destructure property") app).

Definition requestAIProjectCreation (now now' : Z) (body : option Body)
    (app : App) : HttpResponse * App :=
  match body with
  | None => no_body AI_PROJECT_CREATION_ERROR app
  | Some b =>
      let userId := field b "userId" in
      let projectType := field b "projectType" in
      let requirements := field b "requirements" in
      if negb (truthy userId) then
        (json_response 400 (ErrorBody "User ID required"), app)
      else
        open_session AI_PROJECT_CREATION AI_PROJECT_CREATION_REQUESTED
          AI_PROJECT_CREATION_ERROR userId
          [("projectType", projectType); ("requirements", requirements)]
          (λ id, [("userId", userId); ("paymentId", JString id);
                  ("amount",
                   JString (sc_amount
                              (X402_PAYMENT_SCENARIOS AI_PROJECT_CREATION)))])
          now now' app
  end.

Definition requestProjectApplication (now now' : Z) (body : option Body)
    (app : App) : HttpResponse * App :=
  match body with
  | None => no_body PROJECT_APPLICATION_ERROR app
  | Some b =>
      let userId := field b "userId" in
      let projectAddress := field b "projectAddress" in
      let applicationMessage := field b "applicationMessage" in
      if negb (truthy userId) || negb (truthy projectAddress) then
        (json_response 400
           (ErrorBody "User ID and project address required"), app)
      else
        open_session APPLICATION_SIGNAL_FEE PROJECT_APPLICATION_REQUESTED
          PROJECT_APPLICATION_ERROR userId
          [("projectAddress", projectAddress);
           ("applicationMessage", applicationMessage)]
          (λ id, [("userId", userId); ("projectAddress", projectAddress);
                  ("paymentId", JString id)])
          now now' app
  end.

Definition requestMilestoneApproval (now now' : Z) (body : option Body)
    (app : App) : HttpResponse * App :=
  match body with
  | None => no_body MILESTONE_APPROVAL_ERROR app
  | Some b =>
      let userId := field b "userId" in
      let projectAddress := field b "projectAddress" in
      let milestoneId := field b "milestoneId" in
      if negb (truthy userId) || negb (truthy projectAddress) ||
         is_undefined milestoneId then
        (json_response 400
           (ErrorBody "User ID, project address, and milestone ID required"),
         app)
      else
        open_session MILESTONE_APPROVAL_FEE MILESTONE_APPROVAL_REQUESTED
          MILESTONE_APPROVAL_ERROR userId
          [("projectAddress", projectAddress); ("milestoneId", milestoneId)]
          (λ id, [("userId", userId); ("projectAddress", projectAddress);
                  ("milestoneId", milestoneId); ("paymentId", JString id)])
          now now' app
  end.

Definition requestDisputeCreation (now now' : Z) (body : option Body)
    (app : App) : HttpResponse * App :=
  match body with
  | None => no_body DISPUTE_CREATION_ERROR app
  | Some b =>
      let userId := field b "userId" in
      let projectAddress := field b "projectAddress" in
      let milestoneId := field b "milestoneId" in
      let disputeReason := field b "disputeReason" in
      if negb (truthy userId) || negb (truthy projectAddress) ||
         is_undefined milestoneId || negb (truthy disputeReason) then
        (json_response 400
           (ErrorBody
              "User ID, project address, milestone ID, and dispute reason required"),
         app)
      else
        open_session DISPUTE_BOND DISPUTE_CREATION_REQUESTED
          DISPUTE_CREATION_ERROR userId
          [("projectAddress", projectAddress); ("milestoneId", milestoneId);
           ("disputeReason", disputeReason)]
          (λ id, [("userId", userId); ("projectAddress", projectAddress);
                  ("milestoneId", milestoneId); ("paymentId", JString id)])
          now now' app
  end.

(** The part the four process handlers share: verify with the service,
    answer 400 when the result is not verified, 404 when no session is
    registered under the id, and otherwise log, drop the session and answer
    with the handler's own body. The two ids are strings, as
    [verifyPayment] types them. *)
Definition redeem (fetch : Fetch) (now : Z) (paid error : LogTag)
    (logged : Session → list (string * JsValue))
    (answer : Session → X402PaymentVerification → ResponseBody)
    (paymentId transactionHash : string) (app : App)
    : HttpResponse * App :=
  match verifyPayment fetch now paymentId transactionHash
          (x402Service app) with
  | (Normal verification, svc) =>
      let app := with_service svc app in
      if negb (verified verification) then
        (json_response 400 (ErrorBody "Payment verification failed"), app)
      else
        match paymentSessions app !! paymentId with
        | None =>
            (json_response 404 (ErrorBody "Payment session not found"), app)
        | Some session =>
            let app := write_log (LogFields paid (logged session)) app in
            let app := with_sessions (delete paymentId) app in
            (json_response 200 (answer session verification), app)
        end
  | (Throw e, svc) =>
      (internal_error, write_log (LogError error e) (with_service svc app))
  end.

Definition aiGeneratedProject (session : Session) : AiProject :=
  let projectType := field (metadata session) "projectType" in
  let requirements := field (metadata session) "requirements" in
  mkAiProject
    ("AI Generated " +:+ render projectType +:+ " Project")
    ("Automatically generated project based on requirements: " +:+
     render requirements)
    projectType
    ["Smart Contracts"; "Frontend"; "Backend"]
    "5000 USDC" "4 weeks"
    [ mkProjectMilestone "Planning & Design"
        "Project planning and UI/UX design" "1000 USDC" "1 week";
      mkProjectMilestone "Development" "Core development work"
        "3000 USDC" "2 weeks";
      mkProjectMilestone "Testing & Deployment"
        "Testing and final deployment" "1000 USDC" "1 week" ].

Definition processAIProjectCreation (fetch : Fetch) (now : Z)
    (paymentId transactionHash : string) (app : App) : HttpResponse * App :=
  if bool_decide (paymentId = "") || bool_decide (transactionHash = "") then
    (json_response 400
       (ErrorBody "Payment ID and transaction hash required"), app)
  else
    redeem fetch now AI_PROJECT_CREATION_PAID AI_PROJECT_PROCESSING_ERROR
      (λ session, [("userId", userId session);
                   ("paymentId", JString paymentId);
                   ("transactionHash", JString transactionHash)])
      (λ session verification,
         ProjectCreated "AI project creation completed"
           (aiGeneratedProject session) verification)
      paymentId transactionHash app.

Definition processProjectApplication (fetch : Fetch) (now : Z)
    (paymentId transactionHash : string) (app : App) : HttpResponse * App :=
  redeem fetch now PROJECT_APPLICATION_PAID
    PROJECT_APPLICATION_PROCESSING_ERROR
    (λ session, [("userId", userId session);
                 ("projectAddress",
                  field (metadata session) "projectAddress");
                 ("paymentId", JString paymentId)])
    (λ session verification,
       ApplicationSubmitted "Project application submitted successfully"
         (field (metadata session) "projectAddress") "pending_review"
         verification)
    paymentId transactionHash app.

Definition processMilestoneApproval (fetch : Fetch) (now : Z)
    (paymentId transactionHash : string) (app : App) : HttpResponse * App :=
  redeem fetch now MILESTONE_APPROVAL_PAID
    MILESTONE_APPROVAL_PROCESSING_ERROR
    (λ session, [("userId", userId session);
                 ("projectAddress",
                  field (metadata session) "projectAddress");
                 ("milestoneId", field (metadata session) "milestoneId");
                 ("paymentId", JString paymentId)])
    (λ session verification,
       MilestoneApproved "Milestone approved and SBTs minted successfully"
         (field (metadata session) "projectAddress")
         (field (metadata session) "milestoneId") true verification)
    paymentId transactionHash app.

(** [now'] is the clock reading that names the dispute. *)
Definition processDisputeCreation (fetch : Fetch) (now now' : Z)
    (paymentId transactionHash : string) (app : App) : HttpResponse * App :=
  redeem fetch now DISPUTE_CREATION_PAID DISPUTE_CREATION_PROCESSING_ERROR
    (λ session, [("userId", userId session);
                 ("projectAddress",
                  field (metadata session) "projectAddress");
                 ("milestoneId", field (metadata session) "milestoneId");
                 ("paymentId", JString paymentId)])
    (λ session verification,
       DisputeCreated "Dispute created successfully and assigned to arbiter"
         (field (metadata session) "projectAddress")
         (field (metadata session) "milestoneId")
         ("dispute_" +:+ pretty now') true verification)
    paymentId transactionHash app.

Definition getPaymentStatus (paymentId : string) (app : App)
    : HttpResponse :=
  if isPaymentPending paymentId (x402Service app) then
    json_response 200
      (StatusPending (getPendingPayment paymentId (x402Service app))
         ((λ session, (scenario session, userId session,
                       session_timestamp session)) <$>
          paymentSessions app !! paymentId))
  else
    json_response 200
      (StatusNotFound "Payment not found or already processed").

(** One turn of the loop over [paymentSessions.entries()] in the hourly
    timer. *)
Definition expire_session (now : Z) (app : App) (entry : string * Session)
    : App :=
  if bool_decide (now - session_timestamp entry.2 > 3600000) then
    write_log (LogFields SESSION_EXPIRED [("paymentId", JString entry.1)])
      (with_sessions (delete entry.1) app)
  else app.

(** The callback of [setInterval]: sweep the service, then the sessions.
    [t1] is the clock as the service's sweep reads it, [t2] the reading
    taken for the sessions afterwards. *)
Definition hourly_cleanup (t1 t2 : Z) (app : App) : App :=
  let svc := snd (cleanupExpiredPayments t1 (x402Service app)) in
  foldl (expire_session t2) (with_service svc app)
        (map_to_list (paymentSessions app)).

(** *** The router's middleware *)

(** [missing.join(", ")] *)
Definition join (sep : string) (items : list string) : string :=
  String.concat sep items.

(** [validateRequiredFields(fields)]: the 400 answer, or [None] when it
    calls [next()]. *)
Definition validateRequiredFields (fields : list string) (body : Body)
    : option HttpResponse :=
  let missing := filter (λ name, truthy (field body name) = false) fields in
  if bool_decide (0 < length missing)%nat then
    Some (json_response 400
            (ErrorBody ("Missing required fields: " +:+ join ", " missing)))
  else None.

(** A route: the middleware, then the handler. *)
Definition route (fields : list string)
    (handler : option Body → App → HttpResponse * App) (body : Body)
    (app : App) : HttpResponse * App :=
  match validateRequiredFields fields body with
  | Some rejection => (rejection, app)
  | None => handler (Some body) app
  end.

Definition route_ai_project_request (now now' : Z) :=
  route ["userId"] (requestAIProjectCreation now now').
Definition route_application_request (now now' : Z) :=
  route ["userId"; "projectAddress"] (requestProjectApplication now now').
Definition route_milestone_request (now now' : Z) :=
  route ["userId"; "projectAddress"; "milestoneId"]
        (requestMilestoneApproval now now').
Definition route_dispute_request (now now' : Z) :=
  route ["userId"; "projectAddress"; "milestoneId"; "disputeReason"]
        (requestDisputeCreation now now').

(** The four priced actions, to speak of the handlers together. *)
Inductive Action := ForAiProject | ForApplication | ForMilestone | ForDispute.

Definition price_of (a : Action) : Scenario :=
  match a with
  | ForAiProject => AI_PROJECT_CREATION
  | ForApplication => APPLICATION_SIGNAL_FEE
  | ForMilestone => MILESTONE_APPROVAL_FEE
  | ForDispute => DISPUTE_BOND
  end.

Definition request_handler (a : Action) (now now' : Z)
    : option Body → App → HttpResponse * App :=
  match a with
  | ForAiProject => requestAIProjectCreation now now'
  | ForApplication => requestProjectApplication now now'
  | ForMilestone => requestMilestoneApproval now now'
  | ForDispute => requestDisputeCreation now now'
  end.

Definition process_handler (a : Action) (fetch : Fetch) (now now' : Z)
    : string → string → App → HttpResponse * App :=
  match a with
  | ForAiProject => processAIProjectCreation fetch now
  | ForApplication => processProjectApplication fetch now
  | ForMilestone => processMilestoneApproval fetch now
  | ForDispute => processDisputeCreation fetch now now'
  end.

(** The fields the handler of an action insists on. *)
Definition request_complete (a : Action) (b : Body) : bool :=
  match a with
  | ForAiProject => truthy (field b "userId")
  | ForApplication =>
      truthy (field b "userId") && truthy (field b "projectAddress")
  | ForMilestone =>
      truthy (field b "userId") && truthy (field b "projectAddress") &&
      negb (is_undefined (field b "milestoneId"))
  | ForDispute =>
      truthy (field b "userId") && truthy (field b "projectAddress") &&
      negb (is_undefined (field b "milestoneId")) &&
      truthy (field b "disputeReason")
  end.

Definition request_route (a : Action) (now now' : Z)
    : Body → App → HttpResponse * App :=
  match a with
  | ForAiProject => route_ai_project_request now now'
  | ForApplication => route_application_request now now'
  | ForMilestone => route_milestone_request now now'
  | ForDispute => route_dispute_request now now'
  end.

(** The actions whose request carries a milestone id. *)
(** *** Histories of gateway calls, each run to completion *)

Inductive GatewayOp :=
  | DoRequest (a : Action) (now now' : Z) (body : option Body)
  | DoProcess (a : Action) (fetch : Fetch) (now now' : Z)
      (paymentId transactionHash : string)
  | DoTimer (t1 t2 : Z).

Definition run_gateway_op (app : App) (op : GatewayOp) : App :=
  match op with
  | DoRequest a now now' body => snd (request_handler a now now' body app)
  | DoProcess a fetch now now' paymentId transactionHash =>
      snd (process_handler a fetch now now' paymentId transactionHash app)
  | DoTimer t1 t2 => hourly_cleanup t1 t2 app
  end.

Definition run_gateway_ops (ops : list GatewayOp) (app : App) : App :=
  fold_left run_gateway_op ops app.

(** A payment that was issued and is neither pending nor in session. *)
Definition redeemed (id : string) (app : App) : Prop :=
  consumed uuid_stream id (x402Service app) ∧
  paymentSessions app !! id = None.

Definition names_milestone (a : Action) : bool :=
  match a with
  | ForMilestone | ForDispute => true
  | ForAiProject | ForApplication => false
  end.

Definition is_success (r : HttpResponse) : bool :=
  match http_body r with
  | ProjectCreated _ _ _ | ApplicationSubmitted _ _ _ _
  | MilestoneApproved _ _ _ _ _ | DisputeCreated _ _ _ _ _ _ => true
  | _ => false
  end.
End Handlers.

(** The challenge that the service in state [s] issues next, and the state
    it is left in. *)
Definition issued (uuid_stream nonce_stream : nat → string) (now : Z)
    (kind : Scenario) (s : State) : X402PaymentResponse :=
  mkPaymentResponse (uuid_stream (drawn s))
    (sc_amount (X402_PAYMENT_SCENARIOS kind))
    (sc_currency (X402_PAYMENT_SCENARIOS kind))
    (recipientAddress s) (unix_seconds now + 3600)
    (nonce_stream (drawn s)) None.

Definition after_issue (uuid_stream nonce_stream : nat → string) (now : Z)
    (kind : Scenario) (s : State) : State :=
  snd (create402Response uuid_stream nonce_stream now kind s).

(** A stand-in for the template-literal conversion in worked instances. *)
Definition sample_render (v : JsValue) : string :=
  match v with
  | JString s => s
  | JUndefined => "undefined"
  | JNull => "null"
  | JBool true => "true"
  | JBool false => "false"
  | JNumber _ => "0"
  | JObject _ => "[object Object]"
  end.

(** Is a session older than an hour at clock reading [now]? *)
Definition session_stale (now : Z) (session : Session) : Prop :=
  now - session_timestamp session > 3600000.

#[global] Instance session_stale_dec now session :
  Decision (session_stale now session) :=
  Z_gt_dec (now - session_timestamp session) 3600000.

(** What the timer writes to the console for a list of sessions. *)
Definition expiry_lines (now : Z) (l : list (string * Session))
    : list AppLog :=
  omap (λ e, if bool_decide (session_stale now e.2)
             then Some (LogFields SESSION_EXPIRED
                          [("paymentId", JString e.1)])
             else None) l.

(** A new application: the default service, no sessions. *)
Definition fresh_app : App := mkApp fresh_service ∅ [].

Definition sample_body : Body :=
  object [("userId", JString "alice");
          ("projectAddress", JString "0xproject");
          ("milestoneId", JNumber (Qc_of_Z 0));
          ("disputeReason", JString "late")].

End Gateway.

(** * The wallet view: [SmartWalletService.ts] and [FileStorageProvider.ts] *)

Module WalletView.

Abbreviation Promise := SmartWallet.Promise.
Abbreviation Fulfilled := SmartWallet.Fulfilled.
Abbreviation Rejected := SmartWallet.Rejected.
Abbreviation NeverSettles := SmartWallet.NeverSettles.

Record TokenBalance := mkTokenBalance {
  token : string;
  symbol : string;
  balance : string;
  decimals : nat;
  formattedBalance : string
}.

Record TransactionHistoryItem := mkHistoryItem {
  hash : string;
  timestamp : Z;
  item_from : string;
  item_to : string;
  value : string;
  item_status : string;
  method : option string;
  blockNumber : option Z
}.

Record SmartWalletState := mkWalletState {
  address : string;
  isInitialized : bool;
  nativeBalance : string;
  tokenBalances : list TokenBalance;
  transactions : list TransactionHistoryItem;
  lastUpdated : Z
}.

(** One entry of [response.transactions], as the provider sends it. *)
Record ProviderTransaction := mkProviderTransaction {
  tx_hash : string;
  tx_timestamp : Z;
  tx_from : string;
  tx_to : string;
  tx_value : string;
  tx_status : string;
  tx_methodName : option string;
  tx_blockNumber : option Z
}.

(** What [cdpApi.getTransactionHistory] resolves to: a falsy response, a
    response without [transactions], or a response with the array. *)
Inductive HistoryResponse :=
  | NoResponse
  | NoTransactions
  | Transactions (txs : list ProviderTransaction).

(** The public client of viem and the CDP API: collaborators outside the
    repository. [readContract] decodes by the ABI it is given, so the three
    ERC20 reads come back as a [uint256], a [uint8] and a [string]. *)
Record Chain := mkChain {
  getBalance : string → Promise Z;
  balanceOf : string → string → Promise Z;
  read_decimals : string → Promise nat;
  read_symbol : string → Promise string;
  cdp_getTransactionHistory : string → string → Z → Promise HistoryResponse
}.

(** The platform under the storage provider: the JSON codec, the file a
    path names, and the error [writeFileSync] throws for a path, if any.
    [fs] resolves a path against the working directory, folding [.] and
    [..] segments and following links, so that different path strings can
    name one file; [resolve] gives the file as its resolved path. *)
Record Platform := mkPlatform {
  JSON_stringify : SmartWalletState → string;
  JSON_parse : string → Completion (option SmartWalletState);
  resolve : string → string;
  writeFileSync_error : string → option string
}.

(** A request that left the service. *)
Inductive Read :=
  | GetBalance (address : string)
  | ReadContract (address functionName : string) (args : list string)
  | GetTransactionHistory (networkId walletAddress : string) (limit : Z).

(** The service object with its storage provider, the files under the
    storage directory, and what the service has asked and printed. [files]
    maps a file, named by its resolved path, to its text: a file in the
    map exists and can be read;
    [cdpClient] tells whether [initialize] got as far as setting it. *)
Record Service := mkService {
  smartAccount : option string;
  cdpClient : bool;
  networkId : string;
  storageDir : string;
  files : gmap string string;
  reads : list Read;
  console : list string
}.

Definition USDC_ADDRESS : string :=
  "0x833589fCD6eDb6E08f4c7C32D4f71b54bda02913".

Definition V (A : Type) : Type := Service → Promise A * Service.

Definition ret {A} (a : A) : V A := λ s, (Fulfilled a, s).

Definition bind {A B} (m : V A) (k : A → V B) : V B := λ s,
  match m s with
  | (Fulfilled a, s') => k a s'
  | (Rejected error, s') => (Rejected error, s')
  | (NeverSettles, s') => (NeverSettles, s')
  end.

Definition try_catch {A} (body : V A) (handler : string → V A) : V A := λ s,
  match body s with
  | (Rejected error, s') => handler error s'
  | settled => settled
  end.

Definition lift {A} (c : Completion A) : V A := λ s,
  match c with
  | Normal a => (Fulfilled a, s)
  | Throw error => (Rejected error, s)
  end.

Definition console_write (line : string) (s : Service) : Service :=
  mkService (smartAccount s) (cdpClient s) (networkId s) (storageDir s)
            (files s) (reads s) (console s ++ [line]).

Definition record (r : Read) (s : Service) : Service :=
  mkService (smartAccount s) (cdpClient s) (networkId s) (storageDir s)
            (files s) (reads s ++ [r]) (console s).

(** The text [data] becomes the content of [file]. *)
Definition write_file (file data : string) (s : Service) : Service :=
  mkService (smartAccount s) (cdpClient s) (networkId s) (storageDir s)
            (<[file := data]> (files s)) (reads s) (console s).

(** [await] of a request to a collaborator. *)
Definition await {A} (r : Read) (p : Promise A) : V A := λ s, (p, record r s).

(** [Promise.all] of two promises. When both reject, the rejection of the
    first is the one taken here. *)
Definition all2 {A B} (p : Promise A) (q : Promise B) : Promise (A * B) :=
  match p, q with
  | Fulfilled a, Fulfilled b => Fulfilled (a, b)
  | Rejected error, _ => Rejected error
  | _, Rejected error => Rejected error
  | _, _ => NeverSettles
  end.

(** *** [FileStorageProvider] *)

(** The path is built from the user id as it comes: nothing normalises or
    checks the id. *)
Definition localFilePath (s : Service) (userId : string) : string :=
  storageDir s +:+ "/" +:+ userId +:+ ".json".

Definition getWalletData (platform : Platform) (userId : string)
    : V (option SmartWalletState) := λ s,
  match files s !! resolve platform (localFilePath s userId) with
  | Some data =>
      match JSON_parse platform data with
      | Normal state => (Fulfilled state, s)
      | Throw error =>
          (Fulfilled None,
           console_write ("Could not read wallet data from file: " +:+ error)
             s)
      end
  | None => (Fulfilled None, s)
  end.

Definition saveWalletData (platform : Platform) (userId : string)
    (data : SmartWalletState) : V unit := λ s,
  let path := localFilePath s userId in
  match writeFileSync_error platform path with
  | None =>
      (Fulfilled tt,
       write_file (resolve platform path) (JSON_stringify platform data) s)
  | Some error =>
      (Rejected ("Failed to save wallet data: " +:+ error),
       console_write ("Failed to save wallet data: " +:+ error) s)
  end.

(** *** The state functions of [SmartWalletService] *)

Definition getAddress (s : Service) : Completion string :=
  match smartAccount s with
  | None => Throw "Smart wallet not initialized"
  | Some account => Normal account
  end.

Definition getTokenBalance (chain : Chain) (tokenAddress : string)
    : V (option TokenBalance) := λ s,
  match smartAccount s with
  | None => (Rejected "Smart wallet not initialized", s)
  | Some account =>
      try_catch
        (bind (await (ReadContract tokenAddress "balanceOf" [account])
                 (balanceOf chain tokenAddress account))
           (λ balanceResult,
        bind (λ s,
                (all2 (read_decimals chain tokenAddress)
                      (read_symbol chain tokenAddress),
                 record (ReadContract tokenAddress "symbol" [])
                   (record (ReadContract tokenAddress "decimals" []) s)))
           (λ '(decimals, symbol),
        let balance := Units.toString balanceResult in
        bind (lift (Units.BigInt balance))
           (λ raw,
        ret (Some (mkTokenBalance tokenAddress symbol
                     (String.string_of_list_ascii balance) decimals
                     (Units.formatUnits raw decimals)))))))
        (λ _ s,
           (Fulfilled None,
            console_write
              ("Failed to get token balance for " +:+ tokenAddress +:+ ":")
              s))
        s
  end.

Definition history_item (tx : ProviderTransaction) : TransactionHistoryItem :=
  mkHistoryItem (tx_hash tx) (tx_timestamp tx) (tx_from tx) (tx_to tx)
                (tx_value tx) (tx_status tx) (tx_methodName tx)
                (tx_blockNumber tx).

Definition getTransactionHistory (chain : Chain) (limit : Z)
    : V (list TransactionHistoryItem) := λ s,
  match smartAccount s with
  | None => (Rejected "Smart wallet not initialized", s)
  | Some account =>
      try_catch
        (bind (if cdpClient s then
                 await (GetTransactionHistory (networkId s) account limit)
                   (cdp_getTransactionHistory chain (networkId s) account
                      limit)
               else
                 lift (Throw "TypeError: Cannot read properties of undefined"))
           (λ response,
              match response with
              | Transactions txs => ret (history_item <$> txs)
              | NoResponse | NoTransactions => ret []
              end))
        (λ _ s,
           (Fulfilled [], console_write "Failed to get transaction history:" s))
        s
  end.

(** An [await] inside the [try] of [refreshWalletState]: a rejection goes to
    the [catch], which returns the [state] object as it is at that point. *)
Definition or_return {A} (state : SmartWalletState) (m : V A)
    (k : A → V SmartWalletState) : V SmartWalletState :=
  bind (try_catch (bind m (λ a, ret (Some a)))
          (λ _ s,
             (Fulfilled None,
              console_write "Failed to refresh wallet state:" s)))
       (λ settled,
          match settled with
          | Some a => k a
          | None => ret state
          end).

Definition initial_state (account : string) (now : Z) : SmartWalletState :=
  mkWalletState account true "0" [] [] now.

(** The [try] block of [refreshWalletState], entered with the [state]
    object to update. [now'] is the clock after the three reads. *)
Definition refresh_try (chain : Chain) (platform : Platform) (now' : Z)
    (userId account : string) (state : SmartWalletState)
    : V SmartWalletState :=
  or_return state (await (GetBalance account) (getBalance chain account))
    (λ balance,
  let state :=
    mkWalletState (address state) (isInitialized state)
      (String.string_of_list_ascii (Units.toString balance))
      (tokenBalances state) (transactions state) (lastUpdated state) in
  or_return state (getTokenBalance chain USDC_ADDRESS)
    (λ usdcBalance,
  let balances :=
    match usdcBalance with
    | Some usdc => [usdc]
    | None => []
    end in
  or_return state (getTransactionHistory chain 10)
    (λ history,
  let state :=
    mkWalletState (address state) (isInitialized state)
      (nativeBalance state) balances history now' in
  or_return state (saveWalletData platform userId state)
    (λ _, ret state)))).

(** [refreshWalletState(userId, baseState)]. [now] is the clock when the
    default state is built. *)
Definition refreshWalletState (chain : Chain) (platform : Platform)
    (now now' : Z) (userId : string) (baseState : option SmartWalletState)
    : V SmartWalletState := λ s,
  match smartAccount s with
  | None => (Rejected "Smart wallet not initialized", s)
  | Some account =>
      bind (match baseState with
            | Some state => ret state
            | None =>
                bind (getWalletData platform userId)
                  (λ stored, ret (default (initial_state account now) stored))
            end)
        (refresh_try chain platform now' userId account) s
  end.

(** [getOrCreateWalletState(userId)]. [now] is the clock of this function,
    [now1] and [now2] are the two clocks of [refreshWalletState]. *)
Definition getOrCreateWalletState (chain : Chain) (platform : Platform)
    (now now1 now2 : Z) (userId : string) : V SmartWalletState := λ s,
  match smartAccount s with
  | None => (Rejected "Smart wallet not initialized", s)
  | Some account =>
      bind (getWalletData platform userId)
        (λ existingData,
           match existingData with
           | Some existing =>
               let fiveMinutesAgo := now - 5 * 60 * 1000 in
               if decide (lastUpdated existing < fiveMinutesAgo) then
                 refreshWalletState chain platform now1 now2 userId None
               else ret existing
           | None =>
               refreshWalletState chain platform now1 now2 userId
                 (Some (initial_state account now))
           end) s
  end.

(** What a call that only asks and prints leaves alone: the account, the
    configuration and the files. *)
Definition only_asks (s s' : Service) : Prop :=
  smartAccount s' = smartAccount s ∧ cdpClient s' = cdpClient s ∧
  networkId s' = networkId s ∧ storageDir s' = storageDir s ∧
  files s' = files s.

(** The state a refresh starts from. *)
Definition starting_state (account : string) (now : Z)
    (baseState stored : option SmartWalletState) : SmartWalletState :=
  match baseState with
  | Some state => state
  | None => default (initial_state account now) stored
  end.

(** *** Sample collaborators *)

Definition sample_account : string :=
  "0x1111111111111111111111111111111111111111".

(** A chain on which the account holds 1.5 USDC and 2 wei. *)
Definition sample_chain : Chain :=
  mkChain (λ _, Fulfilled 2) (λ _ _, Fulfilled 1500000) (λ _, Fulfilled 6%nat)
          (λ _, Fulfilled "USDC") (λ _ _ _, Fulfilled (Transactions [])).

(** A chain whose node is unreachable. *)
Definition chain_down : Chain :=
  mkChain (λ _, Rejected "HttpRequestError")
          (λ _ _, Rejected "HttpRequestError")
          (λ _, Rejected "HttpRequestError")
          (λ _, Rejected "HttpRequestError")
          (λ _ _ _, Rejected "HttpRequestError").

Definition sample_state (native : string) (updated : Z) : SmartWalletState :=
  mkWalletState sample_account true native [] [] updated.

(** The segments of a path between its slashes. *)
Fixpoint path_segments (path segment : string) : list string :=
  match path with
  | EmptyString => [segment]
  | String c rest =>
      if decide (c = "/"%char) then segment :: path_segments rest ""
      else path_segments rest (segment +:+ String c "")
  end.

Definition fold_segment (stack : list string) (segment : string)
    : list string :=
  if decide (segment = "" ∨ segment = ".") then stack
  else if decide (segment = "..") then
    match last stack with
    | Some top => if decide (top = "..") then stack ++ [".."]
                  else removelast stack
    | None => [".."]
    end
  else stack ++ [segment].

(** A resolver for the worked instances: relative paths under one working
    directory without links, with empty, [.] and [..] segments folded. *)
Definition normalize (path : string) : string :=
  String.concat "/" (foldl fold_segment [] (path_segments path "")).

(** A toy platform, enough to run the examples: the file holds the native
    balance, everything else is that of [sample_state] at time [t]; paths
    are resolved by [normalize]. *)
Definition sample_platform (t : Z) (write_error : option string) : Platform :=
  mkPlatform nativeBalance (λ data, Normal (Some (sample_state data t)))
             normalize (λ _, write_error).

Definition ready_service (files : gmap string string) : Service :=
  mkService (Some sample_account) true "base-mainnet" ".data/wallet" files
            [] [].

End WalletView.

(** * The decimal round trip *)

Section DecimalRoundTrip.
Import Units.
Local Open Scope list_scope.

Lemma is_digit_range c :
  is_digit c = true → (48 ≤ nat_of_ascii c ≤ 57)%nat.
Proof.
  unfold is_digit. intros H. apply andb_true_iff in H as [H1 H2].
  apply Nat.leb_le in H1, H2. lia.
Qed.

Lemma digit_value_range c : is_digit c = true → 0 ≤ digit_value c ≤ 9.
Proof. intros H%is_digit_range. unfold digit_value. lia. Qed.

Lemma digit_char_value c : is_digit c = true → digit_char (digit_value c) = c.
Proof.
  intros H%is_digit_range. unfold digit_char, digit_value.
  replace (Z.to_nat (Z.of_nat (nat_of_ascii c - 48)) + 48)%nat
    with (nat_of_ascii c) by lia.
  apply ascii_nat_embedding.
Qed.

Lemma is_digit_zero_value c :
  is_digit c = true → digit_value c = 0 → c = zero_char.
Proof.
  intros Hd Hv. rewrite <- (digit_char_value c Hd), Hv. reflexivity.
Qed.

Lemma all_digits_cons c s :
  all_digits (c :: s) ↔ is_digit c = true ∧ all_digits s.
Proof. unfold all_digits. simpl. apply andb_true_iff. Qed.

Lemma all_digits_app a b : all_digits (a ++ b) ↔ all_digits a ∧ all_digits b.
Proof.
  unfold all_digits. rewrite forallb_app. apply andb_true_iff.
Qed.

Lemma all_digits_replicate n : all_digits (replicate n zero_char).
Proof. induction n; [done|]. apply all_digits_cons. done. Qed.

(** **** Reading digits *)

Lemma fold_digits_app acc s :
  fold_left (λ acc c, acc * 10 + digit_value c) s acc =
  acc * 10 ^ Z.of_nat (length s) + digits_value s.
Proof.
  unfold digits_value. revert acc.
  induction s as [|c s IH]; intros acc; simpl fold_left.
  - simpl. lia.
  - rewrite IH, (IH (0 * 10 + digit_value c)).
    replace (Z.of_nat (length (c :: s))) with (Z.succ (Z.of_nat (length s)))
      by (simpl; lia).
    rewrite Z.pow_succ_r by lia. lia.
Qed.

Lemma digits_value_cons c s :
  digits_value (c :: s) =
  digit_value c * 10 ^ Z.of_nat (length s) + digits_value s.
Proof.
  unfold digits_value at 1. simpl. rewrite fold_digits_app. lia.
Qed.

Lemma digits_value_app a b :
  digits_value (a ++ b) =
  digits_value a * 10 ^ Z.of_nat (length b) + digits_value b.
Proof.
  unfold digits_value at 1. rewrite fold_left_app.
  apply fold_digits_app.
Qed.

Lemma digits_value_snoc a c :
  digits_value (a ++ [c]) = digits_value a * 10 + digit_value c.
Proof.
  rewrite digits_value_app. simpl.
  unfold digits_value at 2. simpl. lia.
Qed.

Lemma digits_value_bounds s :
  all_digits s → 0 ≤ digits_value s < 10 ^ Z.of_nat (length s).
Proof.
  induction s as [|c s IH]; intros H.
  - unfold digits_value. simpl. lia.
  - apply all_digits_cons in H as [Hc Hs].
    specialize (IH Hs). apply digit_value_range in Hc.
    rewrite digits_value_cons.
    replace (Z.of_nat (length (c :: s))) with (Z.succ (Z.of_nat (length s)))
      by (simpl; lia).
    rewrite Z.pow_succ_r by lia. nia.
Qed.

Lemma digits_value_zeros n : digits_value (replicate n zero_char) = 0.
Proof.
  induction n as [|n IH]; [done|].
  simpl replicate. rewrite digits_value_cons, IH. reflexivity.
Qed.

(** **** Leading zeros *)

Lemma strip_leading_zeros_value s :
  digits_value (strip_leading_zeros s) = digits_value s.
Proof.
  induction s as [|c s IH]; [done|]. simpl.
  case_decide as Hc; [|done]. subst c.
  rewrite IH, digits_value_cons. reflexivity.
Qed.

Lemma strip_leading_zeros_digits s :
  all_digits s → all_digits (strip_leading_zeros s).
Proof.
  induction s as [|c s IH]; [done|]. intros H. simpl.
  case_decide; [|done]. apply all_digits_cons in H as [_ H]. auto.
Qed.

Lemma strip_leading_zeros_head s c r :
  strip_leading_zeros s = c :: r → c ≠ zero_char.
Proof.
  induction s as [|c' s IH]; [done|]. simpl.
  case_decide; [done|]. congruence.
Qed.

Lemma strip_leading_zeros_nil s :
  all_digits s → digits_value s = 0 → strip_leading_zeros s = [].
Proof.
  induction s as [|c s IH]; [done|]. intros H Hv.
  apply all_digits_cons in H as [Hc Hs]. rewrite digits_value_cons in Hv.
  pose proof (digits_value_bounds s Hs). pose proof (digit_value_range c Hc).
  assert (digit_value c = 0) as Hc0 by nia.
  simpl. rewrite decide_True by (by apply is_digit_zero_value).
  apply IH; [done|]. rewrite Hc0 in Hv. lia.
Qed.

Lemma strip_leading_zeros_positive s :
  all_digits s → 0 < digits_value s → strip_leading_zeros s ≠ [].
Proof.
  intros _ Hv Hnil. rewrite <- strip_leading_zeros_value, Hnil in Hv.
  unfold digits_value in Hv. simpl in Hv. lia.
Qed.

Lemma strip_leading_zeros_app a b :
  strip_leading_zeros a ≠ [] →
  strip_leading_zeros (a ++ b) = strip_leading_zeros a ++ b.
Proof.
  induction a as [|c a IH]; [done|]. simpl.
  case_decide; [apply IH|done].
Qed.

Lemma strip_leading_zeros_app_nil a b :
  strip_leading_zeros a = [] →
  strip_leading_zeros (a ++ b) = strip_leading_zeros b.
Proof.
  induction a as [|c a IH]; [done|]. simpl.
  case_decide; [apply IH|done].
Qed.

Lemma strip_leading_zeros_lower_bound s c r :
  all_digits s → strip_leading_zeros s = c :: r →
  10 ^ Z.of_nat (length r) ≤ digits_value s.
Proof.
  intros Hs Hstrip.
  pose proof (strip_leading_zeros_digits s Hs) as Hd. rewrite Hstrip in Hd.
  apply all_digits_cons in Hd as [Hc Hr].
  rewrite <- strip_leading_zeros_value, Hstrip, digits_value_cons.
  pose proof (digits_value_bounds r Hr).
  pose proof (digit_value_range c Hc).
  assert (digit_value c ≠ 0) as Hne.
  { intros Hzero. apply (strip_leading_zeros_head s c r Hstrip).
    by apply is_digit_zero_value. }
  nia.
Qed.

Lemma strip_leading_zeros_pad n s :
  strip_leading_zeros (replicate n zero_char ++ s) = strip_leading_zeros s.
Proof.
  induction n as [|n IH]; [done|].
  cbn [replicate app strip_leading_zeros]. by rewrite decide_True.
Qed.

Lemma strip_leading_zeros_length s :
  (length (strip_leading_zeros s) ≤ length s)%nat.
Proof.
  induction s as [|c s IH]; [done|]. simpl.
  case_decide; simpl; lia.
Qed.

(** Padding a stripped digit string back to its width restores it. *)
Lemma padStart_strip s :
  all_digits s → padStart (length s) (strip_leading_zeros s) = s.
Proof.
  unfold padStart. induction s as [|c s IH]; [done|]. intros H.
  apply all_digits_cons in H as [Hc Hs]. simpl strip_leading_zeros.
  case_decide as Hz.
  - subst c. pose proof (strip_leading_zeros_length s).
    replace (length (zero_char :: s) - length (strip_leading_zeros s))%nat
      with (S (length s - length (strip_leading_zeros s))) by (simpl; lia).
    simpl. f_equal. by apply IH.
  - by rewrite Nat.sub_diag.
Qed.

(** **** Writing digits *)

Lemma digits_of_canonical fuel s :
  all_digits s →
  (1 ≤ fuel)%nat → (length (strip_leading_zeros s) ≤ fuel)%nat →
  digits_of fuel (digits_value s) = canonical_integer s.
Proof.
  revert s. induction fuel as [|fuel IH]; intros s Hs Hfuel Hlen; [lia|].
  destruct s as [|c0 s0] using rev_ind; [done|]. clear IHs0.
  simpl digits_of.
  apply all_digits_app in Hs as [Hs Hc].
  apply all_digits_cons in Hc as [Hc _].
  pose proof (digit_value_range c0 Hc) as Hrange.
  pose proof (digits_value_bounds s0 Hs) as Hbound.
  rewrite digits_value_snoc.
  destruct (decide (digits_value s0 = 0)) as [Hz|Hnz].
  - rewrite Hz. replace (0 * 10 + digit_value c0) with (digit_value c0) by lia.
    destruct (Z.ltb_spec (digit_value c0) 10); [|lia].
    rewrite digit_char_value by done.
    unfold canonical_integer.
    rewrite strip_leading_zeros_app_nil
      by (by apply strip_leading_zeros_nil).
    simpl. case_decide; [by subst|done].
  - destruct (Z.ltb_spec (digits_value s0 * 10 + digit_value c0) 10); [lia|].
    replace ((digits_value s0 * 10 + digit_value c0) `div` 10)
      with (digits_value s0)
      by (apply Z.div_unique with (digit_value c0); lia).
    replace ((digits_value s0 * 10 + digit_value c0) `mod` 10)
      with (digit_value c0)
      by (apply Z.mod_unique with (digits_value s0); lia).
    rewrite digit_char_value by done.
    assert (strip_leading_zeros s0 ≠ []) as Hne
      by (apply strip_leading_zeros_positive; [done|lia]).
    rewrite strip_leading_zeros_app in Hlen by done.
    rewrite length_app in Hlen. simpl in Hlen.
    assert (1 ≤ length (strip_leading_zeros s0))%nat
      by (destruct (strip_leading_zeros s0); [done|simpl; lia]).
    rewrite IH by (try done; lia).
    unfold canonical_integer. rewrite strip_leading_zeros_app by done.
    destruct (strip_leading_zeros s0); done.
Qed.

(** [toString] of the value of a digit string is that string without its
    leading zeros. *)
Lemma toString_digits_value s :
  all_digits s → toString (digits_value s) = canonical_integer s.
Proof.
  intros Hs. pose proof (digits_value_bounds s Hs) as Hb.
  unfold toString. destruct (Z.ltb_spec (digits_value s) 0); [lia|].
  apply digits_of_canonical; [done|lia|].
  destruct (strip_leading_zeros s) as [|c r] eqn:Hstrip; [simpl; lia|].
  pose proof (strip_leading_zeros_lower_bound s c r Hs Hstrip) as Hlow.
  simpl length.
  assert (Z.of_nat (length r) ≤ Z.log2 (digits_value s)); [|lia].
  apply Z.log2_le_pow2; [lia|].
  etrans; [|exact Hlow].
  apply Z.pow_le_mono_l. lia.
Qed.

(** **** Trailing zeros *)

Lemma trim_trailing_zeros_zeros n :
  trim_trailing_zeros (replicate n zero_char) = [].
Proof. induction n as [|n IH]; [done|]. simpl. by rewrite IH. Qed.

Lemma trim_trailing_zeros_app_zeros s n :
  trim_trailing_zeros (s ++ replicate n zero_char) = trim_trailing_zeros s.
Proof.
  induction s as [|c s IH]; simpl.
  - apply trim_trailing_zeros_zeros.
  - by rewrite IH.
Qed.

Lemma trim_trailing_zeros_split s :
  ∃ k, s = trim_trailing_zeros s ++ replicate k zero_char.
Proof.
  induction s as [|c s [k IH]]; [by exists 0%nat|]. simpl.
  destruct (trim_trailing_zeros s) as [|c' r].
  - simpl in IH. case_decide as Hc.
    + exists (S k). subst c. simpl. by f_equal.
    + exists k. simpl. by f_equal.
  - exists k. simpl. f_equal. exact IH.
Qed.

Lemma trim_trailing_zeros_idemp s :
  trim_trailing_zeros (trim_trailing_zeros s) = trim_trailing_zeros s.
Proof.
  destruct (trim_trailing_zeros_split s) as [k Hk].
  rewrite Hk at 2. by rewrite trim_trailing_zeros_app_zeros.
Qed.

Lemma trim_trailing_zeros_digits s :
  all_digits s → all_digits (trim_trailing_zeros s).
Proof.
  intros H. destruct (trim_trailing_zeros_split s) as [k Hk].
  rewrite Hk in H. by apply all_digits_app in H as [H _].
Qed.

Lemma trim_trailing_zeros_length s :
  (length (trim_trailing_zeros s) ≤ length s)%nat.
Proof.
  destruct (trim_trailing_zeros_split s) as [k Hk].
  rewrite Hk at 2. rewrite length_app. lia.
Qed.

(** Padding the trimmed fraction to the precision scales its value. *)
Lemma padEnd_value s d :
  (length s ≤ d)%nat →
  digits_value (padEnd d (trim_trailing_zeros s)) =
  digits_value s * 10 ^ Z.of_nat (d - length s).
Proof.
  intros Hlen. destruct (trim_trailing_zeros_split s) as [k Hk].
  set (t := trim_trailing_zeros s) in *.
  assert (length s = length t + k)%nat as Hl
    by (rewrite Hk at 1; by rewrite length_app, length_replicate).
  unfold padEnd. rewrite digits_value_app, digits_value_zeros.
  rewrite length_replicate.
  rewrite Hk at 1. rewrite digits_value_app, digits_value_zeros.
  rewrite length_replicate.
  replace (d - length t)%nat with (k + (d - length s))%nat by lia.
  rewrite Nat2Z.inj_add, Z.pow_add_r by lia. lia.
Qed.

Lemma padEnd_length s d : (length s ≤ d)%nat → length (padEnd d s) = d.
Proof.
  intros H. unfold padEnd. rewrite length_app, length_replicate. lia.
Qed.

(** **** The pieces of a numeral *)

Lemma is_digit_not_dot c : is_digit c = true → c ≠ dot_char.
Proof. intros H ->. done. Qed.

Lemma is_digit_not_minus c : is_digit c = true → c ≠ minus_char.
Proof. intros H ->. done. Qed.

Lemma split_digits s : all_digits s → split dot_char s = [s].
Proof.
  induction s as [|c s IH]; [done|]. intros H.
  apply all_digits_cons in H as [Hc Hs]. simpl.
  rewrite decide_False by (by apply is_digit_not_dot).
  by rewrite IH.
Qed.

Lemma split_numeral i f :
  all_digits i → all_digits f → split dot_char (i ++ dot_char :: f) = [i; f].
Proof.
  intros Hi Hf. induction i as [|c i IH].
  - simpl. by rewrite split_digits.
  - apply all_digits_cons in Hi as [Hc Hi]. simpl.
    rewrite decide_False by (by apply is_digit_not_dot).
    by rewrite IH.
Qed.

Lemma digits_then_optional_fraction_numeral i fraction :
  all_digits i → all_digits (fraction_digits fraction) →
  digits_then_optional_fraction (numeral i fraction) = true.
Proof.
  intros Hi Hf. induction i as [|c i IH].
  - destruct fraction as [f|]; [|done]. exact Hf.
  - apply all_digits_cons in Hi as [Hc Hi].
    destruct fraction as [f|]; simpl in *; rewrite Hc; auto.
Qed.

Lemma matches_decimal_numeral i fraction :
  all_digits i → all_digits (fraction_digits fraction) →
  matches_decimal (numeral i fraction) = true.
Proof.
  intros Hi Hf.
  pose proof (digits_then_optional_fraction_numeral i fraction Hi Hf) as H.
  unfold matches_decimal.
  destruct (numeral i fraction) as [|c r] eqn:Hn; [done|].
  rewrite decide_False; [done|].
  destruct i as [|c' i].
  - destruct fraction as [f|]; simpl in Hn; [|done]. by inversion Hn.
  - apply all_digits_cons in Hi as [Hc _].
    assert (c = c') as -> by (destruct fraction; simpl in Hn; congruence).
    by apply is_digit_not_minus.
Qed.

Lemma head_digits_not_minus s :
  all_digits s → bool_decide (head s = Some minus_char) = false.
Proof.
  intros H. apply bool_decide_eq_false_2. destruct s as [|c s]; [done|].
  apply all_digits_cons in H as [Hc _]. simpl. intros [= ->]. done.
Qed.

Lemma BigInt_digits s : all_digits s → BigInt s = Normal (digits_value s).
Proof.
  intros H. destruct s as [|c s]; [done|]. unfold BigInt.
  pose proof H as [Hc _]%all_digits_cons.
  rewrite decide_False by (by apply is_digit_not_minus).
  unfold all_digits in H. by rewrite H.
Qed.

(** **** Encoding *)

(** What [parseUnits] hands to [BigInt] for a numeral whose fraction fits
    the precision: the integer digits followed by the fraction padded to
    [decimals] digits. *)
Lemma parseUnits_chars_numeral i fraction d :
  all_digits i → all_digits (fraction_digits fraction) →
  (length (fraction_digits fraction) ≤ d)%nat →
  parseUnits_chars (numeral i fraction) d =
    Normal (digits_value
              (i ++ padEnd d (trim_trailing_zeros (fraction_digits fraction)))).
Proof.
  intros Hi Hf Hlen. unfold parseUnits_chars.
  rewrite matches_decimal_numeral by done. simpl negb. cbv iota.
  assert (split dot_char (numeral i fraction) =
          i :: match fraction with Some f => [f] | None => [] end) as ->.
  { destruct fraction as [f|]; simpl;
      [by apply split_numeral|by apply split_digits]. }
  assert (trim_trailing_zeros
            (default [zero_char]
               ((i :: match fraction with Some f => [f] | None => [] end)
                  !! 1%nat))
          = trim_trailing_zeros (fraction_digits fraction)) as Htrim
    by (by destruct fraction).
  cbv zeta. rewrite Htrim. clear Htrim.
  simpl default. rewrite head_digits_not_minus by done.
  set (f := trim_trailing_zeros (fraction_digits fraction)).
  pose proof (trim_trailing_zeros_length (fraction_digits fraction)) as Hle.
  fold f in Hle.
  assert (all_digits f) as Hfd by (by apply trim_trailing_zeros_digits).
  destruct (decide (d = 0%nat)) as [->|Hd].
  - assert (f = []) as -> by (destruct f; [done|simpl in Hle; lia]).
    simpl. rewrite app_nil_r. unfold padEnd. simpl. rewrite app_nil_r.
    by apply BigInt_digits.
  - rewrite decide_False by lia. simpl app.
    apply BigInt_digits. apply all_digits_app. split; [done|].
    unfold padEnd. apply all_digits_app. split; [done|].
    apply all_digits_replicate.
Qed.

Lemma scaled_value i f d :
  (length f ≤ d)%nat →
  digits_value (i ++ padEnd d (trim_trailing_zeros f)) =
  digits_value i * 10 ^ Z.of_nat d +
  digits_value f * 10 ^ Z.of_nat (d - length f).
Proof.
  intros Hlen. rewrite digits_value_app, padEnd_value by done.
  rewrite padEnd_length; [done|].
  pose proof (trim_trailing_zeros_length f). lia.
Qed.

(** **** Decoding *)

Lemma replicate_zero_snoc n :
  replicate n zero_char ++ [zero_char] = replicate (S n) zero_char.
Proof. induction n as [|n IH]; [done|]. simpl. by rewrite IH. Qed.

(** The padded display splits into the integer part, possibly empty, and
    the fraction at full width. *)
Lemma display_split i fz :
  all_digits i → all_digits fz →
  ∃ j,
    padStart (length fz) (canonical_integer (i ++ fz)) = j ++ fz ∧
    (if decide (j = []) then [zero_char] else j) = canonical_integer i.
Proof.
  intros Hi Hfz. unfold canonical_integer.
  destruct (strip_leading_zeros i) as [|c r] eqn:Hstrip.
  - rewrite strip_leading_zeros_app_nil by done.
    destruct (strip_leading_zeros fz) as [|c' r'] eqn:Hfstrip.
    + pose proof (padStart_strip fz Hfz) as Hpad.
      rewrite Hfstrip in Hpad. unfold padStart in Hpad.
      rewrite Nat.sub_0_r, app_nil_r in Hpad.
      destruct fz as [|c0 fz0].
      * exists [zero_char]. done.
      * exists []. split; [|done]. unfold padStart.
        simpl length. replace (S (length fz0) - 1)%nat with (length fz0)
          by lia.
        rewrite replicate_zero_snoc. exact Hpad.
    + exists []. split; [|done]. rewrite <- Hfstrip.
      by apply padStart_strip.
  - rewrite strip_leading_zeros_app by (by rewrite Hstrip).
    rewrite Hstrip. exists (c :: r). split; [|done].
    unfold padStart. simpl. rewrite length_app.
    replace (length fz - S (length r + length fz))%nat with 0%nat by lia.
    done.
Qed.

Lemma canonical_integer_digits s :
  all_digits s → all_digits (canonical_integer s).
Proof.
  intros H. unfold canonical_integer.
  pose proof (strip_leading_zeros_digits s H).
  by destruct (strip_leading_zeros s).
Qed.

Lemma formatUnits_chars_digits i fz :
  all_digits i → all_digits fz →
  formatUnits_chars (digits_value (i ++ fz)) (length fz) =
  canonical_integer i ++ canonical_fraction fz.
Proof.
  intros Hi Hfz. unfold formatUnits_chars.
  assert (all_digits (i ++ fz)) as Hall by (by apply all_digits_app).
  rewrite toString_digits_value by done.
  rewrite head_digits_not_minus by (by apply canonical_integer_digits).
  destruct (display_split i fz Hi Hfz) as (j & -> & Hj).
  rewrite length_app.
  replace (length j + length fz - length fz)%nat with (length j) by lia.
  unfold slice, slice_from. rewrite drop_0, Nat.sub_0_r.
  rewrite take_app_length, drop_app_length. simpl app.
  f_equal; [exact Hj|]. unfold canonical_fraction.
  destruct (trim_trailing_zeros fz); done.
Qed.

(** **** The round trip *)

Lemma canonical_integer_value s :
  digits_value (canonical_integer s) = digits_value s.
Proof.
  unfold canonical_integer.
  rewrite <- (strip_leading_zeros_value s).
  by destruct (strip_leading_zeros s).
Qed.

Lemma canonical_numeral i f :
  canonical_integer i ++ canonical_fraction f =
  numeral (canonical_integer i)
    (match trim_trailing_zeros f with
     | [] => None
     | r => Some r
     end).
Proof.
  unfold canonical_fraction.
  destruct (trim_trailing_zeros f); simpl; [by rewrite app_nil_r|done].
Qed.

(** A numeral is read back into its parts in one way only. *)
Lemma numeral_inj i1 o1 i2 o2 :
  all_digits i1 → all_digits (fraction_digits o1) →
  all_digits i2 → all_digits (fraction_digits o2) →
  numeral i1 o1 = numeral i2 o2 → i1 = i2 ∧ o1 = o2.
Proof.
  intros H1 Hf1 H2 Hf2 Heq.
  apply (f_equal (split dot_char)) in Heq.
  destruct o1 as [f1|], o2 as [f2|]; simpl in *;
    rewrite ?split_numeral, ?split_digits in Heq by done;
    by simplify_eq.
Qed.

(** The canonical writing denotes the amount that was written. *)
Lemma canonical_same_amount integer fraction :
  same_amount (canonical_integer integer)
    (match trim_trailing_zeros (fraction_digits fraction) with
     | [] => None
     | r => Some r
     end) integer fraction.
Proof.
  unfold same_amount. set (f := fraction_digits fraction).
  assert (fraction_digits
            match trim_trailing_zeros f with
            | [] => None
            | r => Some r
            end = trim_trailing_zeros f) as ->
    by (by destruct (trim_trailing_zeros f)).
  destruct (trim_trailing_zeros_split f) as [k Hk].
  set (t := trim_trailing_zeros f) in *.
  rewrite Hk at 1 2. rewrite !digits_value_app, canonical_integer_value.
  rewrite digits_value_zeros, !length_app, length_replicate.
  rewrite !Nat2Z.inj_add, !Z.pow_add_r by lia. lia.
Qed.

(** C9. Take the amount a user enters as a decimal numeral, integer digits
    and optionally a dot and fraction digits, with no more fraction digits
    than the token's precision [d]. [parseUnits] at precision [d] encodes
    it as the amount scaled by 10^d (so "10.5" at 6 is 10500000).
    [formatUnits] at the same precision decodes these raw units to a
    numeral that denotes the same amount as the one entered, and encoding
    the decoded numeral gives the same raw units again. The decoded
    numeral is the canonical writing of the amount (integer part without
    leading zeros, "0" if nothing is left; fraction without trailing
    zeros, no dot when it vanishes), so it is letter for letter the
    entered string if and only if that was canonical already. *)
Theorem decimal_round_trip (integer : chars) (fraction : option chars)
    (d : nat) :
  all_digits integer →
  all_digits (fraction_digits fraction) →
  (length (fraction_digits fraction) ≤ d)%nat →
  let value := String.string_of_list_ascii (numeral integer fraction) in
  let raw :=
    digits_value integer * 10 ^ Z.of_nat d +
    digits_value (fraction_digits fraction) *
      10 ^ Z.of_nat (d - length (fraction_digits fraction)) in
  let integer' := canonical_integer integer in
  let fraction' :=
    match trim_trailing_zeros (fraction_digits fraction) with
    | [] => None
    | r => Some r
    end in
  parseUnits value d = Normal raw ∧
  raw * 10 ^ Z.of_nat (length (fraction_digits fraction)) =
    digits_value (integer ++ fraction_digits fraction) * 10 ^ Z.of_nat d ∧
  formatUnits raw d =
    String.string_of_list_ascii (numeral integer' fraction') ∧
  all_digits integer' ∧ all_digits (fraction_digits fraction') ∧
  same_amount integer' fraction' integer fraction ∧
  parseUnits (formatUnits raw d) d = Normal raw ∧
  (formatUnits raw d = value ↔ canonical integer fraction).
Proof.
  intros Hi Hf Hlen value raw integer' fraction'.
  set (f := fraction_digits fraction) in *.
  set (fz := padEnd d (trim_trailing_zeros f)).
  pose proof (trim_trailing_zeros_length f) as Htl.
  pose proof (trim_trailing_zeros_digits f Hf) as Htd.
  assert (length fz = d) as Hfz_len by (apply padEnd_length; lia).
  assert (all_digits fz) as Hfz.
  { apply all_digits_app. split; [done|apply all_digits_replicate]. }
  assert (raw = digits_value (integer ++ fz)) as Hraw
    by (symmetry; by apply scaled_value).
  assert (fraction_digits fraction' = trim_trailing_zeros f) as Hfd
    by (unfold fraction'; by destruct (trim_trailing_zeros f)).
  assert (formatUnits_chars raw d = numeral integer' fraction') as Hfmt.
  { rewrite Hraw.
    pose proof (formatUnits_chars_digits integer fz Hi Hfz) as Hfmt.
    rewrite Hfz_len in Hfmt. rewrite Hfmt.
    unfold integer', fraction'. rewrite <- canonical_numeral. f_equal.
    unfold canonical_fraction, fz, padEnd.
    by rewrite trim_trailing_zeros_app_zeros, trim_trailing_zeros_idemp. }
  assert (all_digits integer') as Hi'
    by (by apply canonical_integer_digits).
  split; [|split; [|split; [|split; [|split; [|split; [|split]]]]]].
  - unfold parseUnits, value.
    rewrite String.list_ascii_of_string_of_list_ascii.
    rewrite parseUnits_chars_numeral by done. rewrite Hraw. reflexivity.
  - unfold raw. rewrite digits_value_app.
    assert (10 ^ Z.of_nat d =
            10 ^ Z.of_nat (d - length f) * 10 ^ Z.of_nat (length f)) as ->
      by (rewrite <- Z.pow_add_r by lia; f_equal; lia).
    ring.
  - unfold formatUnits. by rewrite Hfmt.
  - done.
  - by rewrite Hfd.
  - apply canonical_same_amount.
  - unfold formatUnits, parseUnits. rewrite Hfmt.
    rewrite String.list_ascii_of_string_of_list_ascii.
    rewrite parseUnits_chars_numeral;
      rewrite ?Hfd; try done; [|lia].
    f_equal. rewrite trim_trailing_zeros_idemp.
    unfold integer'.
    rewrite !digits_value_app, canonical_integer_value.
    by rewrite Hraw, digits_value_app.
  - unfold formatUnits, value. rewrite Hfmt. split.
    + intros Heq.
      apply (f_equal String.list_ascii_of_string) in Heq.
      rewrite !String.list_ascii_of_string_of_list_ascii in Heq.
      apply numeral_inj in Heq as [Hint Hfrac];
        [|done|by rewrite Hfd|done|done].
      split; [exact Hint|].
      unfold fraction' in Hfrac. fold f in Hfrac.
      destruct fraction as [f0|]; [|done]. simpl in f. subst f.
      destruct (trim_trailing_zeros f0) as [|c r] eqn:Htrim; [done|].
      injection Hfrac as <-. by split.
    + intros [Hci Hcf]. f_equal. unfold integer', fraction'.
      rewrite Hci. unfold f.
      destruct fraction as [f0|]; simpl in *.
      * destruct Hcf as [Hne ->]. by destruct f0.
      * done.
Qed.

(** C9 at work: "10.5" USDC is raw 10500000 at 6 decimals and comes back
    as "10.5". *)
Lemma decimal_round_trip_witness :
  all_digits ["1"; "0"]%char ∧ all_digits ["5"%char] ∧ (1 ≤ 6)%nat ∧
  parseUnits "10.5" 6 = Normal 10500000 ∧
  formatUnits 10500000 6 = "10.5".
Proof.
  split; [reflexivity|]. split; [reflexivity|]. split; [lia|].
  destruct (decimal_round_trip ["1"; "0"]%char (Some ["5"%char]) 6
              eq_refl eq_refl ltac:(simpl; lia))
    as (Hparse & _ & _ & _ & _ & _ & _ & Hback).
  split; [exact Hparse|].
  apply Hback. split; [reflexivity|]. split; [discriminate|reflexivity].
Defined.

(** The spelling is not part of the round trip: "10.50" denotes the amount
    of "10.5", is raw 10500000 at 6 decimals as well, and comes back as
    "10.5". *)
Lemma trailing_zero_is_not_restored :
  String.string_of_list_ascii
    (numeral ["1"; "0"]%char (Some ["5"; "0"]%char)) = "10.50" ∧
  all_digits ["1"; "0"]%char ∧ all_digits ["5"; "0"]%char ∧ (2 ≤ 6)%nat ∧
  parseUnits "10.50" 6 = Normal 10500000 ∧
  formatUnits 10500000 6 = "10.5" ∧
  formatUnits 10500000 6 ≠ "10.50".
Proof.
  split; [reflexivity|]. split; [reflexivity|]. split; [reflexivity|].
  split; [lia|]. split; [by vm_compute|]. split; [by vm_compute|].
  by vm_compute.
Qed.

(** **** The model on known inputs *)

Example parseUnits_integer : parseUnits "42" 6 = Normal 42000000.
Proof. by vm_compute. Qed.
Example parseUnits_negative : parseUnits "-0.5" 6 = Normal (-500000).
Proof. by vm_compute. Qed.
Example parseUnits_bare_dot : parseUnits "." 6 = Normal 0.
Proof. by vm_compute. Qed.
Example parseUnits_rounds_up : parseUnits "1.1234565" 6 = Normal 1123457.
Proof. by vm_compute. Qed.
Example parseUnits_rounds_carry : parseUnits "1.9999999" 6 = Normal 2000000.
Proof. by vm_compute. Qed.
Example parseUnits_no_decimals : parseUnits "1.5" 0 = Normal 2.
Proof. by vm_compute. Qed.
Example parseUnits_rejects :
  parseUnits "1e5" 6 = Throw "InvalidDecimalNumberError".
Proof. by vm_compute. Qed.
Example formatUnits_small : formatUnits 5 6 = "0.000005".
Proof. by vm_compute. Qed.
Example formatUnits_negative : formatUnits (-500000) 6 = "-0.5".
Proof. by vm_compute. Qed.
Example formatUnits_whole : formatUnits 42000000 6 = "42".
Proof. by vm_compute. Qed.
Example formatUnits_no_decimals : formatUnits 17 0 = "17".
Proof. by vm_compute. Qed.

End DecimalRoundTrip.

(** * Properties of the payment gateway *)

Section PaymentGateway.
Import X402.
Local Open Scope list_scope.

Ltac run_monad :=
  repeat (unfold verifyPayment, verification_error,
            create402Response, generatePaymentRequest, uuidv4,
            cleanup_entry, finish,
            try_catch, mbind, mret, M_bind, M_ret, bind, ret, throw,
            do_fetch, response_json, get_state, pending_get, pending_set,
            pending_delete, log, set_pending, send in *; simpl in *).

(** [settlePayment] swallows every failure: it completes normally and
    touches neither the store nor the uuid counter. *)
Lemma settlePayment_total fetch id tx s :
  ∃ entry,
    settlePayment fetch id tx s =
      (Normal tt,
       mkState (facilitatorUrl s) (recipientAddress s) (pendingPayments s)
               (console s ++ [entry]) (sent s ++ [settle_request s id tx])
               (drawn s)) ∧
    entry =
      match fetch (settle_request s id tx) with
      | FetchResponse r =>
          if ok r then PAYMENT_SETTLED id tx
          else SETTLEMENT_FAILED id tx (status r) (statusText r)
      | FetchThrows e => SETTLEMENT_ERROR id tx e
      end.
Proof.
  unfold settle_request, settlePayment. run_monad.
  destruct (fetch _) as [r|e]; simpl.
  - destruct (ok r); simpl; eauto.
  - eauto.
Qed.

(** The call on an id that is not stored. *)
Lemma verifyPayment_unknown fetch now id tx s :
  pendingPayments s !! id = None →
  verifyPayment fetch now id tx s =
    (Normal (mkVerification id tx false "0" (unix_seconds now)),
     mkState (facilitatorUrl s) (recipientAddress s) (pendingPayments s)
       (console s ++ [VERIFICATION_ERROR id tx "Payment not found"])
       (sent s) (drawn s)).
Proof. intros H. run_monad. rewrite H. reflexivity. Qed.

(** The call on a stored id that the facilitator confirms. *)
Lemma verifyPayment_confirmed fetch now id tx s p r body :
  pendingPayments s !! id = Some p →
  fetch (verify_request s id tx p) = FetchResponse r →
  ok r = true →
  json r = JsonValue body →
  r_verified body = Some true →
  let v := mkVerification id tx true (or_string (r_amount body) (amount p))
             (unix_seconds now) in
  let s1 := mkState (facilitatorUrl s) (recipientAddress s)
              (delete id (pendingPayments s))
              (console s ++ [PAYMENT_VERIFIED id tx (v_amount v)
                               (timestamp v)])
              (sent s ++ [verify_request s id tx p]) (drawn s) in
  pendingPayments s1 !! id = None ∧
  verifyPayment fetch now id tx s =
    (Normal v, snd (settlePayment fetch id tx s1)).
Proof.
  intros Hp Hf Hok Hj Hv v s1. split.
  { apply lookup_delete_eq. }
  destruct (settlePayment_total fetch id tx s1) as (entry & Hs & _).
  rewrite Hs. subst s1 v. unfold verify_request in Hf.
  run_monad. rewrite Hp. simpl. rewrite Hf. simpl.
  rewrite Hok. simpl. rewrite Hj. simpl. rewrite Hv. simpl.
  unfold verify_request in Hs. rewrite Hs. reflexivity.
Qed.

(** The call on a stored id that the facilitator does not confirm. *)
Lemma verifyPayment_refused fetch now id tx s p :
  pendingPayments s !! id = Some p →
  facilitator_refuses fetch (verify_request s id tx p) →
  ∃ v entry,
    verifyPayment fetch now id tx s =
      (Normal v,
       mkState (facilitatorUrl s) (recipientAddress s) (pendingPayments s)
               (console s ++ [entry])
               (sent s ++ [verify_request s id tx p]) (drawn s)) ∧
    verified v = false.
Proof.
  intros Hp Hr. unfold facilitator_refuses, verify_request in *.
  run_monad. rewrite Hp. simpl.
  destruct (fetch _) as [r|e]; simpl; [|eauto].
  destruct (ok r); simpl.
  - destruct Hr as [Hr|Hr]; [done|].
    destruct (json r) as [body|e]; simpl; [|eauto].
    rewrite Hr. simpl. eauto.
  - eauto.
Qed.

(** Either the facilitator confirms or it refuses. *)
Lemma facilitator_confirms_or_refuses fetch req :
  facilitator_confirms fetch req ∨ facilitator_refuses fetch req.
Proof.
  unfold facilitator_confirms, facilitator_refuses.
  destruct (fetch req) as [r|e]; [|by right].
  destruct (ok r) eqn:Hok; [|right; by left].
  destruct (json r) as [body|e] eqn:Hj; [|right; by right].
  destruct (r_verified body) as [[]|] eqn:Hv.
  - left. eauto 10.
  - right. by right.
  - right. by right.
Qed.

(** *** The expiry sweep *)

(** The loop, turn by turn: it completes normally, deletes the key of every
    expired entry it meets, logs each one, and touches nothing else. *)
Lemma for_of_cleanup now entries s :
  for_of (cleanup_entry now) entries s =
    (Normal tt,
     mkState (facilitatorUrl s) (recipientAddress s)
       (foldl (λ m e, if bool_decide (deadline e.2 < now)
                      then delete e.1 m else m)
              (pendingPayments s) entries)
       (console s ++ sweep_log now entries) (sent s) (drawn s)).
Proof.
  revert s. induction entries as [|[k p] rest IH]; intros s.
  - simpl. unfold sweep_log. simpl. rewrite app_nil_r. by destruct s.
  - simpl. unfold mbind, M_bind, bind, cleanup_entry.
    unfold sweep_log. simpl.
    destruct (bool_decide (deadline p < now)); run_monad.
    + rewrite IH. simpl. by rewrite <- app_assoc.
    + rewrite IH. reflexivity.
Qed.

Lemma sweep_fold_expired now entries (m : gmap string X402PaymentResponse)
    k p :
  (k, p) ∈ entries → deadline p < now →
  foldl (λ m e, if bool_decide (deadline e.2 < now)
                then delete e.1 m else m) m entries !! k = None.
Proof.
  revert m. induction entries as [|[k' p'] rest IH]; intros m Hin Hlt.
  - by apply not_elem_of_nil in Hin.
  - simpl. apply elem_of_cons in Hin as [Heq|Hin]; [|by apply IH].
    inversion Heq; subst k' p'. rewrite bool_decide_eq_true_2 by done.
    clear. generalize (delete k m), (lookup_delete_eq m k).
    induction rest as [|e rest IH]; intros m' Hm'; [done|].
    simpl. apply IH. destruct (bool_decide _); [|done].
    rewrite lookup_delete. case_decide; done.
Qed.

Lemma sweep_fold_kept now entries (m : gmap string X402PaymentResponse) k :
  (∀ p, (k, p) ∈ entries → ¬ deadline p < now) →
  foldl (λ m e, if bool_decide (deadline e.2 < now)
                then delete e.1 m else m) m entries !! k = m !! k.
Proof.
  revert m. induction entries as [|[k' p'] rest IH]; intros m H; [done|].
  simpl. rewrite IH.
  - destruct (bool_decide (deadline p' < now)) eqn:Hp'; [|done].
    apply bool_decide_eq_true_1 in Hp'.
    apply lookup_delete_ne. intros ->.
    apply (H p'); [apply list_elem_of_here|done].
  - intros p Hin. apply H. by apply list_elem_of_further.
Qed.

(** After the sweep the store is the old one without its expired entries. *)
Lemma cleanup_store now s :
  pendingPayments (snd (cleanupExpiredPayments now s)) =
  filter (λ kp, ¬ expired now kp.2) (pendingPayments s).
Proof.
  unfold cleanupExpiredPayments, mbind, M_bind, bind, get_state. simpl.
  rewrite for_of_cleanup. simpl.
  apply map_eq. intros k. rewrite map_lookup_filter.
  destruct (pendingPayments s !! k) as [p|] eqn:Hk; simpl.
  - destruct (decide (expired now p)) as [He|He].
    + rewrite option_guard_False by (simpl; tauto).
      apply sweep_fold_expired with p; [by apply elem_of_map_to_list|done].
    + rewrite option_guard_True by done.
      rewrite sweep_fold_kept; [done|].
      intros p' Hin Hlt. apply elem_of_map_to_list in Hin.
      rewrite Hk in Hin. inversion Hin; subst. done.
  - rewrite sweep_fold_kept; [done|].
    intros p' Hin _. apply elem_of_map_to_list in Hin. congruence.
Qed.

Lemma sweep_log_nil now entries :
  (∀ e, e ∈ entries → ¬ deadline e.2 < now) → sweep_log now entries = [].
Proof.
  induction entries as [|e rest IH]; intros H; [done|].
  unfold sweep_log. simpl.
  rewrite bool_decide_eq_false_2 by (apply H; apply list_elem_of_here).
  apply IH. intros e' He'. apply H. by apply list_elem_of_further.
Qed.

Lemma cleanup_state now s :
  cleanupExpiredPayments now s =
    (Normal tt,
     mkState (facilitatorUrl s) (recipientAddress s)
       (filter (λ kp, ¬ expired now kp.2) (pendingPayments s))
       (console s ++ sweep_log (unix_seconds now)
                       (map_to_list (pendingPayments s)))
       (sent s) (drawn s)).
Proof.
  pose proof (cleanup_store now s) as Hs. revert Hs.
  unfold cleanupExpiredPayments, mbind, M_bind, bind, get_state. simpl.
  rewrite for_of_cleanup. simpl.
  intros ->. reflexivity.
Qed.

(** A sweep that finds nothing expired leaves the whole state as it is. *)
Lemma cleanup_nothing_expired now s :
  (∀ k p, pendingPayments s !! k = Some p → ¬ expired now p) →
  cleanupExpiredPayments now s = (Normal tt, s).
Proof.
  intros H. rewrite cleanup_state. rewrite sweep_log_nil.
  - rewrite app_nil_r, map_filter_id; [by destruct s|].
    intros k p Hk. simpl. eauto.
  - intros [k p] Hin. apply elem_of_map_to_list in Hin. simpl.
    apply (H k p Hin).
Qed.

(** The sweep's test on the clock reading itself: a deadline, in seconds,
    lies before the second of a millisecond reading exactly when the whole
    deadline second is over at that reading. *)
Lemma expired_iff now p : expired now p ↔ (deadline p + 1) * 1000 ≤ now.
Proof.
  unfold expired, unix_seconds.
  pose proof (Z.div_mod now 1000 ltac:(lia)) as Hdiv.
  pose proof (Z.mod_pos_bound now 1000 ltac:(lia)) as Hmod.
  lia.
Qed.

(** C7. [cleanupExpiredPayments], called at the millisecond clock reading
    [now], completes normally and removes exactly the sessions whose
    deadline has passed: a session with deadline [d] (in seconds) is gone
    when the second [d] is over, that is when [(d + 1) * 1000 <= now], and
    it is kept unchanged as long as [now < (d + 1) * 1000]; ids that were
    not stored stay absent. Running the sweep again with the same clock
    reading changes nothing at all, neither the store nor the console. *)
Theorem cleanupExpiredPayments_exact_idempotent (now : Z) (s : State) :
  let s1 := snd (cleanupExpiredPayments now s) in
  fst (cleanupExpiredPayments now s) = Normal tt ∧
  pendingPayments s1 =
    filter (λ kp, now < (deadline kp.2 + 1) * 1000) (pendingPayments s) ∧
  (∀ id, pendingPayments s1 !! id =
         match pendingPayments s !! id with
         | Some p =>
             if decide ((deadline p + 1) * 1000 ≤ now) then None else Some p
         | None => None
         end) ∧
  cleanupExpiredPayments now s1 = (Normal tt, s1).
Proof.
  intros s1. subst s1. rewrite cleanup_state. simpl.
  split; [done|]. split; [|split].
  - apply map_filter_ext. intros id p _. simpl. rewrite expired_iff. lia.
  - intros id. rewrite map_lookup_filter.
    destruct (pendingPayments s !! id) as [p|]; [|done]. simpl.
    destruct (decide ((deadline p + 1) * 1000 ≤ now)) as [Hover|Hlive].
    + rewrite option_guard_False; [done|]. simpl. rewrite expired_iff. tauto.
    + rewrite option_guard_True; [done|]. simpl. by rewrite expired_iff.
  - apply cleanup_nothing_expired. simpl. intros k p Hk.
    apply map_lookup_filter_Some in Hk as [_ Hk]. done.
Qed.

(** *** Issuing a challenge *)

Section Issue.
Variable uuid_stream : nat → string.
Variable nonce_stream : nat → string.
Hypothesis uuid_unique : ∀ i j, uuid_stream i = uuid_stream j → i = j.

(** The id the generator hands out next is not in the store. *)
Lemma next_uuid_fresh s :
  ids_were_drawn uuid_stream s →
  pendingPayments s !! uuid_stream (drawn s) = None.
Proof.
  intros Hinv. destruct (pendingPayments s !! _) eqn:Hl; [|done].
  destruct (Hinv (uuid_stream (drawn s))) as (i & Hi & Heq); [eauto|].
  apply uuid_unique in Heq. lia.
Qed.

Lemma create402Response_state now scenario s :
  let config := X402_PAYMENT_SCENARIOS scenario in
  let id := uuid_stream (drawn s) in
  let challenge :=
    mkPaymentResponse id (sc_amount config) (sc_currency config)
      (recipientAddress s) (unix_seconds now + 3600)
      (nonce_stream (drawn s)) None in
  snd (create402Response uuid_stream nonce_stream now scenario s) =
    mkState (facilitatorUrl s) (recipientAddress s)
      (<[id := challenge]> (pendingPayments s))
      (console s ++ [PAYMENT_GENERATED scenario id (sc_amount config)
                       (sc_currency config) (sc_description config)
                       (unix_seconds now + 3600)])
      (sent s) (S (drawn s)).
Proof. reflexivity. Qed.

Lemma create402Response_keeps_invariant now scenario s :
  ids_were_drawn uuid_stream s →
  ids_were_drawn uuid_stream
    (snd (create402Response uuid_stream nonce_stream now scenario s)).
Proof.
  intros Hinv id [p Hid]. rewrite create402Response_state in *.
  simpl in *.
  destruct (decide (id = uuid_stream (drawn s))) as [->|Hne].
  - exists (drawn s). split; [lia|done].
  - rewrite lookup_insert_ne in Hid by done.
    destruct (Hinv id) as (i & Hi & Heq); [eauto|].
    exists i. split; [lia|done].
Qed.

End Issue.

Lemma fresh_service_invariant : ids_were_drawn sample_stream fresh_service.
Proof. intros id [p H]. simpl in H. by rewrite lookup_empty in H. Qed.

Lemma sample_stream_unique i j : sample_stream i = sample_stream j → i = j.
Proof. apply pretty_nat_inj. Qed.

Lemma one_challenge_invariant : ids_were_drawn sample_stream one_challenge.
Proof.
  apply create402Response_keeps_invariant, fresh_service_invariant.
Qed.

Lemma one_challenge_lookup :
  pendingPayments one_challenge !! "0" = Some sample_challenge.
Proof. by vm_compute. Qed.



(** *** Verification *)

(** C5. [verifyPayment] always completes normally, whatever the id, the
    transaction reference, the store and the facilitator's behaviour. On an
    id that is not stored (never issued, or already consumed) the result is
    the unverified record, no request is sent and the store is unchanged;
    the same unverified record comes back when the transport to the
    facilitator fails, when the response is not OK and when its body does
    not parse. *)
Theorem verifyPayment_never_throws (fetch : Fetch) (now : Z)
    (id tx : string) (s : State) :
  ∃ v s',
    verifyPayment fetch now id tx s = (Normal v, s') ∧
    v_paymentId v = id ∧ v_transactionHash v = tx ∧
    let unverified := mkVerification id tx false "0" (unix_seconds now) in
    match pendingPayments s !! id with
    | None =>
        v = unverified ∧ pendingPayments s' = pendingPayments s ∧
        sent s' = sent s ∧
        console s' =
          console s ++ [VERIFICATION_ERROR id tx "Payment not found"]
    | Some p =>
        match fetch (verify_request s id tx p) with
        | FetchThrows e =>
            v = unverified ∧
            console s' = console s ++ [VERIFICATION_ERROR id tx e]
        | FetchResponse r =>
            if ok r then
              match json r with
              | JsonThrows e =>
                  v = unverified ∧
                  console s' = console s ++ [VERIFICATION_ERROR id tx e]
              | JsonValue body => verified v = or_false (r_verified body)
              end
            else
              v = unverified ∧
              console s' =
                console s ++
                [VERIFICATION_ERROR id tx
                   ("Verification failed: " +:+ statusText r)]
        end
    end.
Proof.
  destruct (pendingPayments s !! id) as [p|] eqn:Hp.
  - unfold verify_request.
    destruct (fetch _) as [r|e] eqn:Hf.
    + destruct (ok r) eqn:Hok.
      * destruct (json r) as [body|e] eqn:Hj.
        -- destruct (or_false (r_verified body)) eqn:Hv.
           ++ assert (r_verified body = Some true) as Hv'
                by (by destruct (r_verified body) as [[]|]).
              destruct (verifyPayment_confirmed fetch now id tx s p r body)
                as [_ ->]; try done.
              eexists _, _. split; [reflexivity|]. done.
           ++ run_monad. rewrite Hp. simpl. rewrite Hf. simpl.
              rewrite Hok. simpl. rewrite Hj. simpl. rewrite Hv. simpl.
              eexists _, _. split; [reflexivity|]. done.
        -- run_monad. rewrite Hp. simpl. rewrite Hf. simpl.
           rewrite Hok. simpl. rewrite Hj. simpl.
           eexists _, _. split; [reflexivity|]. done.
      * run_monad. rewrite Hp. simpl. rewrite Hf. simpl.
        rewrite Hok. simpl.
        eexists _, _. split; [reflexivity|]. done.
    + run_monad. rewrite Hp. simpl. rewrite Hf. simpl.
      eexists _, _. split; [reflexivity|]. done.
  - rewrite verifyPayment_unknown by done.
    eexists _, _. split; [reflexivity|]. done.
Qed.

(** C4. When the facilitator confirms a stored session, [verifyPayment]
    returns [verified = true] whatever the settle call does afterwards:
    the returned record does not depend on the settle outcome, the session
    stays removed, and the only trace of a failed settlement is one console
    entry ([SETTLEMENT_FAILED] for a non-OK response, [SETTLEMENT_ERROR]
    for a thrown transport error). *)
Theorem settlement_failure_does_not_revert (fetch : Fetch) (now : Z)
    (id tx : string) (s : State) (p : X402PaymentResponse) :
  pendingPayments s !! id = Some p →
  facilitator_confirms fetch (verify_request s id tx p) →
  ∃ v s' amount,
    verifyPayment fetch now id tx s = (Normal v, s') ∧
    v = mkVerification id tx true amount (unix_seconds now) ∧
    pendingPayments s' = delete id (pendingPayments s) ∧
    pendingPayments s' !! id = None ∧
    sent s' =
      sent s ++ [verify_request s id tx p; settle_request s id tx] ∧
    console s' =
      console s ++
      [ PAYMENT_VERIFIED id tx amount (unix_seconds now);
        match fetch (settle_request s id tx) with
        | FetchResponse r =>
            if ok r then PAYMENT_SETTLED id tx
            else SETTLEMENT_FAILED id tx (status r) (statusText r)
        | FetchThrows e => SETTLEMENT_ERROR id tx e
        end ].
Proof.
  intros Hp (r & body & Hf & Hok & Hj & Hv).
  destruct (verifyPayment_confirmed fetch now id tx s p r body)
    as [Hgone ->]; try done.
  match goal with |- context [settlePayment fetch id tx ?s1] =>
    destruct (settlePayment_total fetch id tx s1) as (entry & -> & ->)
  end.
  eexists _, _, _. split; [reflexivity|]. simpl.
  split; [reflexivity|]. split; [done|]. split; [apply lookup_delete_eq|].
  rewrite <- !app_assoc. done.
Qed.

(** C6. When the facilitator does not confirm a stored session (transport
    error, non-OK response, unreadable body, or a body that does not say
    verified), [verifyPayment] returns [verified = false] and leaves the
    store exactly as it was: the session is still pending and its stored
    challenge is the same, so the caller can retry. *)
Theorem failed_verification_keeps_session (fetch : Fetch) (now : Z)
    (id tx : string) (s : State) (p : X402PaymentResponse) :
  pendingPayments s !! id = Some p →
  facilitator_refuses fetch (verify_request s id tx p) →
  ∃ v s',
    verifyPayment fetch now id tx s = (Normal v, s') ∧
    verified v = false ∧
    pendingPayments s' = pendingPayments s ∧
    isPaymentPending id s' = true ∧
    getPendingPayment id s' = Some p.
Proof.
  intros Hp Hr.
  destruct (verifyPayment_refused fetch now id tx s p Hp Hr)
    as (v & entry & -> & Hv).
  eexists _, _. split; [reflexivity|].
  unfold isPaymentPending, getPendingPayment. simpl.
  rewrite Hp. repeat split; try done.
Qed.

(** What any call does to the store and to the uuid counter. *)
Lemma verifyPayment_store fetch now id tx s :
  let s' := snd (verifyPayment fetch now id tx s) in
  drawn s' = drawn s ∧ facilitatorUrl s' = facilitatorUrl s ∧
  (pendingPayments s' = pendingPayments s ∨
   pendingPayments s' = delete id (pendingPayments s)).
Proof.
  destruct (pendingPayments s !! id) as [p|] eqn:Hp.
  - destruct (facilitator_confirms_or_refuses fetch
                (verify_request s id tx p)) as [Hc|Hr].
    + destruct Hc as (r & body & Hf & Hok & Hj & Hv).
      destruct (verifyPayment_confirmed fetch now id tx s p r body)
        as [_ Heq']; try done.
      rewrite Heq'. simpl.
      match goal with |- context [settlePayment fetch id tx ?s1] =>
        destruct (settlePayment_total fetch id tx s1) as (entry & -> & _)
      end.
      simpl. auto.
    + destruct (verifyPayment_refused fetch now id tx s p Hp Hr)
        as (v & entry & -> & _). simpl. auto.
  - rewrite verifyPayment_unknown by done. simpl. auto.
Qed.

Lemma set_deadline_absent id d s :
  pendingPayments s !! id = None → set_deadline id d s = s.
Proof.
  intros H. unfold set_deadline, set_pending. destruct s; simpl in *.
  f_equal. apply map_eq. intros k. rewrite lookup_alter.
  case_decide; subst; [by rewrite H|done].
Qed.

(** Changing the stored deadline of a session changes nothing that
    [verifyPayment] does with it. *)
Lemma verifyPayment_deadline_blind fetch now id tx d s :
  verifyPayment fetch now id tx (set_deadline id d s) =
    (fst (verifyPayment fetch now id tx s),
     set_deadline id d (snd (verifyPayment fetch now id tx s))).
Proof.
  destruct (pendingPayments s !! id) as [p|] eqn:Hp.
  - assert (pendingPayments (set_deadline id d s) !! id
            = Some (with_deadline d p)) as Hp'.
    { simpl. rewrite lookup_alter. case_decide; [|done]. by rewrite Hp. }
    destruct (facilitator_confirms_or_refuses fetch
                (verify_request s id tx p)) as [Hc|Hr].
    + destruct Hc as (r & body & Hf & Hok & Hj & Hv).
      destruct (verifyPayment_confirmed fetch now id tx s p r body)
        as [_ ->]; try done.
      destruct (verifyPayment_confirmed fetch now id tx (set_deadline id d s)
                  (with_deadline d p) r body) as [_ ->]; try done.
      repeat match goal with |- context [settlePayment fetch id tx ?s1] =>
        destruct (settlePayment_total fetch id tx s1) as (? & -> & ->)
      end.
      simpl. unfold set_deadline, set_pending, settle_request. simpl.
      do 2 f_equal. apply map_eq. intros k.
      destruct (decide (id = k)) as [->|Hne].
      * by rewrite lookup_delete_eq, lookup_alter_eq, lookup_delete_eq.
      * by rewrite lookup_delete_ne, !lookup_alter_ne, lookup_delete_ne.
    + clear Hp'. unfold facilitator_refuses, verify_request in Hr.
      unfold set_deadline. run_monad.
      rewrite lookup_alter_eq, Hp. simpl.
      destruct (fetch _) as [r|e]; simpl; [|done].
      destruct (ok r); simpl; [|done].
      destruct Hr as [Hr|Hr]; [done|].
      destruct (json r) as [body|e]; simpl; [|done].
      rewrite Hr. simpl. done.
  - rewrite (set_deadline_absent id d s Hp).
    rewrite verifyPayment_unknown by done. simpl.
    rewrite set_deadline_absent; done.
Qed.

(** C10. [verifyPayment] does not look at the deadline. For a stored
    session whose deadline has passed (so that the sweep would remove it,
    but has not run yet): the verification request still goes out; if the
    facilitator confirms, the call returns [verified = true], removes the
    session and sends the settle request; and replacing the stored deadline
    by any other value, past or future, changes neither the result nor
    anything else the call does. *)
Theorem verifyPayment_never_consults_deadline (fetch : Fetch) (now : Z)
    (id tx : string) (s : State) (p : X402PaymentResponse) :
  pendingPayments s !! id = Some p →
  expired now p →
  pendingPayments (snd (cleanupExpiredPayments now s)) !! id = None ∧
  (∃ rest, sent (snd (verifyPayment fetch now id tx s)) =
           sent s ++ verify_request s id tx p :: rest) ∧
  (facilitator_confirms fetch (verify_request s id tx p) →
   ∃ v s',
     verifyPayment fetch now id tx s = (Normal v, s') ∧
     verified v = true ∧
     pendingPayments s' !! id = None ∧
     sent s' =
       sent s ++ [verify_request s id tx p; settle_request s id tx]) ∧
  (∀ d,
     verifyPayment fetch now id tx (set_deadline id d s) =
       (fst (verifyPayment fetch now id tx s),
        set_deadline id d (snd (verifyPayment fetch now id tx s)))).
Proof.
  intros Hp He.
  assert (facilitator_confirms fetch (verify_request s id tx p) →
          ∃ v s',
            verifyPayment fetch now id tx s = (Normal v, s') ∧
            verified v = true ∧
            pendingPayments s' !! id = None ∧
            sent s' =
              sent s ++ [verify_request s id tx p; settle_request s id tx])
    as Hconf.
  { intros (r & body & Hf & Hok & Hj & Hv).
    destruct (verifyPayment_confirmed fetch now id tx s p r body)
      as [_ ->]; try done.
    match goal with |- context [settlePayment fetch id tx ?s1] =>
      destruct (settlePayment_total fetch id tx s1) as (entry & -> & _)
    end.
    eexists _, _. split; [reflexivity|]. simpl.
    split; [done|]. split; [apply lookup_delete_eq|].
    by rewrite <- app_assoc. }
  split; [|split; [|split]].
  - rewrite cleanup_store, map_lookup_filter, Hp. simpl.
    rewrite option_guard_False; [done|]. simpl. tauto.
  - destruct (facilitator_confirms_or_refuses fetch
                (verify_request s id tx p)) as [Hc|Hr].
    + destruct (Hconf Hc) as (v & s' & -> & _ & _ & Hsent). simpl.
      rewrite Hsent. eauto.
    + destruct (verifyPayment_refused fetch now id tx s p Hp Hr)
        as (v & entry & -> & _). simpl. eauto.
  - done.
  - intros d. apply verifyPayment_deadline_blind.
Qed.

(** *** Redemption *)

(** Running a call alone through its suspension points is the function. *)
Lemma run_alone_is_verifyPayment fetch now id tx s :
  run_alone fetch now 4 (Called id tx) s =
    (Returned (fst (verifyPayment fetch now id tx s)),
     snd (verifyPayment fetch now id tx s)).
Proof.
  unfold run_alone, resume. run_monad.
  destruct (pendingPayments s !! id) as [p|]; simpl; [|done].
  destruct (fetch (PostVerify _ _ _ _ _ _)) as [r|e]; simpl.
  2: done.
  destruct (ok r); simpl; [|done].
  destruct (json r) as [body|e]; simpl; [|done].
  destruct (or_false (r_verified body)); simpl.
  2: done.
  match goal with |- context [settlePayment fetch id tx ?s1] =>
    destruct (settlePayment_total fetch id tx s1) as (entry & -> & ->)
  end.
  unfold settle_request. simpl. rewrite <- !app_assoc. simpl.
  destruct (fetch (PostSettle _ _ _)) as [r'|e']; simpl.
  - destruct (ok r'); simpl; by rewrite <- !app_assoc.
  - by rewrite <- !app_assoc.
Qed.

Section Redemption.
Variable uuid_stream : nat → string.
Variable nonce_stream : nat → string.
Hypothesis uuid_unique : ∀ i j, uuid_stream i = uuid_stream j → i = j.

(** Every state the service can reach holds only ids it drew. *)
Lemma ids_were_drawn_run_op s op :
  ids_were_drawn uuid_stream s →
  ids_were_drawn uuid_stream (run_op uuid_stream nonce_stream s op).
Proof.
  intros Hinv. destruct op as [now sc|f now id' tx|now]; unfold run_op.
  - by apply create402Response_keeps_invariant.
  - destruct (verifyPayment_store f now id' tx s) as (Hd & _ & Hst).
    intros k [p Hk]. rewrite Hd. apply Hinv.
    destruct Hst as [Hst | Hst]; rewrite Hst in Hk; [eauto|].
    rewrite lookup_delete in Hk. case_decide; [done|eauto].
  - rewrite cleanup_state. intros k [p Hk]. simpl in *. apply Hinv.
    apply map_lookup_filter_Some in Hk as [Hk _]. eauto.
Qed.

Lemma ids_were_drawn_reachable url address ops :
  ids_were_drawn uuid_stream
    (run_ops uuid_stream nonce_stream ops (constructor url address)).
Proof.
  assert (ids_were_drawn uuid_stream (constructor url address)) as H0.
  { intros id [p H]. simpl in H. by rewrite lookup_empty in H. }
  revert H0. generalize (constructor url address).
  induction ops as [|op ops IH]; intros s Hs; [done|].
  simpl. apply IH. by apply ids_were_drawn_run_op.
Qed.

Lemma consumed_run_op id s op :
  consumed uuid_stream id s → consumed uuid_stream id (run_op uuid_stream nonce_stream s op).
Proof.
  intros (Hinv & Hgone & i & Hi & Hid). destruct op as [now sc|f now id' tx|now].
  - unfold run_op. rewrite create402Response_state. unfold consumed. simpl.
    split; [|split].
    + intros k [p Hk]. simpl in *.
      destruct (decide (k = uuid_stream (drawn s))) as [->|Hne].
      * exists (drawn s). split; [lia|done].
      * rewrite lookup_insert_ne in Hk by done.
        destruct (Hinv k) as (j & Hj & Heq); [eauto|].
        exists j. split; [lia|done].
    + rewrite lookup_insert_ne; [done|].
      intros Heq. rewrite <- Hid in Heq. apply uuid_unique in Heq. lia.
    + exists i. split; [lia|done].
  - unfold run_op.
    destruct (verifyPayment_store f now id' tx s) as (Hd & _ & Hst).
    unfold consumed, ids_were_drawn. rewrite Hd. split; [|split].
    + intros k [p Hk]. apply Hinv. destruct Hst as [Hst | Hst];
        rewrite Hst in Hk; [eauto|].
      rewrite lookup_delete in Hk. case_decide; [done|eauto].
    + destruct Hst as [-> | ->]; [done|].
      rewrite lookup_delete. by case_decide.
    + eauto.
  - unfold run_op. rewrite cleanup_state. unfold consumed. simpl.
    split; [|split].
    + intros k [p Hk]. simpl in *. apply Hinv.
      apply map_lookup_filter_Some in Hk as [Hk _]. eauto.
    + rewrite map_lookup_filter, Hgone. done.
    + eauto.
Qed.

Lemma consumed_run_ops id ops s :
  consumed uuid_stream id s → consumed uuid_stream id (run_ops uuid_stream nonce_stream ops s).
Proof.
  revert s. induction ops as [|op ops IH]; intros s H; [done|].
  simpl. apply IH. by apply consumed_run_op.
Qed.

(** **** One step of a call in flight *)

(** A step changes neither the uuid counter nor the facilitator URL, and
    it leaves the store alone or deletes one id from it. *)
Lemma resume_store fetch now t s :
  drawn (resume fetch now t s).2 = drawn s ∧
  facilitatorUrl (resume fetch now t s).2 = facilitatorUrl s ∧
  (pendingPayments (resume fetch now t s).2 = pendingPayments s ∨
   ∃ id, pendingPayments (resume fetch now t s).2 =
           delete id (pendingPayments s)).
Proof.
  destruct t as [id tx|id tx p req|id tx p response|v req|c];
    cbv beta iota delta [resume].
  - destruct (pendingPayments s !! id); run_monad; auto.
  - destruct (fetch req) as [response|e];
      [destruct (ok response)|]; run_monad; auto.
  - destruct (json response) as [body|e];
      [destruct (or_false (r_verified body))|]; run_monad; eauto.
  - destruct (fetch req) as [response|e];
      [destruct (ok response)|]; run_monad; auto.
  - auto.
Qed.

(** The step that ends waiting for the settle answer is the step that has
    deleted the session, and it has deleted it before the settle request
    went out: in the state in which the request has just been sent, the
    session is gone. *)
Lemma resume_await_settle fetch now t s v req s1 :
  resume fetch now t s = (AwaitSettle v req, s1) →
  ∃ tx p response,
    t = AwaitJson (v_paymentId v) tx p response ∧
    verified v = true ∧
    req = settle_request s (v_paymentId v) tx ∧
    pendingPayments s1 = delete (v_paymentId v) (pendingPayments s) ∧
    pendingPayments s1 !! v_paymentId v = None ∧
    sent s1 = sent s ++ [req].
Proof.
  destruct t as [id tx|id tx p req0|id tx p response|v0 req0|c];
    cbv beta iota delta [resume].
  - destruct (pendingPayments s !! id); run_monad; discriminate.
  - destruct (fetch req0) as [response|e];
      [destruct (ok response)|]; run_monad; discriminate.
  - destruct (json response) as [body|e]; [|run_monad; discriminate].
    destruct (or_false (r_verified body)) eqn:Hv;
      [|run_monad; discriminate].
    run_monad. intros [= <- <- <-]. simpl.
    exists tx, p, response. rewrite lookup_delete_eq. by repeat split.
  - destruct (fetch req0) as [response|e];
      [destruct (ok response)|]; run_monad; discriminate.
  - discriminate.
Qed.

Lemma was_drawn_mono id s s' :
  (drawn s ≤ drawn s')%nat →
  was_drawn uuid_stream id s → was_drawn uuid_stream id s'.
Proof. intros Hle (i & Hi & Hid). exists i. split; [lia|done]. Qed.

(** A call in flight stays in order when the rest of the service moves
    on without storing an id that was already drawn. *)
Lemma task_ok_mono s s' t :
  (drawn s ≤ drawn s')%nat →
  (∀ id, was_drawn uuid_stream id s → pendingPayments s !! id = None →
         pendingPayments s' !! id = None) →
  task_ok uuid_stream s t → task_ok uuid_stream s' t.
Proof.
  intros Hle Hgone.
  destruct t as [id tx|id tx p req|id tx p response|v req|[v|e]]; simpl;
    try done; eauto using was_drawn_mono.
  - intros [Hd Hn]. split; [by eapply was_drawn_mono|by apply Hgone].
  - intros H Hv. destruct (H Hv) as [Hd Hn].
    split; [by eapply was_drawn_mono|by apply Hgone].
Qed.

Lemma resume_task_ok fetch now t s :
  ids_were_drawn uuid_stream s →
  task_ok uuid_stream s t →
  task_ok uuid_stream (resume fetch now t s).2 (resume fetch now t s).1.
Proof.
  intros Hinv Hok.
  destruct t as [id tx|id tx p req|id tx p response|v req|c];
    cbv beta iota delta [resume]; cbn [task_ok] in Hok.
  - destruct (pendingPayments s !! id) as [p|] eqn:Hp; run_monad.
    + apply Hinv. by rewrite Hp.
    + done.
  - destruct (fetch req) as [response|e];
      [destruct (ok response)|]; run_monad; done.
  - destruct (json response) as [body|e];
      [destruct (or_false (r_verified body)) eqn:Hv|]; run_monad.
    + split; [done|]. by rewrite lookup_delete_eq.
    + done.
    + done.
  - destruct (fetch req) as [response|e];
      [destruct (ok response)|]; run_monad; by intros _.
  - done.
Qed.

(** **** The pool of calls *)

Lemma sys_ok_run_event sys e :
  sys_ok uuid_stream sys →
  sys_ok uuid_stream (run_event uuid_stream nonce_stream sys e).
Proof.
  destruct sys as [tasks s]. intros [Hinv Hall]. cbn [fst snd] in *.
  destruct e as [i fetch now|id tx|now scenario|now];
    unfold sys_ok; cbn [run_event fst snd].
  - destruct (tasks !! i) as [t|] eqn:Ht; [|done].
    pose proof (resume_store fetch now t s) as (Hd & _ & Hst).
    pose proof (resume_task_ok fetch now t s Hinv
                  (proj1 (Forall_lookup _ _) Hall i t Ht)) as Hok.
    destruct (resume fetch now t s) as [t' s'] eqn:Hrun. simpl in *.
    assert (∀ id, pendingPayments s !! id = None →
                  pendingPayments s' !! id = None) as Hgone.
    { intros id Hn. destruct Hst as [->|[id' ->]]; [done|].
      rewrite lookup_delete. by case_decide. }
    split.
    + intros id [p Hp]. simpl in *.
      destruct (Hinv id) as (j & Hj & Hid).
      { destruct Hst as [Hst|[id' Hst]]; rewrite Hst in Hp; [eauto|].
        rewrite lookup_delete in Hp. case_decide; [done|eauto]. }
      exists j. split; [lia|done].
    + apply Forall_insert; [|exact Hok].
      eapply Forall_impl; [exact Hall|].
      intros t0. apply task_ok_mono; simpl; [lia|auto].
  - split; [done|]. apply Forall_app. split; [done|].
    by apply Forall_singleton.
  - split; [by apply create402Response_keeps_invariant|].
    eapply Forall_impl; [exact Hall|].
    intros t0. rewrite create402Response_state. apply task_ok_mono.
    + simpl. lia.
    + simpl. intros id (i & Hi & Hid) Hn.
      rewrite lookup_insert_ne; [done|].
      intros Heq. rewrite <- Hid in Heq. apply uuid_unique in Heq. lia.
  - rewrite cleanup_state. simpl. split.
    + intros id [p Hp]. simpl in *. apply Hinv.
      apply map_lookup_filter_Some in Hp as [Hp _]. eauto.
    + eapply Forall_impl; [exact Hall|].
      intros t0. apply task_ok_mono; [simpl; lia|].
      simpl. intros id _ Hn. by rewrite map_lookup_filter, Hn.
Qed.

Lemma sys_ok_run_events events sys :
  sys_ok uuid_stream sys →
  sys_ok uuid_stream (run_events uuid_stream nonce_stream events sys).
Proof.
  revert sys. induction events as [|e events IH]; intros sys H; [done|].
  simpl. apply IH. by apply sys_ok_run_event.
Qed.

(** Calls that have not started put no condition on the service. *)
Lemma sys_ok_not_started tasks s :
  ids_were_drawn uuid_stream s → Forall not_started tasks →
  sys_ok uuid_stream (tasks, s).
Proof.
  intros Hinv Hall. split; [done|]. simpl.
  eapply Forall_impl; [exact Hall|]. by intros [].
Qed.

(** A consumed id stays consumed, whatever the event loop does next. *)
Lemma consumed_run_event id sys e :
  consumed uuid_stream id sys.2 →
  consumed uuid_stream id (run_event uuid_stream nonce_stream sys e).2.
Proof.
  destruct sys as [tasks s]. cbn [fst snd].
  destruct e as [i fetch now|id' tx|now scenario|now];
    cbn [run_event fst snd]; [|done| |].
  - destruct (tasks !! i) as [t|]; [|done].
    pose proof (resume_store fetch now t s) as (Hd & _ & Hst).
    destruct (resume fetch now t s) as [t' s'] eqn:Hrun. simpl in *.
    intros (Hinv & Hgone & j & Hj & Hid). split; [|split].
    + intros k [p Hp]. simpl in *.
      destruct (Hinv k) as (j' & Hj' & Hid').
      { destruct Hst as [Hst|[id' Hst]]; rewrite Hst in Hp; [eauto|].
        rewrite lookup_delete in Hp. case_decide; [done|eauto]. }
      exists j'. split; [lia|done].
    + destruct Hst as [->|[id' ->]]; [done|].
      rewrite lookup_delete. by case_decide.
    + exists j. split; [lia|done].
  - exact (consumed_run_op id s (DoIssue now scenario)).
  - exact (consumed_run_op id s (DoCleanup now)).
Qed.

Lemma consumed_run_events id events sys :
  consumed uuid_stream id sys.2 →
  consumed uuid_stream id (run_events uuid_stream nonce_stream events sys).2.
Proof.
  revert sys. induction events as [|e events IH]; intros sys H; [done|].
  simpl. apply IH. by apply consumed_run_event.
Qed.

(** A call that starts on a consumed id is refused on the spot, as a step
    of the task and as the function itself. *)
Lemma start_on_consumed fetch now id tx s :
  pendingPayments s !! id = None →
  ∃ s',
    resume fetch now (Called id tx) s =
      (Returned (Normal (mkVerification id tx false "0" (unix_seconds now))),
       s') ∧
    verifyPayment fetch now id tx s =
      (Normal (mkVerification id tx false "0" (unix_seconds now)), s') ∧
    pendingPayments s' = pendingPayments s ∧
    sent s' = sent s ∧
    console s' = console s ++ [VERIFICATION_ERROR id tx "Payment not found"].
Proof.
  intros Hgone. rewrite verifyPayment_unknown by done.
  eexists. split; [|split; [reflexivity|by simpl]].
  simpl. rewrite Hgone. run_monad. reflexivity.
Qed.

(** The scheduler of [interleave] is the event loop restricted to
    resumptions under one facilitator and one clock. *)
Lemma interleave_run_events fetch now schedule tasks s :
  interleave fetch now schedule tasks s =
  run_events uuid_stream nonce_stream
    ((λ i, Resumes i fetch now) <$> schedule) (tasks, s).
Proof.
  revert tasks s. induction schedule as [|i rest IH]; intros tasks s;
    [done|].
  cbn [interleave].
  change (run_events uuid_stream nonce_stream
            ((λ i, Resumes i fetch now) <$> i :: rest) (tasks, s))
    with (run_events uuid_stream nonce_stream
            ((λ i, Resumes i fetch now) <$> rest)
            (run_event uuid_stream nonce_stream (tasks, s)
               (Resumes i fetch now))).
  cbn [run_event fst snd].
  destruct (tasks !! i) as [t|]; [|apply IH].
  destruct (resume fetch now t s) as [t' s']. apply IH.
Qed.

(** C1. Under the assumption that the id generator never repeats an id and
    that every stored id came from it:

    - A call is confirmed, and waits for the answer to its settle request,
      only through the step that handles the facilitator's confirmation;
      that step deletes the session first and sends the settle request
      afterwards, so that while the settle request is in flight the
      session is already gone.
    - Take any pool of calls that have not started, and let the event loop
      run in any order: resumptions of calls, new calls, issues, sweeps.
      As soon as one call is confirmed for an id, the session is gone, and
      it stays gone whatever runs afterwards; every call for that id that
      starts from then on, also while the first one still waits for its
      settle answer, returns the unverified record with "Payment not
      found", sends nothing and leaves the store as it is.
    - The same, read on the function: once [verifyPayment] has returned
      [verified = true] for an id, every later start of a call for that
      id is refused in this way, after any further events and whatever
      other calls are in flight. *)
Theorem verified_once_then_never_again :
  (∀ fetch now t s v req s1,
     resume fetch now t s = (AwaitSettle v req, s1) →
     ∃ tx p response,
       t = AwaitJson (v_paymentId v) tx p response ∧
       verified v = true ∧
       req = settle_request s (v_paymentId v) tx ∧
       pendingPayments s1 !! v_paymentId v = None ∧
       sent s1 = sent s ++ [req]) ∧
  (∀ (tasks0 : list Task) (s0 : State) (before : list Event) (i : nat)
     (t : Task) (v : X402PaymentVerification),
     ids_were_drawn uuid_stream s0 →
     Forall not_started tasks0 →
     let sys1 := run_events uuid_stream nonce_stream before (tasks0, s0) in
     sys1.1 !! i = Some t →
     confirmed t v →
     let id := v_paymentId v in
     pendingPayments sys1.2 !! id = None ∧
     ∀ (after : list Event) (fetch2 : Fetch) (now2 : Z) (tx2 : string),
       let s2 := (run_events uuid_stream nonce_stream after sys1).2 in
       pendingPayments s2 !! id = None ∧
       ∃ s3,
         resume fetch2 now2 (Called id tx2) s2 =
           (Returned (Normal (mkVerification id tx2 false "0"
                                (unix_seconds now2))), s3) ∧
         verifyPayment fetch2 now2 id tx2 s2 =
           (Normal (mkVerification id tx2 false "0" (unix_seconds now2)),
            s3) ∧
         pendingPayments s3 = pendingPayments s2 ∧
         sent s3 = sent s2 ∧
         console s3 =
           console s2 ++ [VERIFICATION_ERROR id tx2 "Payment not found"]) ∧
  (∀ (fetch : Fetch) (now : Z) (id tx : string) (s s' : State)
     (v : X402PaymentVerification),
     ids_were_drawn uuid_stream s →
     verifyPayment fetch now id tx s = (Normal v, s') →
     verified v = true →
     is_Some (pendingPayments s !! id) ∧
     pendingPayments s' !! id = None ∧
     ∀ (tasks : list Task) (after : list Event) (fetch2 : Fetch) (now2 : Z)
       (tx2 : string),
       let s2 := (run_events uuid_stream nonce_stream after (tasks, s')).2 in
       pendingPayments s2 !! id = None ∧
       ∃ s3,
         resume fetch2 now2 (Called id tx2) s2 =
           (Returned (Normal (mkVerification id tx2 false "0"
                                (unix_seconds now2))), s3) ∧
         verifyPayment fetch2 now2 id tx2 s2 =
           (Normal (mkVerification id tx2 false "0" (unix_seconds now2)),
            s3) ∧
         pendingPayments s3 = pendingPayments s2 ∧
         sent s3 = sent s2 ∧
         console s3 =
           console s2 ++ [VERIFICATION_ERROR id tx2 "Payment not found"]).
Proof.
  split; [|split].
  - intros fetch now t s v req s1 Hstep.
    destruct (resume_await_settle fetch now t s v req s1 Hstep)
      as (tx & p & response & Ht & Hv & Hreq & _ & Hgone & Hsent).
    exists tx, p, response. by repeat split.
  - intros tasks0 s0 before i t v Hinv Hall sys1 Hi Hconf id.
    pose proof (sys_ok_run_events before (tasks0, s0)
                  (sys_ok_not_started tasks0 s0 Hinv Hall)) as [Hinv1 Hall1].
    fold sys1 in Hinv1, Hall1.
    pose proof (proj1 (Forall_lookup _ _) Hall1 i t Hi) as Hok.
    assert (was_drawn uuid_stream id sys1.2 ∧
            pendingPayments sys1.2 !! id = None) as [Hdrawn Hgone].
    { destruct t as [? ?|? ? ? ?|? ? ? ?|v' req|[v'|e]]; simpl in *;
        try done.
      - by subst v'.
      - destruct Hconf as [-> Hv]. by apply Hok. }
    split; [exact Hgone|].
    intros after fetch2 now2 tx2 s2.
    assert (consumed uuid_stream id sys1.2) as Hcons by done.
    apply (consumed_run_events id after sys1) in Hcons as (_ & Hgone2 & _).
    split; [exact Hgone2|]. by apply start_on_consumed.
  - intros fetch now id tx s s' v Hinv Hrun Hver.
    destruct (pendingPayments s !! id) as [p|] eqn:Hp; cycle 1.
    { rewrite verifyPayment_unknown in Hrun by done.
      inversion Hrun; subst. done. }
    destruct (verifyPayment_store fetch now id tx s) as (Hd & _ & Hst).
    rewrite Hrun in Hd, Hst. simpl in Hd, Hst.
    assert (pendingPayments s' = delete id (pendingPayments s)) as Hdel.
    { destruct Hst as [Hst|Hst]; [|done]. exfalso.
      destruct (facilitator_confirms_or_refuses fetch
                  (verify_request s id tx p)) as [Hc|Hr].
      - destruct Hc as (r & body & Hf & Hok & Hj & Hv).
        destruct (verifyPayment_confirmed fetch now id tx s p r body)
          as [_ Heq]; try done.
        rewrite Heq in Hrun.
        match type of Hrun with
          context [settlePayment fetch id tx ?s1] =>
            destruct (settlePayment_total fetch id tx s1) as (entry & Hs & _);
            rewrite Hs in Hrun
        end.
        simpl in Hrun. injection Hrun as _ <-. simpl in Hst.
        assert (delete id (pendingPayments s) !! id = Some p) as Hbad
          by (by rewrite Hst).
        by rewrite lookup_delete_eq in Hbad.
      - destruct (verifyPayment_refused fetch now id tx s p Hp Hr)
          as (v' & entry & Heq & Hv').
        rewrite Heq in Hrun. inversion Hrun; subst. congruence. }
    assert (pendingPayments s' !! id = None) as Hgone
      by (by rewrite Hdel, lookup_delete_eq).
    split; [done|]. split; [exact Hgone|].
    intros tasks after fetch2 now2 tx2 s2.
    assert (consumed uuid_stream id s') as Hcons.
    { split; [|split; [exact Hgone|]].
      - intros k [q Hk]. rewrite Hd. apply Hinv.
        rewrite Hdel, lookup_delete in Hk. case_decide; [done|eauto].
      - destruct (Hinv id) as (j & Hj & Hid); [eauto|].
        exists j. rewrite Hd. eauto. }
    apply (consumed_run_events id after (tasks, s')) in Hcons
      as (_ & Hgone2 & _).
    split; [exact Hgone2|]. by apply start_on_consumed.
Qed.
End Redemption.

(** C1 as stated fails when two calls for the same id overlap. Both calls
    read the store before either has heard from the facilitator; the
    facilitator confirms both; both return [verified = true] and the
    payment is settled twice. *)
Lemma overlapping_calls_both_verified :
  ∃ v1 v2 s',
    pendingPayments one_challenge !! "0" ≠ None ∧
    interleave facilitator_up 1000000 [0; 1; 0; 1; 0; 1; 0; 1]%nat
      [Called "0" "0xabc"; Called "0" "0xabc"] one_challenge =
      ([Returned (Normal v1); Returned (Normal v2)], s') ∧
    verified v1 = true ∧ verified v2 = true ∧
    sent s' =
      [ PostVerify "https://facilitator.x402.xyz/verify" "0" "0xabc"
          "1000000" "0x742d35Cc6635C0532925a3b8D716C4C3e4d4Cc62" "USDC";
        PostVerify "https://facilitator.x402.xyz/verify" "0" "0xabc"
          "1000000" "0x742d35Cc6635C0532925a3b8D716C4C3e4d4Cc62" "USDC";
        PostSettle "https://facilitator.x402.xyz/settle" "0" "0xabc";
        PostSettle "https://facilitator.x402.xyz/settle" "0" "0xabc" ].
Proof.
  eexists _, _, _. split; [by vm_compute|].
  split; [vm_compute; reflexivity|]. by vm_compute.
Qed.

(** *** Worked instances *)

(** C4 at work: the facilitator confirms, its settle endpoint is down, and
    the caller still gets [verified = true]. *)
Lemma settlement_failure_does_not_revert_witness :
  pendingPayments one_challenge !! "0" = Some sample_challenge ∧
  facilitator_confirms facilitator_settle_down
    (verify_request one_challenge "0" "0xabc" sample_challenge) ∧
  ∃ v s',
    verifyPayment facilitator_settle_down 2000000 "0" "0xabc" one_challenge
      = (Normal v, s') ∧
    verified v = true ∧
    pendingPayments s' !! "0" = None ∧
    last (console s') = Some (SETTLEMENT_ERROR "0" "0xabc" "fetch failed").
Proof.
  assert (facilitator_confirms facilitator_settle_down
            (verify_request one_challenge "0" "0xabc" sample_challenge))
    as Hc.
  { eexists _, _. repeat split; reflexivity. }
  split; [exact one_challenge_lookup|]. split; [exact Hc|].
  destruct (settlement_failure_does_not_revert facilitator_settle_down
              2000000 "0" "0xabc" one_challenge sample_challenge
              one_challenge_lookup Hc)
    as (v & s' & a & Hrun & Hv & _ & Hgone & _ & Hlog).
  exists v, s'. split; [exact Hrun|]. split; [by rewrite Hv|].
  split; [exact Hgone|]. rewrite Hlog. rewrite last_app. reflexivity.
Defined.

(** C6 at work: the facilitator answers 500 and the session stays. *)
Lemma failed_verification_keeps_session_witness :
  pendingPayments one_challenge !! "0" = Some sample_challenge ∧
  facilitator_refuses facilitator_broken
    (verify_request one_challenge "0" "0xabc" sample_challenge) ∧
  ∃ v s',
    verifyPayment facilitator_broken 2000000 "0" "0xabc" one_challenge
      = (Normal v, s') ∧
    verified v = false ∧
    isPaymentPending "0" s' = true ∧
    getPendingPayment "0" s' = Some sample_challenge.
Proof.
  assert (facilitator_refuses facilitator_broken
            (verify_request one_challenge "0" "0xabc" sample_challenge))
    as Hr.
  { left. reflexivity. }
  split; [exact one_challenge_lookup|]. split; [exact Hr|].
  destruct (failed_verification_keeps_session facilitator_broken 2000000
              "0" "0xabc" one_challenge sample_challenge
              one_challenge_lookup Hr)
    as (v & s' & Hrun & Hv & _ & Hpend & Hget).
  exists v, s'. repeat split; assumption.
Defined.

(** C10 at work: the challenge of second 1000 expired at second 4600; at
    second 10000 it is still redeemed. *)
Lemma verifyPayment_never_consults_deadline_witness :
  pendingPayments one_challenge !! "0" = Some sample_challenge ∧
  expired 10000000 sample_challenge ∧
  ∃ v s',
    verifyPayment facilitator_up 10000000 "0" "0xabc" one_challenge
      = (Normal v, s') ∧
    verified v = true ∧
    pendingPayments s' !! "0" = None.
Proof.
  assert (expired 10000000 sample_challenge) as He by (by vm_compute).
  split; [exact one_challenge_lookup|]. split; [exact He|].
  destruct (verifyPayment_never_consults_deadline facilitator_up 10000000
              "0" "0xabc" one_challenge sample_challenge
              one_challenge_lookup He)
    as (_ & _ & Hconf & _).
  destruct Hconf as (v & s' & Hrun & Hv & Hgone & _).
  { eexists _, _. repeat split; reflexivity. }
  exists v, s'. repeat split; assumption.
Defined.

(** C1 at work. Two calls for the sample challenge have arrived. The first
    is resumed three times and now waits for its settle answer: the
    session is gone already, and the second call, which starts only now,
    is refused although the two calls overlap. *)
Lemma verified_once_then_never_again_witness :
  let pool := [Called "0" "0xabc"; Called "0" "0xdef"] in
  let v := mkVerification "0" "0xabc" true "1000000" 2000 in
  let sys1 :=
    run_events sample_stream sample_stream
      [Resumes 0 facilitator_up 2000000; Resumes 0 facilitator_up 2000000;
       Resumes 0 facilitator_up 2000000] (pool, one_challenge) in
  ids_were_drawn sample_stream one_challenge ∧
  Forall not_started pool ∧
  sys1.1 !! 0%nat =
    Some (AwaitSettle v
            (PostSettle "https://facilitator.x402.xyz/settle" "0" "0xabc")) ∧
  pendingPayments sys1.2 !! "0" = None ∧
  (run_events sample_stream sample_stream [Resumes 1 facilitator_up 2000001]
     sys1).1 !! 1%nat =
    Some (Returned (Normal (mkVerification "0" "0xdef" false "0" 2000))) ∧
  ∀ after fetch2 now2 tx2,
    ∃ s3,
      verifyPayment fetch2 now2 "0" tx2
        (run_events sample_stream sample_stream after sys1).2 =
        (Normal (mkVerification "0" tx2 false "0" (unix_seconds now2)), s3).
Proof.
  intros pool v sys1.
  assert (Forall not_started pool) as Hpool
    by (repeat constructor).
  assert (sys1.1 !! 0%nat =
          Some (AwaitSettle v
                  (PostSettle "https://facilitator.x402.xyz/settle" "0"
                     "0xabc"))) as Hfirst by (by vm_compute).
  destruct (verified_once_then_never_again sample_stream sample_stream
              sample_stream_unique) as (_ & Hnever & _).
  destruct (Hnever pool one_challenge
              [Resumes 0 facilitator_up 2000000;
               Resumes 0 facilitator_up 2000000;
               Resumes 0 facilitator_up 2000000] 0%nat _ v
              one_challenge_invariant Hpool Hfirst eq_refl)
    as [Hgone Hlater].
  split; [exact one_challenge_invariant|]. split; [exact Hpool|].
  split; [exact Hfirst|]. split; [exact Hgone|]. split.
  - by vm_compute.
  - intros after fetch2 now2 tx2.
    destruct (Hlater after fetch2 now2 tx2) as (_ & s3 & _ & Hcall & _).
    exists s3. exact Hcall.
Defined.

End PaymentGateway.

(** * Properties of the smart-wallet executor *)

Section Executor.
Import SmartWallet.
Local Open Scope list_scope.

Lemma waitForUserOperation_submitted provider hash w :
  submitted (snd (waitForUserOperation provider hash w)) = submitted w.
Proof.
  unfold waitForUserOperation. simpl.
  destruct (smartAccount w); [|done].
  destruct (provider_waitForUserOperation _ _ _) as [op|e|]; try done.
  by case_decide.
Qed.

(** The submitting functions hand exactly one request to the network. *)
Lemma send_and_wait_submitted provider line account calls w :
  submitted (snd (send_and_wait provider line account calls w)) =
  submitted w ++ [mkRequest account "base" PAYMASTER_URL calls].
Proof.
  unfold send_and_wait.
  destruct (sendUserOperation _ _) as [hash|e|]; try done.
  by rewrite waitForUserOperation_submitted.
Qed.

(** C2, as the code has it. [waitForUserOperation] takes no timeout and
    keeps no clock: it awaits the provider's wait call once and returns
    exactly when that call settles. A provider result with status
    "complete" becomes [complete] with its hash and receipt; any other
    status becomes [failed] with "Transaction failed"; a rejection (such as
    the provider's own timeout) becomes [failed] carrying the thrown error;
    and while the provider's call does not settle, neither does this one.
    Nothing is submitted to the network on the way. *)
Theorem waitForUserOperation_follows_provider (provider : Provider)
    (hash account : string) (w : Wallet) :
  smartAccount w = Some account →
  submitted (snd (waitForUserOperation provider hash w)) = submitted w ∧
  fst (waitForUserOperation provider hash w) =
    match provider_waitForUserOperation provider account hash with
    | Fulfilled op =>
        if decide (p_status op = "complete") then
          Fulfilled (mkUserOperation hash (p_transactionHash op) complete
                       (p_receipt op) None)
        else Fulfilled (failed_operation hash "Transaction failed")
    | Rejected e => Fulfilled (failed_operation hash e)
    | NeverSettles => NeverSettles
    end.
Proof.
  intros Hacc. split; [apply waitForUserOperation_submitted|].
  unfold waitForUserOperation. simpl. rewrite Hacc.
  destruct (provider_waitForUserOperation _ _ _) as [op|e|]; try done.
  by case_decide.
Qed.

(** C2 at work: the provider gives up with its own timeout error, and the
    caller sees [failed] carrying that error. *)
Lemma waitForUserOperation_follows_provider_witness :
  smartAccount ready_wallet =
    Some "0x1111111111111111111111111111111111111111" ∧
  fst (waitForUserOperation provider_timing_out "0xop" ready_wallet) =
    Fulfilled (failed_operation "0xop" "TimeoutError").
Proof.
  split; [reflexivity|].
  destruct (waitForUserOperation_follows_provider provider_timing_out "0xop"
              "0x1111111111111111111111111111111111111111" ready_wallet
              eq_refl) as [_ H].
  exact H.
Defined.

(** C2 as stated fails: with a provider whose wait call never settles the
    function never returns, so no bound holds for it; and for a provider
    that reports a non-terminal status the result is [failed] with
    "Transaction failed", which names no timeout. *)
Lemma waitForUserOperation_unbounded :
  fst (waitForUserOperation provider_stalled "0xop" ready_wallet) =
    NeverSettles ∧
  fst (waitForUserOperation provider_pending "0xop" ready_wallet) =
    Fulfilled (failed_operation "0xop" "Transaction failed").
Proof. split; reflexivity. Qed.

(** C3, as the code has it. On an initialized wallet the helpers check
    neither addresses nor amounts. [sendNativeTokens] submits the call for
    any recipient string and any amount. [transferTokens] submits unless
    [parseUnits] rejects the amount string or the ABI encoder rejects the
    arguments; [callContract] and [approveMilestone] submit unless the
    encoder rejects. A rejection at that stage submits nothing and comes
    back as a [failed] result with an empty operation hash, not as a thrown
    error. [createProject] parses the milestone payments first, outside of
    any [try]: an unparsable payment makes the call itself throw, with
    nothing submitted. *)
Theorem helpers_do_not_validate (provider : Provider) (account : string)
    (w : Wallet) :
  smartAccount w = Some account →
  (∀ to amount,
     submitted (snd (sendNativeTokens provider to amount w)) =
     submitted w ++ [single_call account (mkCall to (Some amount) "0x")]) ∧
  (∀ params,
     match Units.parseUnits (tp_amount params) (tp_decimals params) with
     | Throw e =>
         transferTokens provider params w =
           (Fulfilled (failed_operation "" e),
            console_write "Failed to transfer tokens:" w)
     | Normal amount =>
         match encodeFunctionData provider ERC20_ABI "transfer"
                 [VAddress (tp_to params); VUint amount] with
         | Throw e =>
             transferTokens provider params w =
               (Fulfilled (failed_operation "" e),
                console_write "Failed to transfer tokens:" w)
         | Normal data =>
             submitted (snd (transferTokens provider params w)) =
             submitted w ++
             [single_call account (mkCall (tokenAddress params) None data)]
         end
     end) ∧
  (∀ params,
     match encodeFunctionData provider (abi params) (functionName params)
             (args params) with
     | Throw e =>
         callContract provider params w =
           (Fulfilled (failed_operation "" e),
            console_write "Failed to call contract:" w)
     | Normal data =>
         submitted (snd (callContract provider params w)) =
         submitted w ++
         [single_call account (mkCall (contractAddress params) None data)]
     end) ∧
  (∀ project abi index,
     approveMilestone provider project abi index w =
     callContract provider
       (mkCallParams project abi "approveMilestone" [VUint index]) w) ∧
  (∀ factory abi client freelancer descriptions payments,
     match parse_payments payments with
     | Throw e =>
         createProject provider factory abi client freelancer descriptions
           payments w = (Rejected e, w)
     | Normal amounts =>
         createProject provider factory abi client freelancer descriptions
           payments w =
         callContract provider
           (mkCallParams factory abi "createProject"
              [ VAddress client; VAddress freelancer;
                VArray (VString <$> descriptions);
                VArray (VUint <$> amounts) ]) w
     end).
Proof.
  intros Hacc. repeat split.
  - intros to amount. unfold sendNativeTokens. rewrite Hacc.
    apply send_and_wait_submitted.
  - intros params. unfold transferTokens. rewrite Hacc.
    destruct (Units.parseUnits _ _) as [amount|e]; [|done].
    destruct (encodeFunctionData _ _ _ _) as [data|e]; [|done].
    apply send_and_wait_submitted.
  - intros params. unfold callContract. rewrite Hacc.
    destruct (encodeFunctionData _ _ _ _) as [data|e]; [|done].
    apply send_and_wait_submitted.
  - intros factory abi client freelancer descriptions payments.
    unfold createProject. by destruct (parse_payments payments).
Qed.

(** C3 at work: a transfer whose amount is not a decimal number comes
    back as a failed result, with nothing submitted. *)
Lemma helpers_do_not_validate_witness :
  smartAccount ready_wallet =
    Some "0x1111111111111111111111111111111111111111" ∧
  transferTokens provider_ok
    (mkTransferParams "0x833589fCD6eDb6E08f4c7C32D4f71b54bda02913"
       "0x2222222222222222222222222222222222222222" "ten" 6) ready_wallet =
    (Fulfilled (failed_operation "" "InvalidDecimalNumberError"),
     console_write "Failed to transfer tokens:" ready_wallet).
Proof.
  split; [reflexivity|].
  destruct (helpers_do_not_validate provider_ok
              "0x1111111111111111111111111111111111111111" ready_wallet
              eq_refl) as (_ & Htransfer & _).
  exact (Htransfer
           (mkTransferParams "0x833589fCD6eDb6E08f4c7C32D4f71b54bda02913"
              "0x2222222222222222222222222222222222222222" "ten" 6)).
Defined.

(** C3 as stated fails: [sendNativeTokens] with a recipient that is not an
    address and an amount of zero is submitted to the network like any
    other call, and here even reported complete. *)
Lemma sendNativeTokens_submits_malformed :
  isAddress "not-an-address" = false ∧
  ¬ (0 < 0) ∧
  sendNativeTokens provider_ok "not-an-address" 0 ready_wallet =
    (Fulfilled (mkUserOperation "0xop" (Some "0xtx") complete
                  (Some "receipt") None),
     mkWallet (smartAccount ready_wallet)
       [single_call "0x1111111111111111111111111111111111111111"
          (mkCall "not-an-address" (Some 0) "0x")]
       ["Waiting for user operation to be confirmed..."]).
Proof. split; [reflexivity|]. split; [lia|reflexivity]. Qed.

End Executor.

(** * Further properties of the payment service *)

Section PaymentServiceMore.
Import X402.
Local Open Scope list_scope.

(** X1. A [verifyPayment] call touches no session but its own: every other
    id keeps its challenge, and neither the service's configuration nor the
    uuid counter changes. *)
Theorem verifyPayment_frame (fetch : Fetch) (now : Z) (id tx other : string)
    (s : State) :
  other ≠ id →
  let s' := snd (verifyPayment fetch now id tx s) in
  pendingPayments s' !! other = pendingPayments s !! other ∧
  facilitatorUrl s' = facilitatorUrl s ∧
  recipientAddress s' = recipientAddress s ∧
  drawn s' = drawn s.
Proof.
  intros Hne s'. subst s'.
  destruct (pendingPayments s !! id) as [p|] eqn:Hp.
  - destruct (facilitator_confirms_or_refuses fetch
                (verify_request s id tx p)) as [Hc|Hr].
    + destruct Hc as (r & body & Hf & Hok & Hj & Hv).
      destruct (verifyPayment_confirmed fetch now id tx s p r body)
        as [_ ->]; try done.
      match goal with |- context [settlePayment fetch id tx ?s1] =>
        destruct (settlePayment_total fetch id tx s1) as (entry & -> & _)
      end.
      simpl. by rewrite lookup_delete_ne.
    + destruct (verifyPayment_refused fetch now id tx s p Hp Hr)
        as (v & entry & -> & _). done.
  - by rewrite verifyPayment_unknown.
Qed.

Lemma verifyPayment_frame_witness :
  "1" ≠ "0" ∧
  pendingPayments
    (snd (verifyPayment facilitator_up 2000000 "0" "0xabc" one_challenge))
    !! "1" = pendingPayments one_challenge !! "1".
Proof.
  split; [discriminate|].
  destruct (verifyPayment_frame facilitator_up 2000000 "0" "0xabc" "1"
              one_challenge ltac:(discriminate)) as [H _].
  exact H.
Defined.

(** X2. What one [verifyPayment] call puts on the wire. Nothing for an id
    that is not stored. Otherwise exactly one verify request, carrying the
    amount, recipient and currency of the stored challenge; and after it
    one settle request exactly when the call returns [verified = true].
    No call ever settles without having verified. *)
Theorem verifyPayment_traffic (fetch : Fetch) (now : Z) (id tx : string)
    (s : State) :
  ∃ v s',
    verifyPayment fetch now id tx s = (Normal v, s') ∧
    sent s' =
      sent s ++
      match pendingPayments s !! id with
      | None => []
      | Some p =>
          PostVerify (facilitatorUrl s +:+ "/verify") id tx
            (amount p) (recipient p) (currency p) ::
          (if verified v
           then [PostSettle (facilitatorUrl s +:+ "/settle") id tx]
           else [])
      end.
Proof.
  destruct (pendingPayments s !! id) as [p|] eqn:Hp.
  - destruct (facilitator_confirms_or_refuses fetch
                (verify_request s id tx p)) as [Hc|Hr].
    + destruct Hc as (r & body & Hf & Hok & Hj & Hv).
      destruct (verifyPayment_confirmed fetch now id tx s p r body)
        as [_ ->]; try done.
      match goal with |- context [settlePayment fetch id tx ?s1] =>
        destruct (settlePayment_total fetch id tx s1) as (entry & -> & _)
      end.
      eexists _, _. split; [reflexivity|]. simpl.
      by rewrite <- app_assoc.
    + destruct (verifyPayment_refused fetch now id tx s p Hp Hr)
        as (v & entry & -> & Hv).
      eexists _, _. split; [reflexivity|]. simpl. by rewrite Hv.
  - rewrite verifyPayment_unknown by done.
    eexists _, _. split; [reflexivity|]. simpl. by rewrite app_nil_r.
Qed.

Section IssueAndRedeem.
Variable uuid_stream : nat → string.
Variable nonce_stream : nat → string.
Hypothesis uuid_unique : ∀ i j, uuid_stream i = uuid_stream j → i = j.

Lemma generatePaymentRequest_state now scenario s :
  snd (generatePaymentRequest uuid_stream nonce_stream now scenario s) =
  snd (create402Response uuid_stream nonce_stream now scenario s).
Proof. reflexivity. Qed.

(** X3. Issue, then redeem. The verify request for a challenge that
    [generatePaymentRequest] issued carries the price and currency of the
    scenario table and the service's own recipient, whatever the caller
    sends along; and once the facilitator confirms, the store of pending
    payments is exactly what it was before the challenge was issued. *)
Theorem issue_then_redeem (now now' : Z) (scenario : Scenario)
    (fetch : Fetch) (tx : string) (s : State) :
  ids_were_drawn uuid_stream s →
  let config := X402_PAYMENT_SCENARIOS scenario in
  let id := uuid_stream (drawn s) in
  let s1 :=
    snd (generatePaymentRequest uuid_stream nonce_stream now scenario s) in
  let req :=
    PostVerify (facilitatorUrl s +:+ "/verify") id tx (sc_amount config)
      (recipientAddress s) (sc_currency config) in
  (∃ rest, sent (snd (verifyPayment fetch now' id tx s1)) =
           sent s ++ req :: rest) ∧
  (facilitator_confirms fetch req →
   ∃ v s2,
     verifyPayment fetch now' id tx s1 = (Normal v, s2) ∧
     verified v = true ∧
     pendingPayments s2 = pendingPayments s ∧
     sent s2 =
       sent s ++ [req; PostSettle (facilitatorUrl s +:+ "/settle") id tx]).
Proof.
  intros Hinv config id s1 req.
  pose proof (next_uuid_fresh uuid_stream uuid_unique s Hinv) as Hfresh.
  subst s1. rewrite generatePaymentRequest_state, create402Response_state.
  fold config id.
  set (challenge := mkPaymentResponse id _ _ _ _ _ _).
  set (s1 := mkState _ _ _ _ _ _).
  assert (pendingPayments s1 !! id = Some challenge) as Hp
    by apply lookup_insert_eq.
  assert (verify_request s1 id tx challenge = req) as Hreq by reflexivity.
  assert (facilitator_confirms fetch req →
          ∃ v s2,
            verifyPayment fetch now' id tx s1 = (Normal v, s2) ∧
            verified v = true ∧
            pendingPayments s2 = pendingPayments s ∧
            sent s2 =
              sent s ++
              [req; PostSettle (facilitatorUrl s +:+ "/settle") id tx])
    as Hconf.
  { intros (r & body & Hf & Hok & Hj & Hv).
    destruct (verifyPayment_confirmed fetch now' id tx s1 challenge r body)
      as [_ ->]; try done.
    match goal with |- context [settlePayment fetch id tx ?s1] =>
      destruct (settlePayment_total fetch id tx s1) as (entry & -> & _)
    end.
    eexists _, _. split; [reflexivity|]. simpl. split; [done|].
    split; [by apply delete_insert_id|]. by rewrite <- app_assoc. }
  split; [|exact Hconf].
  destruct (facilitator_confirms_or_refuses fetch req) as [Hc|Hr].
  - destruct (Hconf Hc) as (v & s2 & -> & _ & _ & Hsent). simpl.
    rewrite Hsent. eauto.
  - rewrite <- Hreq in Hr.
    destruct (verifyPayment_refused fetch now' id tx s1 challenge Hp Hr)
      as (v & entry & -> & _). simpl. rewrite Hreq. eauto.
Qed.
End IssueAndRedeem.

Lemma issue_then_redeem_witness :
  ids_were_drawn sample_stream fresh_service ∧
  ∃ v s2,
    verifyPayment facilitator_up 2000000 "0" "0xabc" one_challenge =
      (Normal v, s2) ∧
    verified v = true ∧
    pendingPayments s2 = pendingPayments fresh_service.
Proof.
  split; [exact fresh_service_invariant|].
  destruct (issue_then_redeem sample_stream sample_stream
              sample_stream_unique 1000000 2000000 AI_PROJECT_CREATION
              facilitator_up "0xabc" fresh_service fresh_service_invariant)
    as [_ Hconf].
  destruct Hconf as (v & s2 & Hrun & Hv & Hstore & _).
  { eexists _, _. repeat split; reflexivity. }
  exists v, s2. repeat split; assumption.
Defined.

(** *** Expiry *)

Lemma unix_seconds_mono a b : a ≤ b → unix_seconds a ≤ unix_seconds b.
Proof. intros H. unfold unix_seconds. apply Z.div_le_mono; lia. Qed.

Lemma unix_seconds_shift a k :
  unix_seconds (a + k * 1000) = unix_seconds a + k.
Proof. unfold unix_seconds. apply Z.div_add. lia. Qed.

(** X4. How long a challenge lives. A challenge issued at clock reading
    [now] survives a sweep at reading [later] exactly when the second of
    the sweep is not past the second of issue plus 3600; the sweep at the
    deadline second itself keeps it. In milliseconds: it survives every
    sweep up to a full hour after issue and no sweep from 3601 seconds
    on. *)
Theorem challenge_lifetime (uuid_stream nonce_stream : nat → string)
    (now later : Z) (scenario : Scenario) (s : State) :
  let id := uuid_stream (drawn s) in
  let s1 :=
    snd (generatePaymentRequest uuid_stream nonce_stream now scenario s) in
  let s2 := snd (cleanupExpiredPayments later s1) in
  isPaymentPending id s1 = true ∧
  isPaymentPending id s2 =
    bool_decide (unix_seconds later ≤ unix_seconds now + 3600) ∧
  (later ≤ now + 3600000 → isPaymentPending id s2 = true) ∧
  (now + 3601000 ≤ later → isPaymentPending id s2 = false).
Proof.
  intros id s1 s2.
  assert (isPaymentPending id s2 =
          bool_decide (unix_seconds later ≤ unix_seconds now + 3600)) as Hs2.
  { subst s1 s2. unfold isPaymentPending.
    rewrite cleanup_store, generatePaymentRequest_state,
      create402Response_state.
    simpl. rewrite map_lookup_filter, lookup_insert_eq. simpl.
    unfold expired. simpl.
    destruct (decide (unix_seconds later ≤ unix_seconds now + 3600)).
    - rewrite option_guard_True by lia.
      rewrite !bool_decide_eq_true_2; eauto.
    - rewrite option_guard_False by lia.
      rewrite !bool_decide_eq_false_2; [done|lia|].
      by intros [? ?]. }
  split; [|split; [exact Hs2|split]].
  - subst s1. unfold isPaymentPending.
    rewrite generatePaymentRequest_state, create402Response_state. simpl.
    rewrite lookup_insert_eq. apply bool_decide_eq_true_2. eauto.
  - intros Hle. rewrite Hs2. apply bool_decide_eq_true_2.
    apply unix_seconds_mono in Hle.
    replace (now + 3600000) with (now + 3600 * 1000) in Hle by lia.
    by rewrite unix_seconds_shift in Hle.
  - intros Hle. rewrite Hs2. apply bool_decide_eq_false_2.
    apply unix_seconds_mono in Hle.
    replace (now + 3601000) with (now + 3601 * 1000) in Hle by lia.
    rewrite unix_seconds_shift in Hle. lia.
Qed.

Lemma challenge_lifetime_witness :
  (4600999 ≤ 1000000 + 3600000 ∨ True) ∧
  isPaymentPending "0"
    (snd (cleanupExpiredPayments 4600999 one_challenge)) = true ∧
  isPaymentPending "0"
    (snd (cleanupExpiredPayments 4601000 one_challenge)) = false.
Proof.
  split; [by right|].
  destruct (challenge_lifetime sample_stream sample_stream 1000000 4600999
              AI_PROJECT_CREATION fresh_service) as (_ & H1 & _ & _).
  destruct (challenge_lifetime sample_stream sample_stream 1000000 4601000
              AI_PROJECT_CREATION fresh_service) as (_ & _ & _ & H2).
  split; [exact H1|]. apply H2. lia.
Defined.

(** X5. Sweeps compose: sweeping at one clock reading and then at another
    leaves the same pending payments as a single sweep at the later of the
    two readings, in whichever order the two sweeps ran. *)
Theorem sweeps_compose (t1 t2 : Z) (s : State) :
  pendingPayments
    (snd (cleanupExpiredPayments t2 (snd (cleanupExpiredPayments t1 s)))) =
  pendingPayments (snd (cleanupExpiredPayments (Z.max t1 t2) s)).
Proof.
  rewrite !cleanup_store, map_filter_filter.
  apply map_filter_ext. intros id p _. unfold expired. simpl.
  destruct (Z.max_spec t1 t2) as [[Hlt ->]|[Hle ->]].
  - pose proof (unix_seconds_mono t1 t2 ltac:(lia)). lia.
  - pose proof (unix_seconds_mono t2 t1 Hle). lia.
Qed.





(** *** A sweep while a verification is in flight *)

(** X7. Once a [verifyPayment] call has read its session and is waiting
    for the facilitator, the pending store no longer decides its outcome.
    If the sweep runs in that window, whatever it removes, and the
    facilitator then confirms, the call still returns [verified = true]
    and still sends the settle request. *)
Theorem sweep_does_not_stop_verification_in_flight (fetch : Fetch)
    (now sweep_time now' : Z) (id tx : string) (s : State)
    (p : X402PaymentResponse) :
  pendingPayments s !! id = Some p →
  facilitator_confirms fetch (verify_request s id tx p) →
  let started := resume fetch now (Called id tx) s in
  let swept := snd (cleanupExpiredPayments sweep_time (snd started)) in
  ∃ v s',
    run_alone fetch now' 3 (fst started) swept = (Returned (Normal v), s') ∧
    verified v = true ∧
    pendingPayments s' !! id = None ∧
    ∃ log,
      sent s' = sent s ++ [verify_request s id tx p; settle_request s id tx]
      ∧ console s' = console s ++ log.
Proof.
  intros Hp (r & body & Hf & Hok & Hj & Hv) started swept.
  assert (resume fetch now (Called id tx) s =
          (AwaitVerify id tx p (verify_request s id tx p),
           send (verify_request s id tx p) s)) as Hstart
    by (unfold resume; by rewrite Hp).
  subst started swept. rewrite Hstart.
  cbv zeta. simpl fst. simpl snd. rewrite cleanup_state.
  unfold verify_request, settle_request in *.
  assert (∀ entry,
    ∃ log,
      (sent s ++ [PostVerify (facilitatorUrl s +:+ "/verify") id tx
                    (amount p) (recipient p) (currency p)]) ++
      [PostSettle (facilitatorUrl s +:+ "/settle") id tx] =
      sent s ++ [PostVerify (facilitatorUrl s +:+ "/verify") id tx
                   (amount p) (recipient p) (currency p);
                 PostSettle (facilitatorUrl s +:+ "/settle") id tx] ∧
      ((console s ++
        sweep_log (unix_seconds sweep_time)
          (map_to_list (pendingPayments s))) ++
       [PAYMENT_VERIFIED id tx (or_string (r_amount body) (amount p))
          (unix_seconds now')]) ++ [entry] = console s ++ log) as Hlists.
  { intros entry. eexists. rewrite <- !app_assoc. split; reflexivity. }
  destruct (fetch (PostSettle (facilitatorUrl s +:+ "/settle") id tx))
    as [r'|e'] eqn:Hsettle; [destruct (ok r') eqn:Hok'|];
    eexists _, _;
    (split;
     [unfold run_alone, resume; simpl; rewrite Hf; simpl; rewrite Hok; simpl;
      rewrite Hj; simpl; rewrite Hv; simpl; rewrite Hsettle; simpl;
      rewrite ?Hok'; simpl; reflexivity|]);
    simpl; (split; [done|]); (split; [apply lookup_delete_eq|]);
    apply Hlists.
Qed.

Lemma sweep_does_not_stop_verification_in_flight_witness :
  pendingPayments one_challenge !! "0" = Some sample_challenge ∧
  facilitator_confirms facilitator_up
    (verify_request one_challenge "0" "0xabc" sample_challenge) ∧
  isPaymentPending "0"
    (snd (cleanupExpiredPayments 10000000
            (snd (resume facilitator_up 9999000 (Called "0" "0xabc")
                    one_challenge)))) = false ∧
  ∃ v s',
    run_alone facilitator_up 10001000 3
      (fst (resume facilitator_up 9999000 (Called "0" "0xabc") one_challenge))
      (snd (cleanupExpiredPayments 10000000
              (snd (resume facilitator_up 9999000 (Called "0" "0xabc")
                      one_challenge)))) = (Returned (Normal v), s') ∧
    verified v = true.
Proof.
  assert (facilitator_confirms facilitator_up
            (verify_request one_challenge "0" "0xabc" sample_challenge))
    as Hc.
  { eexists _, _. repeat split; reflexivity. }
  split; [exact one_challenge_lookup|]. split; [exact Hc|].
  split; [by vm_compute|].
  destruct (sweep_does_not_stop_verification_in_flight facilitator_up
              9999000 10000000 10001000 "0" "0xabc" one_challenge
              sample_challenge one_challenge_lookup Hc)
    as (v & s' & Hrun & Hv & _).
  exists v, s'. split; [exact Hrun|exact Hv].
Defined.

End PaymentServiceMore.

(** * Properties of the HTTP handlers *)

Section GatewayProperties.
Import X402 Gateway.
Local Open Scope list_scope.

Lemma cleanupExpiredPayments_state_idem now s :
  snd (cleanupExpiredPayments now (snd (cleanupExpiredPayments now s))) =
  snd (cleanupExpiredPayments now s).
Proof.
  rewrite (cleanup_nothing_expired now (snd (cleanupExpiredPayments now s))).
  - done.
  - intros k p Hk. rewrite cleanup_store in Hk.
    by apply map_lookup_filter_Some in Hk as [_ Hk].
Qed.

Section Requests.
Variable uuid_stream : nat → string.
Variable nonce_stream : nat → string.

Lemma create402Response_run now kind s :
  ∃ envelope,
    create402Response uuid_stream nonce_stream now kind s =
      (Normal envelope, after_issue uuid_stream nonce_stream now kind s) ∧
    r402_status envelope = 402 ∧
    pb_id (b_payment (r402_body envelope)) = uuid_stream (drawn s) ∧
    pb_amount (b_payment (r402_body envelope)) =
      sc_amount (X402_PAYMENT_SCENARIOS kind) ∧
    pb_deadline (b_payment (r402_body envelope)) = unix_seconds now + 3600 ∧
    pendingPayments (after_issue uuid_stream nonce_stream now kind s) =
      <[uuid_stream (drawn s) :=
          issued uuid_stream nonce_stream now kind s]> (pendingPayments s).
Proof.
  eexists. split.
  - unfold create402Response, generatePaymentRequest, uuidv4, mbind, mret,
      M_bind, M_ret, bind, ret, get_state, pending_set, log, set_pending.
    simpl. reflexivity.
  - done.
Qed.

Lemma open_session_run kind requested error user meta logged now now' app :
  let id := uuid_stream (drawn (x402Service app)) in
  ∃ envelope log,
    open_session uuid_stream nonce_stream kind requested error user meta
      logged now now' app =
      (mkHttp 402 (r402_headers envelope)
              (PaymentRequired (r402_body envelope)),
       mkApp (after_issue uuid_stream nonce_stream now kind (x402Service app))
             (<[id := mkSession user kind (object meta) now']>
                (paymentSessions app))
             (app_console app ++ [log])) ∧
    pb_id (b_payment (r402_body envelope)) = id ∧
    pb_amount (b_payment (r402_body envelope)) =
      sc_amount (X402_PAYMENT_SCENARIOS kind) ∧
    pb_deadline (b_payment (r402_body envelope)) = unix_seconds now + 3600.
Proof.
  intros id.
  destruct (create402Response_run now kind (x402Service app))
    as (envelope & Hrun & _ & Hid & Hamount & Hdl & _).
  exists envelope. eexists. unfold open_session. rewrite Hrun.
  split; [|done]. unfold write_log, with_sessions, with_service. simpl.
  rewrite Hid. reflexivity.
Qed.

(** A request handler whose fields are complete is [open_session] for
    the scenario of its action and the caller's user id. *)
Lemma request_handler_open a now now' body app :
  request_complete a body = true →
  ∃ requested error meta logged,
    request_handler uuid_stream nonce_stream a now now' (Some body) app =
    open_session uuid_stream nonce_stream (price_of a) requested error
      (field body "userId") meta logged now now' app.
Proof.
  intros Hcomplete. destruct a; simpl request_handler; simpl in Hcomplete.
  - unfold requestAIProjectCreation. rewrite Hcomplete.
    eexists _, _, _, _. reflexivity.
  - unfold requestProjectApplication.
    apply andb_true_iff in Hcomplete as [-> ->].
    eexists _, _, _, _. reflexivity.
  - unfold requestMilestoneApproval.
    apply andb_true_iff in Hcomplete as [[-> ->]%andb_true_iff H3].
    apply negb_true_iff in H3 as ->.
    eexists _, _, _, _. reflexivity.
  - unfold requestDisputeCreation.
    apply andb_true_iff in Hcomplete as [H123 ->].
    apply andb_true_iff in H123 as [[-> ->]%andb_true_iff H3].
    apply negb_true_iff in H3 as ->.
    eexists _, _, _, _. reflexivity.
Qed.

End Requests.

(** *** Processing a payment *)

Lemma verifyPayment_cases fetch now id tx s :
  ∃ v s',
    verifyPayment fetch now id tx s = (Normal v, s') ∧
    if verified v then
      pendingPayments s' = delete id (pendingPayments s) ∧
      ∃ p, pendingPayments s !! id = Some p ∧
           facilitator_confirms fetch (verify_request s id tx p) ∧
           sent s' = sent s ++ [verify_request s id tx p;
                                settle_request s id tx]
    else pendingPayments s' = pendingPayments s.
Proof.
  destruct (pendingPayments s !! id) as [p|] eqn:Hp.
  - destruct (facilitator_confirms_or_refuses fetch
                (verify_request s id tx p)) as [Hc|Hr].
    + pose proof Hc as (r & body & Hf & Hok & Hj & Hv).
      destruct (verifyPayment_confirmed fetch now id tx s p r body)
        as [_ ->]; try done.
      match goal with |- context [settlePayment fetch id tx ?s1] =>
        destruct (settlePayment_total fetch id tx s1) as (entry & -> & _)
      end.
      eexists _, _. split; [reflexivity|]. simpl. split; [done|].
      exists p. rewrite <- app_assoc. done.
    + destruct (verifyPayment_refused fetch now id tx s p Hp Hr)
        as (v & entry & -> & Hv).
      eexists _, _. split; [reflexivity|]. by rewrite Hv.
  - rewrite verifyPayment_unknown by done.
    eexists _, _. split; [reflexivity|]. done.
Qed.

Section Processing.
Variable render : JsValue → string.

(** What [redeem] does, by the verdict of the service and the presence of
    a session. *)
Lemma redeem_run fetch now paid error logged answer id tx app :
  ∃ v svc,
    verifyPayment fetch now id tx (x402Service app) = (Normal v, svc) ∧
    redeem fetch now paid error logged answer id tx app =
      if verified v then
        match paymentSessions app !! id with
        | Some session =>
            (json_response 200 (answer session v),
             mkApp svc (delete id (paymentSessions app))
                   (app_console app ++ [LogFields paid (logged session)]))
        | None =>
            (json_response 404 (ErrorBody "Payment session not found"),
             mkApp svc (paymentSessions app) (app_console app))
        end
      else
        (json_response 400 (ErrorBody "Payment verification failed"),
         mkApp svc (paymentSessions app) (app_console app)).
Proof.
  destruct (verifyPayment_cases fetch now id tx (x402Service app))
    as (v & svc & Hrun & _).
  exists v, svc. split; [exact Hrun|]. unfold redeem. rewrite Hrun.
  destruct (verified v); [|done]. simpl.
  by destruct (paymentSessions app !! id).
Qed.

(** Every process handler is [redeem] with an answer that counts as a
    success, once the ids are not empty. *)
Lemma process_handler_is_redeem a fetch now now' id tx app :
  id ≠ "" → tx ≠ "" →
  ∃ paid error logged answer,
    process_handler render a fetch now now' id tx app =
      redeem fetch now paid error logged answer id tx app ∧
    ∀ session v, is_success (json_response 200 (answer session v)) = true.
Proof.
  intros Hid Htx. destruct a; simpl process_handler.
  - unfold processAIProjectCreation.
    rewrite !bool_decide_eq_false_2 by done. simpl orb. cbv iota.
    eexists _, _, _, _. split; [reflexivity|]. done.
  - eexists _, _, _, _. split; [reflexivity|]. done.
  - eexists _, _, _, _. split; [reflexivity|]. done.
  - eexists _, _, _, _. split; [reflexivity|]. done.
Qed.

(** X9. The four process handlers, for ids that are not empty. The answer
    is 400 when the service does not verify, and then no session and no
    pending payment changes. It is 200 with the handler's success body
    when the service verifies and a session is registered under the id,
    and then the session is dropped. It is 404 when the service verifies
    but no session is registered; in that case, as in the 200 case, the
    payment has been redeemed and settled all the same and is no longer
    pending. *)
Theorem process_handlers (a : Action) (fetch : Fetch) (now now' : Z)
    (id tx : string) (app : App) :
  id ≠ "" → tx ≠ "" →
  ∃ v svc,
    verifyPayment fetch now id tx (x402Service app) = (Normal v, svc) ∧
    let result := process_handler render a fetch now now' id tx app in
    x402Service (snd result) = svc ∧
    if verified v then
      isPaymentPending id svc = false ∧
      last (sent svc) = Some (settle_request (x402Service app) id tx) ∧
      match paymentSessions app !! id with
      | Some session =>
          http_status (fst result) = 200 ∧
          is_success (fst result) = true ∧
          paymentSessions (snd result) = delete id (paymentSessions app)
      | None =>
          http_status (fst result) = 404 ∧
          http_body (fst result) = ErrorBody "Payment session not found" ∧
          paymentSessions (snd result) = paymentSessions app
      end
    else
      http_status (fst result) = 400 ∧
      paymentSessions (snd result) = paymentSessions app ∧
      pendingPayments svc = pendingPayments (x402Service app).
Proof.
  intros Hid Htx.
  destruct (process_handler_is_redeem a fetch now now' id tx app Hid Htx)
    as (paid & error & logged & answer & -> & Hsuccess).
  destruct (redeem_run fetch now paid error logged answer id tx app)
    as (v & svc & Hrun & ->).
  exists v, svc. split; [exact Hrun|].
  destruct (verifyPayment_cases fetch now id tx (x402Service app))
    as (v' & svc' & Hrun' & Hcases).
  rewrite Hrun in Hrun'. injection Hrun' as <- <-.
  destruct (verified v).
  - destruct Hcases as (Hstore & p & Hp & _ & Hsent).
    assert (isPaymentPending id svc = false) as Hgone.
    { unfold isPaymentPending. rewrite Hstore, lookup_delete_eq.
      apply bool_decide_eq_false_2. by intros [? ?]. }
    assert (last (sent svc) = Some (settle_request (x402Service app) id tx))
      as Hlast.
    { rewrite Hsent.
      change [verify_request (x402Service app) id tx p;
              settle_request (x402Service app) id tx]
        with ([verify_request (x402Service app) id tx p] ++
              [settle_request (x402Service app) id tx]).
      by rewrite app_assoc, last_snoc. }
    destruct (paymentSessions app !! id) as [session|]; simpl.
    + rewrite Hsuccess. done.
    + done.
  - simpl. done.
Qed.

Lemma redeem_success fetch now paid error logged answer id tx app :
  is_success (fst (redeem fetch now paid error logged answer id tx app))
    = true →
  pendingPayments
    (x402Service (snd (redeem fetch now paid error logged answer id tx app)))
    !! id = None ∧
  paymentSessions
    (snd (redeem fetch now paid error logged answer id tx app)) !! id = None.
Proof.
  destruct (redeem_run fetch now paid error logged answer id tx app)
    as (v & svc & Hrun & ->).
  destruct (verifyPayment_cases fetch now id tx (x402Service app))
    as (v' & svc' & Hrun' & Hcases).
  rewrite Hrun in Hrun'. injection Hrun' as <- <-.
  destruct (verified v); [|done].
  destruct Hcases as (Hstore & _).
  destruct (paymentSessions app !! id); [|done]. simpl. intros _.
  rewrite Hstore. split; apply lookup_delete_eq.
Qed.

Lemma redeem_unknown fetch now paid error logged answer id tx app :
  pendingPayments (x402Service app) !! id = None →
  http_status (fst (redeem fetch now paid error logged answer id tx app))
    = 400.
Proof.
  intros Hnone. unfold redeem. by rewrite verifyPayment_unknown.
Qed.

End Processing.

(** *** Paying for one action, redeeming another *)

Section CrossScenario.
Variable uuid_stream : nat → string.
Variable nonce_stream : nat → string.
Variable render : JsValue → string.

(** X11. No process handler looks at the scenario of the session it
    redeems. A challenge requested through any of the four request
    handlers, once the facilitator confirms its payment (at the price of
    the requested action), is accepted by each of the four process
    handlers: the answer is 200 with the success body of the handler that
    was called, not of the action that was paid for. *)
Theorem any_payment_redeems_any_action (paid_for performed : Action)
    (fetch : Fetch) (now now' later later' : Z) (body : Body) (tx : string)
    (app : App) :
  let id := uuid_stream (drawn (x402Service app)) in
  let svc := x402Service app in
  let requested :=
    snd (request_handler uuid_stream nonce_stream paid_for now now'
           (Some body) app) in
  let result :=
    process_handler render performed fetch later later' id tx requested in
  request_complete paid_for body = true →
  id ≠ "" → tx ≠ "" →
  facilitator_confirms fetch
    (PostVerify (facilitatorUrl svc +:+ "/verify") id tx
       (sc_amount (X402_PAYMENT_SCENARIOS (price_of paid_for)))
       (recipientAddress svc)
       (sc_currency (X402_PAYMENT_SCENARIOS (price_of paid_for)))) →
  http_status (fst result) = 200 ∧
  is_success (fst result) = true ∧
  (∃ session, paymentSessions requested !! id = Some session ∧
              scenario session = price_of paid_for) ∧
  isPaymentPending id (x402Service (snd result)) = false.
Proof.
  intros id svc requested result Hcomplete Hid Htx Hconf.
  destruct (request_handler_open uuid_stream nonce_stream paid_for now now'
              body app Hcomplete)
    as (tag & etag & meta & logged0 & Hopen).
  destruct (open_session_run uuid_stream nonce_stream (price_of paid_for)
              tag etag (field body "userId") meta logged0 now now' app)
    as (envelope & log & Hrun0 & _).
  assert (requested =
          mkApp (after_issue uuid_stream nonce_stream now (price_of paid_for)
                   svc)
                (<[id := mkSession (field body "userId") (price_of paid_for)
                           (object meta) now']> (paymentSessions app))
                (app_console app ++ [log])) as Hrequested.
  { subst requested. rewrite Hopen, Hrun0. reflexivity. }
  assert (pendingPayments (x402Service requested) !! id =
          Some (issued uuid_stream nonce_stream now (price_of paid_for) svc))
    as Hpending.
  { rewrite Hrequested. apply lookup_insert_eq. }
  assert (∃ session, paymentSessions requested !! id = Some session ∧
                     scenario session = price_of paid_for)
    as (session & Hsession & Hscen).
  { rewrite Hrequested. eexists. split; [apply lookup_insert_eq|done]. }
  assert (facilitatorUrl (x402Service requested) = facilitatorUrl svc ∧
          recipientAddress (x402Service requested) = recipientAddress svc)
    as [Hurl Hrec] by (by rewrite Hrequested).
  clearbody requested.
  destruct (process_handler_is_redeem render performed fetch later later'
              id tx requested Hid Htx)
    as (paid & error & logged & answer & Heq & Hsuccess).
  subst result. rewrite Heq.
  destruct (redeem_run fetch later paid error logged answer id tx requested)
    as (v & svc' & Hrun & ->).
  destruct Hconf as (r & rbody & Hf & Hok & Hj & Hv).
  destruct (verifyPayment_confirmed fetch later id tx (x402Service requested)
              _ r rbody Hpending) as [_ Hrun'].
  { unfold verify_request. rewrite Hurl. unfold issued. simpl.
    exact Hf. }
  { exact Hok. } { exact Hj. } { exact Hv. }
  rewrite Hrun in Hrun'.
  match type of Hrun' with context [settlePayment fetch id tx ?s1] =>
    destruct (settlePayment_total fetch id tx s1) as (entry & Hs & _);
    rewrite Hs in Hrun'
  end.
  injection Hrun' as -> ->. simpl. rewrite Hsession. simpl.
  rewrite Hsuccess. split; [done|]. split; [done|]. split; [eauto|].
  unfold isPaymentPending. simpl. rewrite lookup_delete_eq.
  apply bool_decide_eq_false_2. by intros [? ?].
Qed.
End CrossScenario.

Lemma sample_body_complete a : request_complete a sample_body = true.
Proof. destruct a; reflexivity. Qed.

(** The anti-spam fee of half a dollar, redeemed at the dispute endpoint
    whose bond is ten. *)
Lemma any_payment_redeems_any_action_witness :
  X402_PAYMENT_SCENARIOS (price_of ForApplication) =
    mkScenario "500000" "USDC" "Project Application Signal Fee" ∧
  X402_PAYMENT_SCENARIOS (price_of ForDispute) =
    mkScenario "10000000" "USDC" "Dispute Resolution Bond" ∧
  http_status
    (fst (process_handler sample_render ForDispute facilitator_up
            2000000 2000001 "0" "0xabc"
            (snd (request_handler sample_stream sample_stream ForApplication
                    1000000 1000001 (Some sample_body) fresh_app)))) = 200.
Proof.
  split; [reflexivity|]. split; [reflexivity|].
  destruct (any_payment_redeems_any_action sample_stream sample_stream
              sample_render ForApplication ForDispute facilitator_up
              1000000 1000001 2000000 2000001 sample_body "0xabc" fresh_app
              (sample_body_complete ForApplication)
              ltac:(discriminate) ltac:(discriminate)) as [H _].
  { eexists _, _. repeat split; reflexivity. }
  exact H.
Defined.

(** *** The hourly timer *)

Lemma fold_delete_dropped {A} (P : A → Prop) `{!∀ x, Decision (P x)}
    (l : list (string * A)) (m : gmap string A) k x :
  (k, x) ∈ l → P x →
  foldl (λ m e, if bool_decide (P e.2) then delete e.1 m else m) m l !! k
    = None.
Proof.
  revert m. induction l as [|[k' x'] l IH]; intros m Hin HP.
  - by apply not_elem_of_nil in Hin.
  - simpl. apply elem_of_cons in Hin as [Heq|Hin]; [|by apply IH].
    inversion Heq; subst k' x'. rewrite bool_decide_eq_true_2 by done.
    clear. generalize (delete k m), (lookup_delete_eq m k).
    induction l as [|e l IH]; intros m' Hm'; [done|].
    simpl. apply IH. destruct (bool_decide _); [|done].
    rewrite lookup_delete. by case_decide.
Qed.

Lemma fold_delete_kept {A} (P : A → Prop) `{!∀ x, Decision (P x)}
    (l : list (string * A)) (m : gmap string A) k :
  (∀ x, (k, x) ∈ l → ¬ P x) →
  foldl (λ m e, if bool_decide (P e.2) then delete e.1 m else m) m l !! k
    = m !! k.
Proof.
  revert m. induction l as [|[k' x'] l IH]; intros m Hkeep; [done|].
  simpl. rewrite IH.
  - destruct (bool_decide (P x')) eqn:HP; [|done].
    apply bool_decide_eq_true_1 in HP.
    apply lookup_delete_ne. intros ->.
    apply (Hkeep x'); [apply list_elem_of_here|done].
  - intros x Hin. apply Hkeep. by apply list_elem_of_further.
Qed.

Lemma fold_delete_filter {A} (P : A → Prop) `{!∀ x, Decision (P x)}
    (m : gmap string A) :
  foldl (λ m e, if bool_decide (P e.2) then delete e.1 m else m) m
        (map_to_list m) = filter (λ kv, ¬ P kv.2) m.
Proof.
  apply map_eq. intros k. rewrite map_lookup_filter.
  destruct (m !! k) as [x|] eqn:Hk; simpl.
  - destruct (decide (P x)) as [HP|HP].
    + rewrite option_guard_False by (simpl; tauto).
      apply fold_delete_dropped with x; [by apply elem_of_map_to_list|done].
    + rewrite option_guard_True by done.
      rewrite fold_delete_kept; [done|].
      intros x' Hin HP'. apply elem_of_map_to_list in Hin.
      rewrite Hk in Hin. by inversion Hin; subst.
  - rewrite fold_delete_kept; [done|].
    intros x' Hin _. apply elem_of_map_to_list in Hin. congruence.
Qed.

Lemma expire_sessions_fold now l app :
  foldl (expire_session now) app l =
  mkApp (x402Service app)
    (foldl (λ m e, if bool_decide (session_stale now e.2)
                   then delete e.1 m else m) (paymentSessions app) l)
    (app_console app ++ expiry_lines now l).
Proof.
  revert app. induction l as [|[k x] l IH]; intros app.
  - simpl. unfold expiry_lines. simpl. rewrite app_nil_r. by destruct app.
  - simpl. rewrite IH. unfold expire_session, expiry_lines, session_stale.
    simpl. destruct (bool_decide (now - session_timestamp x > 3600000));
      simpl; [|done].
    by rewrite <- app_assoc.
Qed.

Lemma expiry_lines_nil now l :
  (∀ e, e ∈ l → ¬ session_stale now e.2) → expiry_lines now l = [].
Proof.
  induction l as [|e l IH]; intros Hfresh; [done|].
  unfold expiry_lines. simpl.
  rewrite bool_decide_eq_false_2
    by (apply Hfresh; apply list_elem_of_here).
  apply IH. intros e' He'. apply Hfresh. by apply list_elem_of_further.
Qed.

Lemma hourly_cleanup_run t1 t2 app :
  hourly_cleanup t1 t2 app =
  mkApp (snd (cleanupExpiredPayments t1 (x402Service app)))
    (filter (λ kv, ¬ session_stale t2 kv.2) (paymentSessions app))
    (app_console app ++ expiry_lines t2 (map_to_list (paymentSessions app))).
Proof.
  unfold hourly_cleanup. rewrite expire_sessions_fold. simpl.
  by rewrite fold_delete_filter.
Qed.

(** X12. The hourly timer. One run sweeps the service's challenges at its
    first clock reading and removes exactly the sessions that are more than
    3600000 ms old at its second: a session exactly one hour old stays, and
    every session that stays is unchanged. Running the timer again with
    the same readings changes nothing at all. *)
Theorem hourly_cleanup_exact (t1 t2 : Z) (app : App) :
  let app' := hourly_cleanup t1 t2 app in
  x402Service app' = snd (cleanupExpiredPayments t1 (x402Service app)) ∧
  (∀ id, paymentSessions app' !! id =
         match paymentSessions app !! id with
         | Some session =>
             if decide (t2 - session_timestamp session ≤ 3600000)
             then Some session else None
         | None => None
         end) ∧
  hourly_cleanup t1 t2 app' = app'.
Proof.
  intros app'. subst app'. rewrite hourly_cleanup_run. simpl.
  split; [done|]. split.
  - intros id. rewrite map_lookup_filter.
    destruct (paymentSessions app !! id) as [session|]; [|done]. simpl.
    unfold session_stale.
    destruct (decide (t2 - session_timestamp session ≤ 3600000)).
    + rewrite option_guard_True; [done|]. simpl. lia.
    + rewrite option_guard_False; [done|]. simpl. lia.
  - rewrite hourly_cleanup_run. simpl.
    pose proof (cleanupExpiredPayments_state_idem t1 (x402Service app))
      as Hidem.
    rewrite Hidem. f_equal.
    + apply map_filter_id. intros k x Hk.
      by apply map_lookup_filter_Some in Hk as [_ Hk].
    + assert (expiry_lines t2
                (map_to_list
                   (filter (λ kv : string * Session, ¬ session_stale t2 kv.2)
                      (paymentSessions app))) = []) as ->.
      { apply expiry_lines_nil. intros [k x] Hin.
        apply elem_of_map_to_list in Hin.
        by apply map_lookup_filter_Some in Hin as [_ Hk]. }
      by rewrite app_nil_r.
Qed.

(** *** Replay, after any history *)

Section Replay.
Variable uuid_stream : nat → string.
Variable nonce_stream : nat → string.
Variable render : JsValue → string.

Lemma request_handler_store a now now' body app :
  let app' :=
    snd (request_handler uuid_stream nonce_stream a now now' body app) in
  (x402Service app' = x402Service app ∧
   paymentSessions app' = paymentSessions app) ∨
  (x402Service app' =
     snd (create402Response uuid_stream nonce_stream now (price_of a)
            (x402Service app)) ∧
   ∃ session,
     paymentSessions app' =
       <[uuid_stream (drawn (x402Service app)) := session]>
         (paymentSessions app)).
Proof.
  destruct body as [body|]; [|destruct a; by left].
  destruct (request_complete a body) eqn:Hcomplete.
  - right.
    destruct (request_handler_open uuid_stream nonce_stream a now now' body
                app Hcomplete) as (requested & error & meta & logged & ->).
    destruct (open_session_run uuid_stream nonce_stream (price_of a)
                requested error (field body "userId") meta logged now now'
                app) as (envelope & line & -> & _).
    cbn [snd x402Service paymentSessions]. split; [done|]. by eexists.
  - left. destruct a; cbn [request_handler request_complete] in *;
      unfold requestAIProjectCreation, requestProjectApplication,
        requestMilestoneApproval, requestDisputeCreation;
      cbn zeta;
      repeat match goal with
             | |- context [truthy ?v] => destruct (truthy v)
             | |- context [is_undefined ?v] => destruct (is_undefined v)
             end; done.
Qed.

Lemma process_handler_store a fetch now now' id tx app :
  let app' := snd (process_handler render a fetch now now' id tx app) in
  (x402Service app' = x402Service app ∨
   x402Service app' = snd (verifyPayment fetch now id tx (x402Service app))) ∧
  (paymentSessions app' = paymentSessions app ∨
   paymentSessions app' = delete id (paymentSessions app)).
Proof.
  assert (∀ paid error logged answer,
    let app' :=
      snd (redeem fetch now paid error logged answer id tx app) in
    (x402Service app' = x402Service app ∨
     x402Service app' =
       snd (verifyPayment fetch now id tx (x402Service app))) ∧
    (paymentSessions app' = paymentSessions app ∨
     paymentSessions app' = delete id (paymentSessions app))) as Hredeem.
  { intros paid error logged answer.
    destruct (redeem_run fetch now paid error logged answer id tx app)
      as (v & svc & Hrun & ->). rewrite Hrun.
    destruct (verified v); [destruct (paymentSessions app !! id)|];
      cbn [snd x402Service paymentSessions]; split; auto. }
  destruct a; cbn [process_handler];
    unfold processAIProjectCreation, processProjectApplication,
      processMilestoneApproval, processDisputeCreation.
  - destruct (bool_decide (id = "") || bool_decide (tx = ""));
      [split; by left|]. apply Hredeem.
  - apply Hredeem.
  - apply Hredeem.
  - apply Hredeem.
Qed.

(** A success means that the payment was pending when the call came in. *)
Lemma process_success_stored a fetch now now' id tx app :
  is_success (fst (process_handler render a fetch now now' id tx app))
    = true →
  is_Some (pendingPayments (x402Service app) !! id) ∧
  x402Service (snd (process_handler render a fetch now now' id tx app)) =
    snd (verifyPayment fetch now id tx (x402Service app)) ∧
  pendingPayments
    (x402Service (snd (process_handler render a fetch now now' id tx app)))
    !! id = None ∧
  paymentSessions (snd (process_handler render a fetch now now' id tx app))
    !! id = None.
Proof.
  assert (∀ paid error logged answer,
    is_success (fst (redeem fetch now paid error logged answer id tx app))
      = true →
    is_Some (pendingPayments (x402Service app) !! id) ∧
    x402Service (snd (redeem fetch now paid error logged answer id tx app)) =
      snd (verifyPayment fetch now id tx (x402Service app)) ∧
    pendingPayments
      (x402Service
         (snd (redeem fetch now paid error logged answer id tx app)))
      !! id = None ∧
    paymentSessions
      (snd (redeem fetch now paid error logged answer id tx app)) !! id
      = None) as Hredeem.
  { intros paid error logged answer Hsuccess.
    destruct (redeem_success fetch now paid error logged answer id tx app
                Hsuccess) as [Hgone Hsession].
    split; [|split; [|split; [exact Hgone|exact Hsession]]].
    - destruct (verifyPayment_cases fetch now id tx (x402Service app))
        as (v & svc & Hrun & Hcases).
      revert Hsuccess. unfold redeem. rewrite Hrun.
      destruct (verified v); [|by cbn].
      destruct Hcases as (_ & p & Hp & _). by rewrite Hp.
    - destruct (redeem_run fetch now paid error logged answer id tx app)
        as (v & svc & Hrun & ->). rewrite Hrun.
      destruct (verified v); [destruct (paymentSessions app !! id)|];
        done. }
  destruct a; cbn [process_handler];
    unfold processAIProjectCreation, processProjectApplication,
      processMilestoneApproval, processDisputeCreation.
  - destruct (bool_decide (id = "") || bool_decide (tx = ""));
      [by cbn|]. apply Hredeem.
  - apply Hredeem.
  - apply Hredeem.
  - apply Hredeem.
Qed.

(** A payment that is not pending is answered 400 by every process
    handler and "not found" by the status endpoint. *)
Lemma not_pending_is_refused a fetch now now' id tx app :
  pendingPayments (x402Service app) !! id = None →
  getPaymentStatus id app =
    json_response 200
      (StatusNotFound "Payment not found or already processed") ∧
  http_status (fst (process_handler render a fetch now now' id tx app))
    = 400.
Proof.
  intros Hpending. split.
  - unfold getPaymentStatus, isPaymentPending. rewrite Hpending.
    rewrite bool_decide_eq_false_2; [done|]. by intros [? ?].
  - destruct a; cbn [process_handler];
      unfold processAIProjectCreation, processProjectApplication,
        processMilestoneApproval, processDisputeCreation.
    + destruct (bool_decide (id = "") || bool_decide (tx = ""));
        [reflexivity|].
      exact (redeem_unknown _ _ _ _ _ _ _ _ _ Hpending).
    + exact (redeem_unknown _ _ _ _ _ _ _ _ _ Hpending).
    + exact (redeem_unknown _ _ _ _ _ _ _ _ _ Hpending).
    + exact (redeem_unknown _ _ _ _ _ _ _ _ _ Hpending).
Qed.

Section Histories.
Hypothesis uuid_unique : ∀ i j, uuid_stream i = uuid_stream j → i = j.

Lemma redeemed_run_gateway_op id app op :
  redeemed uuid_stream id app →
  redeemed uuid_stream id
    (run_gateway_op uuid_stream nonce_stream render app op).
Proof.
  intros [Hconsumed Hsession]. unfold redeemed.
  destruct op as [a now now' body|a fetch now now' id' tx|t1 t2];
    cbn [run_gateway_op].
  - destruct (request_handler_store a now now' body app)
      as [[-> ->]|[-> [session ->]]]; [done|].
    split.
    + exact (consumed_run_op uuid_stream nonce_stream uuid_unique id _
               (DoIssue now (price_of a)) Hconsumed).
    + rewrite lookup_insert_ne; [done|].
      destruct Hconsumed as (_ & _ & i & Hi & Hid).
      intros Heq. rewrite <- Hid in Heq. apply uuid_unique in Heq. lia.
  - destruct (process_handler_store a fetch now now' id' tx app)
      as [[->| ->] [->| ->]].
    + done.
    + split; [done|]. rewrite lookup_delete. by case_decide.
    + split; [|done].
      exact (consumed_run_op uuid_stream nonce_stream uuid_unique id _
               (DoVerify fetch now id' tx) Hconsumed).
    + split.
      * exact (consumed_run_op uuid_stream nonce_stream uuid_unique id _
                 (DoVerify fetch now id' tx) Hconsumed).
      * rewrite lookup_delete. by case_decide.
  - rewrite hourly_cleanup_run. cbn [x402Service paymentSessions]. split.
    + exact (consumed_run_op uuid_stream nonce_stream uuid_unique id _
               (DoCleanup t1) Hconsumed).
    + by rewrite map_lookup_filter, Hsession.
Qed.

Lemma redeemed_run_gateway_ops id ops app :
  redeemed uuid_stream id app →
  redeemed uuid_stream id
    (run_gateway_ops uuid_stream nonce_stream render ops app).
Proof.
  revert app. induction ops as [|op ops IH]; intros app H; [done|].
  cbn. apply IH. by apply redeemed_run_gateway_op.
Qed.

Lemma success_redeems a fetch now now' id tx app :
  ids_were_drawn uuid_stream (x402Service app) →
  is_success (fst (process_handler render a fetch now now' id tx app))
    = true →
  redeemed uuid_stream id
    (snd (process_handler render a fetch now now' id tx app)).
Proof.
  intros Hinv Hsuccess.
  destruct (process_success_stored a fetch now now' id tx app Hsuccess)
    as (Hstored & Hsvc & Hgone & Hsession).
  split; [|exact Hsession]. split; [|split; [exact Hgone|]].
  - rewrite Hsvc.
    exact (ids_were_drawn_run_op uuid_stream nonce_stream _
             (DoVerify fetch now id tx) Hinv).
  - rewrite Hsvc.
    destruct (verifyPayment_store fetch now id tx (x402Service app))
      as (-> & _). by apply Hinv.
Qed.
End Histories.

(** X10. No replay. After a process handler has answered with success for
    a payment id, the payment is neither pending nor known to the status
    endpoint, its session is gone, and a further process call for that id,
    at any of the four endpoints and with any transaction hash, is
    answered 400. This stays so after any history of further requests,
    process calls and timer runs, each run to completion, provided the id
    generator never repeats an id and every pending payment came from it:
    the status endpoint keeps answering "not found", no session appears
    under the id, and every process call for it is answered 400. *)
Theorem processed_payment_cannot_be_replayed (a a2 : Action)
    (fetch fetch2 : Fetch) (now now' now2 now2' : Z) (id tx tx2 : string)
    (app : App) (ops : list GatewayOp) :
  let first := process_handler render a fetch now now' id tx app in
  is_success (fst first) = true →
  (getPaymentStatus id (snd first) =
     json_response 200
       (StatusNotFound "Payment not found or already processed") ∧
   paymentSessions (snd first) !! id = None ∧
   http_status
     (fst (process_handler render a2 fetch2 now2 now2' id tx2 (snd first)))
     = 400) ∧
  ((∀ i j, uuid_stream i = uuid_stream j → i = j) →
   ids_were_drawn uuid_stream (x402Service app) →
   let later :=
     run_gateway_ops uuid_stream nonce_stream render ops (snd first) in
   getPaymentStatus id later =
     json_response 200
       (StatusNotFound "Payment not found or already processed") ∧
   paymentSessions later !! id = None ∧
   http_status
     (fst (process_handler render a2 fetch2 now2 now2' id tx2 later))
     = 400).
Proof.
  intros first Hsuccess.
  destruct (process_success_stored a fetch now now' id tx app Hsuccess)
    as (_ & _ & Hgone & Hsession).
  split.
  - destruct (not_pending_is_refused a2 fetch2 now2 now2' id tx2 (snd first)
                Hgone) as [Hstatus Hrefused].
    split; [exact Hstatus|]. split; [exact Hsession|exact Hrefused].
  - intros uuid_unique Hinv later.
    pose proof (success_redeems a fetch now now' id tx app Hinv Hsuccess)
      as Hredeemed.
    apply (redeemed_run_gateway_ops uuid_unique id ops) in Hredeemed
      as [(_ & Hgone' & _) Hsession'].
    destruct (not_pending_is_refused a2 fetch2 now2 now2' id tx2 later
                Hgone') as [Hstatus Hrefused].
    split; [exact Hstatus|]. split; [exact Hsession'|exact Hrefused].
Qed.
End Replay.

Section Divergence.
Variable uuid_stream : nat → string.
Variable nonce_stream : nat → string.
Variable render : JsValue → string.

(** X13. The timer ages the two registries by different clocks: a
    challenge by whole seconds against its deadline, a session by
    milliseconds against its own timestamp. When a run of the timer falls
    after the session's hour but not past the challenge's deadline second,
    the session is dropped while the challenge stays: the status endpoint
    still reports the payment as pending (with no session), and a payer
    who then redeems it is verified and settled, the challenge is
    consumed, and the answer is 404. *)
Theorem session_can_expire_before_its_challenge (paid_for performed : Action)
    (fetch : Fetch) (now now' t1 t2 later later' : Z) (body : Body)
    (tx : string) (app : App) :
  let id := uuid_stream (drawn (x402Service app)) in
  let svc := x402Service app in
  let challenge :=
    issued uuid_stream nonce_stream now (price_of paid_for) svc in
  let requested :=
    snd (request_handler uuid_stream nonce_stream paid_for now now'
           (Some body) app) in
  let swept := hourly_cleanup t1 t2 requested in
  let result :=
    process_handler render performed fetch later later' id tx swept in
  request_complete paid_for body = true →
  unix_seconds t1 ≤ unix_seconds now + 3600 →
  t2 - now' > 3600000 →
  id ≠ "" → tx ≠ "" →
  facilitator_confirms fetch
    (PostVerify (facilitatorUrl svc +:+ "/verify") id tx
       (sc_amount (X402_PAYMENT_SCENARIOS (price_of paid_for)))
       (recipientAddress svc)
       (sc_currency (X402_PAYMENT_SCENARIOS (price_of paid_for)))) →
  getPaymentStatus id swept =
    json_response 200 (StatusPending (Some challenge) None) ∧
  http_status (fst result) = 404 ∧
  isPaymentPending id (x402Service (snd result)) = false ∧
  last (sent (x402Service (snd result))) =
    Some (PostSettle (facilitatorUrl svc +:+ "/settle") id tx).
Proof.
  intros id svc challenge requested swept result Hcomplete Hkept Hstale
    Hid Htx Hconf.
  destruct (request_handler_open uuid_stream nonce_stream paid_for now now'
              body app Hcomplete)
    as (tag & etag & meta & logged0 & Hopen).
  destruct (open_session_run uuid_stream nonce_stream (price_of paid_for)
              tag etag (field body "userId") meta logged0 now now' app)
    as (envelope & log & Hrun0 & _).
  assert (requested =
          mkApp (after_issue uuid_stream nonce_stream now (price_of paid_for)
                   svc)
                (<[id := mkSession (field body "userId") (price_of paid_for)
                           (object meta) now']> (paymentSessions app))
                (app_console app ++ [log])) as Hrequested.
  { subst requested. rewrite Hopen, Hrun0. reflexivity. }
  assert (pendingPayments (x402Service swept) !! id = Some challenge)
    as Hpending.
  { subst swept. rewrite hourly_cleanup_run, Hrequested. simpl.
    rewrite cleanup_store, map_lookup_filter.
    unfold after_issue. rewrite create402Response_state. simpl.
    rewrite lookup_insert_eq. simpl.
    rewrite option_guard_True; [done|]. unfold expired. simpl. lia. }
  assert (paymentSessions swept !! id = None) as Hsession.
  { subst swept. rewrite hourly_cleanup_run, Hrequested. simpl.
    rewrite map_lookup_filter, lookup_insert_eq. simpl.
    rewrite option_guard_False; [done|]. unfold session_stale. simpl.
    tauto. }
  assert (facilitatorUrl (x402Service swept) = facilitatorUrl svc ∧
          recipientAddress (x402Service swept) = recipientAddress svc)
    as [Hurl Hrec].
  { subst swept. rewrite hourly_cleanup_run, Hrequested. simpl.
    by rewrite cleanup_state. }
  clearbody swept.
  split.
  { unfold getPaymentStatus, isPaymentPending, getPendingPayment.
    rewrite Hpending, Hsession.
    by rewrite bool_decide_eq_true_2 by eauto. }
  destruct (process_handler_is_redeem render performed fetch later later'
              id tx swept Hid Htx)
    as (paid & error & logged & answer & Heq & Hsuccess).
  subst result. rewrite Heq.
  destruct (redeem_run fetch later paid error logged answer id tx swept)
    as (v & svc' & Hrun & ->).
  destruct Hconf as (r & rbody & Hf & Hok & Hj & Hv).
  destruct (verifyPayment_confirmed fetch later id tx (x402Service swept)
              _ r rbody Hpending) as [_ Hrun'].
  { unfold verify_request. rewrite Hurl. exact Hf. }
  { exact Hok. } { exact Hj. } { exact Hv. }
  rewrite Hrun in Hrun'.
  match type of Hrun' with context [settlePayment fetch id tx ?s1] =>
    destruct (settlePayment_total fetch id tx s1) as (entry & Hs & _);
    rewrite Hs in Hrun'
  end.
  injection Hrun' as -> ->. simpl. rewrite Hsession. simpl.
  split; [done|]. split.
  - unfold isPaymentPending. simpl. rewrite lookup_delete_eq.
    apply bool_decide_eq_false_2. by intros [? ?].
  - rewrite last_snoc. unfold settle_request. simpl. by rewrite Hurl.
Qed.
End Divergence.

(** A challenge and session of second 1000 and a timer run 3600.5 seconds
    later. *)
Lemma session_can_expire_before_its_challenge_witness :
  unix_seconds 4600500 ≤ unix_seconds 1000000 + 3600 ∧
  4600500 - 1000000 > 3600000 ∧
  http_status
    (fst (process_handler sample_render ForApplication facilitator_up
            4700000 4700000 "0" "0xabc"
            (hourly_cleanup 4600500 4600500
               (snd (request_handler sample_stream sample_stream
                       ForApplication 1000000 1000000 (Some sample_body)
                       fresh_app))))) = 404.
Proof.
  split; [by vm_compute|]. split; [lia|].
  destruct (session_can_expire_before_its_challenge sample_stream
              sample_stream sample_render ForApplication ForApplication
              facilitator_up 1000000 1000000 4600500 4600500 4700000 4700000
              sample_body "0xabc" fresh_app
              (sample_body_complete ForApplication))
    as (_ & H & _); try done.
  eexists _, _. repeat split; reflexivity.
Defined.

Lemma process_handlers_witness :
  "0" ≠ "" ∧ "0xabc" ≠ "" ∧
  http_status
    (fst (process_handler sample_render ForDispute facilitator_up 2000000
            2000001 "0" "0xabc" (mkApp one_challenge ∅ []))) = 404.
Proof.
  split; [discriminate|]. split; [discriminate|].
  destruct (process_handlers sample_render ForDispute facilitator_up 2000000 2000001
              "0" "0xabc" (mkApp one_challenge ∅ [])
              ltac:(discriminate) ltac:(discriminate))
    as (v & svc & Hrun & _ & Hcases).
  assert (verified v = true) as Hv.
  { assert (verifyPayment facilitator_up 2000000 "0" "0xabc" one_challenge
            = (Normal (mkVerification "0" "0xabc" true "1000000" 2000),
               svc)) as Hrun'.
    { simpl in Hrun. rewrite Hrun. f_equal.
      assert (fst (verifyPayment facilitator_up 2000000 "0" "0xabc"
                     one_challenge) =
              Normal (mkVerification "0" "0xabc" true "1000000" 2000))
        as Hfst by (by vm_compute).
      simpl in Hfst. rewrite Hrun in Hfst. exact Hfst. }
    simpl in Hrun. rewrite Hrun in Hrun'. by injection Hrun' as ->. }
  rewrite Hv in Hcases. simpl in Hcases.
  destruct Hcases as (_ & _ & Hstatus & _). exact Hstatus.
Defined.

(** X10 at work: request, pay, process; then a new request, a timer run
    and one more request; and try again. *)
Lemma processed_payment_cannot_be_replayed_witness :
  let requested :=
    snd (request_handler sample_stream sample_stream ForApplication
           1000000 1000001 (Some sample_body) fresh_app) in
  let first :=
    process_handler sample_render ForApplication facilitator_up
      2000000 2000000 "0" "0xabc" requested in
  let later :=
    run_gateway_ops sample_stream sample_stream sample_render
      [DoRequest ForDispute 2500000 2500001 (Some sample_body);
       DoTimer 9000000 9000001;
       DoRequest ForApplication 9500000 9500001 (Some sample_body)]
      (snd first) in
  is_success (fst first) = true ∧
  ids_were_drawn sample_stream (x402Service requested) ∧
  http_status
    (fst (process_handler sample_render ForApplication facilitator_up
            3000000 3000000 "0" "0xabc" (snd first))) = 400 ∧
  http_status
    (fst (process_handler sample_render ForDispute facilitator_up
            9900000 9900000 "0" "0xdef" later)) = 400.
Proof.
  intros requested first later.
  assert (is_success (fst first) = true) as Hsuccess by (by vm_compute).
  assert (ids_were_drawn sample_stream (x402Service requested)) as Hinv.
  { assert (x402Service requested =
            snd (create402Response sample_stream sample_stream 1000000
                   APPLICATION_SIGNAL_FEE fresh_service)) as ->
      by (by vm_compute).
    apply create402Response_keeps_invariant, fresh_service_invariant. }
  split; [exact Hsuccess|]. split; [exact Hinv|].
  split.
  - destruct (processed_payment_cannot_be_replayed sample_stream
                sample_stream sample_render
                ForApplication ForApplication facilitator_up facilitator_up
                2000000 2000000 3000000 3000000 "0" "0xabc" "0xabc"
                requested [] Hsuccess) as ((_ & _ & H) & _).
    exact H.
  - destruct (processed_payment_cannot_be_replayed sample_stream
                sample_stream sample_render
                ForApplication ForDispute facilitator_up facilitator_up
                2000000 2000000 9900000 9900000 "0" "0xabc" "0xdef"
                requested
                [DoRequest ForDispute 2500000 2500001 (Some sample_body);
                 DoTimer 9000000 9000001;
                 DoRequest ForApplication 9500000 9500001 (Some sample_body)]
                Hsuccess) as (_ & Hlater).
    destruct (Hlater sample_stream_unique Hinv) as (_ & _ & H).
    exact H.
Defined.

(** *** The router in front of the request handlers *)

Section Router.
Variable uuid_stream : nat → string.
Variable nonce_stream : nat → string.

Lemma middleware_passes fields body :
  Forall (λ name, truthy (field body name) = true) fields →
  validateRequiredFields fields body = None.
Proof.
  intros Hall. unfold validateRequiredFields.
  assert (filter (λ name, truthy (field body name) = false) fields = [])
    as ->.
  { induction Hall as [|name fields Hname _ IH]; [done|].
    rewrite filter_cons, decide_False by congruence. exact IH. }
  done.
Qed.

(** X14. The router against the handlers. For a body that a request
    handler accepts, the route in front of it does the same as the handler,
    with one exception: the milestone and dispute routes reject a milestone
    id that is defined but falsy (0, false, the empty string, null) with
    400 "Missing required fields: milestoneId", although their handlers
    accept every defined milestone id. The first milestone of a project,
    index 0, cannot be requested through the router. *)
Theorem route_differs_from_handler_on_falsy_milestone (a : Action)
    (now now' : Z) (body : Body) (app : App) :
  request_complete a body = true →
  request_route uuid_stream nonce_stream a now now' body app =
    if names_milestone a && negb (truthy (field body "milestoneId")) then
      (json_response 400
         (ErrorBody "Missing required fields: milestoneId"), app)
    else
      request_handler uuid_stream nonce_stream a now now' (Some body) app.
Proof.
  intros Hcomplete.
  destruct a; simpl in Hcomplete; simpl names_milestone;
    cbn [request_route request_handler andb];
    unfold route_ai_project_request, route_application_request,
      route_milestone_request, route_dispute_request, route.
  - rewrite middleware_passes; [done|]. by repeat constructor.
  - apply andb_true_iff in Hcomplete as [H1 H2].
    rewrite middleware_passes; [done|]. by repeat constructor.
  - apply andb_true_iff in Hcomplete as [[H1 H2]%andb_true_iff H3].
    destruct (truthy (field body "milestoneId")) eqn:Hm; cbn [negb].
    + rewrite middleware_passes; [done|]. by repeat constructor.
    + unfold validateRequiredFields.
      rewrite !filter_cons, filter_nil.
      rewrite (decide_False (P := _ (field body "userId") = false))
        by congruence.
      rewrite (decide_False (P := _ (field body "projectAddress") = false))
        by congruence.
      rewrite decide_True by done. done.
  - apply andb_true_iff in Hcomplete as [H123 H4].
    apply andb_true_iff in H123 as [[H1 H2]%andb_true_iff H3].
    destruct (truthy (field body "milestoneId")) eqn:Hm; cbn [negb].
    + rewrite middleware_passes; [done|]. by repeat constructor.
    + unfold validateRequiredFields.
      rewrite !filter_cons, filter_nil.
      rewrite (decide_False (P := _ (field body "userId") = false))
        by congruence.
      rewrite (decide_False (P := _ (field body "projectAddress") = false))
        by congruence.
      rewrite (decide_False (P := _ (field body "disputeReason") = false))
        by congruence.
      rewrite decide_True by done. done.
Qed.
End Router.

Lemma route_differs_from_handler_on_falsy_milestone_witness :
  request_complete ForMilestone sample_body = true ∧
  http_status
    (fst (request_handler sample_stream sample_stream ForMilestone
            1000000 1000000 (Some sample_body) fresh_app)) = 402 ∧
  request_route sample_stream sample_stream ForMilestone 1000000 1000000
    sample_body fresh_app =
    (json_response 400 (ErrorBody "Missing required fields: milestoneId"),
     fresh_app).
Proof.
  split; [reflexivity|]. split; [by vm_compute|].
  rewrite (route_differs_from_handler_on_falsy_milestone sample_stream
             sample_stream ForMilestone 1000000 1000000 sample_body
             fresh_app (sample_body_complete ForMilestone)).
  reflexivity.
Defined.

End GatewayProperties.

(** * Decoding, then encoding *)

Section BalanceRoundTrip.
Import Units.
Local Open Scope list_scope.

Lemma digit_char_digit n :
  0 ≤ n ≤ 9 →
  is_digit (digit_char n) = true ∧ digit_value (digit_char n) = n.
Proof.
  intros Hn.
  assert (n = 0 ∨ n = 1 ∨ n = 2 ∨ n = 3 ∨ n = 4 ∨ n = 5 ∨ n = 6 ∨ n = 7 ∨
          n = 8 ∨ n = 9) as Hcases by lia.
  repeat (destruct Hcases as [->|Hcases]; [by vm_compute|]).
  subst n. by vm_compute.
Qed.

(** Every non-negative integer is the value of some digit string. *)
Lemma digits_exist n : 0 ≤ n → ∃ s, all_digits s ∧ digits_value s = n.
Proof.
  intros Hn.
  cut (0 ≤ n → ∃ s, all_digits s ∧ digits_value s = n); [by auto|].
  revert n Hn. apply (Z_lt_induction
    (λ n, 0 ≤ n → ∃ s, all_digits s ∧ digits_value s = n)).
  intros n IH Hn. destruct (Z_lt_le_dec n 10) as [Hsmall|Hbig].
  - destruct (digit_char_digit n ltac:(lia)) as [Hd Hv].
    exists [digit_char n]. split.
    + by apply all_digits_cons.
    + rewrite digits_value_cons, Hv. unfold digits_value. simpl. lia.
  - destruct (IH (n `div` 10)) as (s & Hs & Hv).
    { split; [apply Z.div_pos; lia|apply Z.div_lt; lia]. }
    { apply Z.div_pos; lia. }
    pose proof (Z.mod_pos_bound n 10 ltac:(lia)) as Hmod.
    destruct (digit_char_digit (n `mod` 10) ltac:(lia)) as [Hd Hdv].
    exists (s ++ [digit_char (n `mod` 10)]). split.
    + apply all_digits_app. split; [done|]. by apply all_digits_cons.
    + rewrite digits_value_snoc, Hv, Hdv.
      pose proof (Z.div_mod n 10 ltac:(lia)). lia.
Qed.
(** Every non-negative raw amount is the value of an integer part followed
    by exactly [d] fraction digits. *)
Lemma raw_amount_digits n d :
  0 ≤ n →
  ∃ i fz, all_digits i ∧ all_digits fz ∧ length fz = d ∧
          digits_value (i ++ fz) = n.
Proof.
  intros Hn. destruct (digits_exist n Hn) as (s & Hs & Hv).
  set (padded := replicate d zero_char ++ s).
  assert (all_digits padded) as Hp.
  { apply all_digits_app. split; [apply all_digits_replicate|done]. }
  assert (d ≤ length padded)%nat as Hlen.
  { unfold padded. rewrite length_app, length_replicate. lia. }
  exists (take (length padded - d) padded), (drop (length padded - d) padded).
  rewrite take_drop. rewrite <- (take_drop (length padded - d) padded) in Hp.
  apply all_digits_app in Hp as [Hi Hf].
  repeat split; try done.
  - rewrite length_drop. lia.
  - unfold padded. by rewrite digits_value_app, digits_value_zeros, Hv.
Qed.

(** Decoding a non-negative raw amount and encoding the result at the same
    precision gives the raw amount back. *)
Lemma parseUnits_formatUnits n d :
  0 ≤ n → parseUnits (formatUnits n d) d = Normal n.
Proof.
  intros Hn. destruct (raw_amount_digits n d Hn) as (i & fz & Hi & Hfz & Hl & Hv).
  unfold formatUnits, parseUnits.
  rewrite String.list_ascii_of_string_of_list_ascii.
  rewrite <- Hv, <- Hl at 1.
  rewrite formatUnits_chars_digits, canonical_numeral by done.
  assert (fraction_digits
            match trim_trailing_zeros fz with
            | [] => None
            | r => Some r
            end = trim_trailing_zeros fz) as Hfd
    by (by destruct (trim_trailing_zeros fz)).
  pose proof (trim_trailing_zeros_length fz) as Htl.
  rewrite parseUnits_chars_numeral;
    rewrite ?Hfd; [|by apply canonical_integer_digits
                   |by apply trim_trailing_zeros_digits|lia].
  f_equal. rewrite trim_trailing_zeros_idemp.
  rewrite !digits_value_app, canonical_integer_value.
  rewrite padEnd_value by lia.
  rewrite padEnd_length by lia.
  replace (d - length fz)%nat with 0%nat by lia.
  rewrite <- Hv, digits_value_app, Hl. simpl. lia.
Qed.

(** [BigInt(n.toString())] is [n] for a non-negative [n]. *)
Lemma BigInt_toString n : 0 ≤ n → BigInt (toString n) = Normal n.
Proof.
  intros Hn. destruct (digits_exist n Hn) as (s & Hs & Hv).
  rewrite <- Hv at 1. rewrite toString_digits_value by done.
  rewrite BigInt_digits by (by apply canonical_integer_digits).
  by rewrite canonical_integer_value, Hv.
Qed.
End BalanceRoundTrip.

(** * The wallet view *)

Section WalletViewProperties.
Import WalletView.
Local Open Scope list_scope.

Variables (chain : Chain) (platform : Platform).

Lemma only_asks_refl s : only_asks s s.
Proof. by repeat split. Qed.

Lemma only_asks_trans s1 s2 s3 :
  only_asks s1 s2 → only_asks s2 s3 → only_asks s1 s3.
Proof.
  intros (?&?&?&?&?) (?&?&?&?&?). repeat split; congruence.
Qed.

Lemma only_asks_record r s : only_asks s (record r s).
Proof. by repeat split. Qed.

Lemma only_asks_console line s : only_asks s (console_write line s).
Proof. by repeat split. Qed.

Lemma only_asks_path s s' userId :
  only_asks s s' → localFilePath s' userId = localFilePath s userId.
Proof. intros (_&_&_&Hdir&_). unfold localFilePath. by rewrite Hdir. Qed.

(** An [await] under the [try] of [refreshWalletState] never lets a
    rejection of the awaited call through. *)
Lemma or_return_settles {A} state (m : V A) k s error :
  (∀ a s', (k a s').1 ≠ Rejected error) →
  (or_return state m k s).1 ≠ Rejected error.
Proof.
  intros Hk. unfold or_return, try_catch, bind, ret.
  destruct (m s) as [[a|e|] s']; [apply Hk|done|done].
Qed.

(** **** The storage provider *)

Lemma getWalletData_run userId s :
  ∃ stored s',
    getWalletData platform userId s = (Fulfilled stored, s') ∧
    only_asks s s' ∧ reads s' = reads s.
Proof.
  unfold getWalletData.
  destruct (files s !! resolve platform (localFilePath s userId)).
  - destruct (JSON_parse platform _); eexists _, _;
      (split; [reflexivity|]); (split; [|done]).
    + apply only_asks_refl.
    + apply only_asks_console.
  - eexists _, _. split; [reflexivity|]. split; [apply only_asks_refl|done].
Qed.

(** **** The two reads *)

Lemma prefix_snoc {A} (l : list A) x : l `prefix_of` l ++ [x].
Proof. by apply prefix_app_r. Qed.

Lemma prefix_snoc2 {A} (l : list A) x y : l `prefix_of` (l ++ [x]) ++ [y].
Proof. by do 2 apply prefix_app_r. Qed.

Lemma prefix_snoc3 {A} (l : list A) x y z :
  l `prefix_of` ((l ++ [x]) ++ [y]) ++ [z].
Proof. by do 3 apply prefix_app_r. Qed.

Create HintDb wallet.
Local Hint Resolve prefix_snoc prefix_snoc2 prefix_snoc3 : wallet.

Local Ltac settled :=
  eexists _, _; split; [reflexivity|];
  split; [done|]; split; [by repeat split|]; simpl; auto with wallet.

Lemma getTokenBalance_run tokenAddress s account :
  smartAccount s = Some account →
  ∃ r s', getTokenBalance chain tokenAddress s = (r, s') ∧
          (∀ error, r ≠ Rejected error) ∧ only_asks s s' ∧
          reads s `prefix_of` reads s'.
Proof.
  intros Hacc. unfold getTokenBalance. rewrite Hacc.
  unfold try_catch, bind, await, all2, lift, ret.
  destruct (balanceOf chain tokenAddress account) as [raw|e|];
    [|settled..].
  destruct (read_decimals chain tokenAddress) as [d|e|],
    (read_symbol chain tokenAddress) as [sym|e'|]; try settled.
  destruct (Units.BigInt (Units.toString raw)); settled.
Qed.

Lemma getTransactionHistory_run limit s account :
  smartAccount s = Some account →
  ∃ r s', getTransactionHistory chain limit s = (r, s') ∧
          (∀ error, r ≠ Rejected error) ∧ only_asks s s' ∧
          reads s `prefix_of` reads s'.
Proof.
  intros Hacc. unfold getTransactionHistory. rewrite Hacc.
  unfold try_catch, bind, await, lift, ret.
  destruct (cdpClient s); [|settled].
  destruct (cdp_getTransactionHistory chain (networkId s) account limit)
    as [[| |txs]|e|]; settled.
Qed.

Lemma or_return_eq {A} state (m : V A) k s :
  or_return state m k s =
  match m s with
  | (Fulfilled a, s') => k a s'
  | (Rejected _, s') =>
      (Fulfilled state, console_write "Failed to refresh wallet state:" s')
  | (NeverSettles, s') => (NeverSettles, s')
  end.
Proof.
  unfold or_return, try_catch, bind, ret. by destruct (m s) as [[a|e|] s'].
Qed.

(** **** The refresh *)

Lemma refresh_try_settles now' userId account state s error :
  (refresh_try chain platform now' userId account state s).1 ≠
    Rejected error.
Proof.
  unfold refresh_try.
  apply or_return_settles. intros balance s1.
  apply or_return_settles. intros usdc s2.
  apply or_return_settles. intros history s3.
  apply or_return_settles. intros _ s4. done.
Qed.

Lemma refreshWalletState_start now now' userId base s account :
  smartAccount s = Some account →
  ∃ stored s0,
    (getWalletData platform userId s).1 = Fulfilled stored ∧
    only_asks s s0 ∧ reads s0 = reads s ∧
    refreshWalletState chain platform now now' userId base s =
      refresh_try chain platform now' userId account
        (starting_state account now base stored) s0.
Proof.
  intros Hacc. unfold refreshWalletState. rewrite Hacc.
  destruct (getWalletData_run userId s) as (stored & s0 & Hread & Hs0 & Hr).
  rewrite Hread. destruct base as [state|].
  - exists stored, s. repeat split; try done.
  - exists stored, s0. split; [done|]. split; [done|]. split; [done|].
    unfold bind at 1. unfold bind at 1. by rewrite Hread.
Qed.

Lemma refreshWalletState_settles now now' userId base s account error :
  smartAccount s = Some account →
  (refreshWalletState chain platform now now' userId base s).1 ≠
    Rejected error.
Proof.
  intros Hacc.
  destruct (refreshWalletState_start now now' userId base s account Hacc)
    as (stored & s0 & _ & _ & _ & ->).
  apply refresh_try_settles.
Qed.

(** X15. The four state functions reject exactly when the service has no
    smart account: in that case with "Smart wallet not initialized", and
    once [initialize] has set the account never, whatever the chain, the
    provider and the disk do. *)
Theorem state_functions_reject_iff_uninitialized
    (tokenAddress userId : string) (limit now now1 now2 : Z)
    (base : option SmartWalletState) (s : Service) (error : string) :
  let uninitialized :=
    smartAccount s = None ∧ error = "Smart wallet not initialized" in
  ((getTokenBalance chain tokenAddress s).1 = Rejected error ↔
     uninitialized) ∧
  ((getTransactionHistory chain limit s).1 = Rejected error ↔
     uninitialized) ∧
  ((refreshWalletState chain platform now1 now2 userId base s).1 =
     Rejected error ↔ uninitialized) ∧
  ((getOrCreateWalletState chain platform now now1 now2 userId s).1 =
     Rejected error ↔ uninitialized).
Proof.
  intros uninitialized. unfold uninitialized.
  destruct (smartAccount s) as [account|] eqn:Hacc.
  - assert (∀ A (r : Promise A),
      r ≠ Rejected error →
      (r = Rejected error ↔
       Some account = None ∧ error = "Smart wallet not initialized"))
      as Hnever by (intros A r Hr; split; [done|by intros [? _]]).
    split; [|split; [|split]]; apply Hnever.
    + destruct (getTokenBalance_run tokenAddress s account Hacc)
        as (r & s' & -> & Hr & _). apply Hr.
    + destruct (getTransactionHistory_run limit s account Hacc)
        as (r & s' & -> & Hr & _). apply Hr.
    + by apply refreshWalletState_settles with account.
    + unfold getOrCreateWalletState. rewrite Hacc.
      unfold bind at 1.
      destruct (getWalletData_run userId s)
        as (stored & s0 & -> & (Hacc0 & _) & _).
      rewrite Hacc in Hacc0.
      destruct stored as [existing|].
      * case_decide; [|done].
        by apply refreshWalletState_settles with account.
      * by apply refreshWalletState_settles with account.
  - assert (∀ A (r : Promise A),
      r = Rejected "Smart wallet not initialized" →
      (r = Rejected error ↔
       @None string = None ∧ error = "Smart wallet not initialized"))
      as Halways.
    { intros A r ->. split; [by intros [= <-]|by intros [_ ->]]. }
    unfold getTokenBalance, getTransactionHistory, refreshWalletState,
      getOrCreateWalletState. rewrite Hacc.
    split; [|split; [|split]]; by apply Halways.
Qed.

(** X16. The balance [getTokenBalance] displays, handed to [transferTokens]
    with the decimals it reports, encodes a transfer of exactly the raw
    balance the contract returned. *)
Theorem displayed_balance_transfers_exactly
    (provider : SmartWallet.Provider)
    (tokenAddress to account owner data sym : string) (raw : Z) (d : nat)
    (s : Service) (w : SmartWallet.Wallet) :
  smartAccount s = Some account →
  balanceOf chain tokenAddress account = Fulfilled raw →
  0 ≤ raw →
  read_decimals chain tokenAddress = Fulfilled d →
  read_symbol chain tokenAddress = Fulfilled sym →
  SmartWallet.smartAccount w = Some owner →
  SmartWallet.encodeFunctionData provider SmartWallet.ERC20_ABI "transfer"
    [SmartWallet.VAddress to; SmartWallet.VUint raw] = Normal data →
  ∃ b,
    (getTokenBalance chain tokenAddress s).1 = Fulfilled (Some b) ∧
    decimals b = d ∧
    Units.parseUnits (formattedBalance b) (decimals b) = Normal raw ∧
    SmartWallet.transferTokens provider
      (SmartWallet.mkTransferParams tokenAddress to (formattedBalance b)
         (decimals b)) w =
    SmartWallet.send_and_wait provider "Failed to transfer tokens:" owner
      [SmartWallet.mkCall tokenAddress None data] w.
Proof.
  intros Hacc Hbal Hraw Hdec Hsym Howner Hdata.
  eexists. split.
  { unfold getTokenBalance. rewrite Hacc.
    unfold try_catch, bind, await, all2, lift, ret.
    rewrite Hbal, Hdec, Hsym, BigInt_toString by done. reflexivity. }
  cbn [decimals formattedBalance].
  pose proof (parseUnits_formatUnits raw d Hraw) as Hparse.
  split; [done|]. split; [done|].
  unfold SmartWallet.transferTokens. rewrite Howner.
  cbn [SmartWallet.tp_amount SmartWallet.tp_decimals SmartWallet.tp_to
       SmartWallet.tokenAddress].
  by rewrite Hparse, Hdata.
Qed.


(** X17. When the native balance cannot be read, the refresh stops there:
    the caller gets the state the refresh started from, untouched; neither
    the token nor the history is asked for, and no file is written. *)
Theorem refresh_stops_at_failed_native_read
    (now now' : Z) (userId account error : string)
    (base : option SmartWalletState) (s : Service) :
  smartAccount s = Some account →
  getBalance chain account = Rejected error →
  ∃ stored s',
    (getWalletData platform userId s).1 = Fulfilled stored ∧
    refreshWalletState chain platform now now' userId base s =
      (Fulfilled (starting_state account now base stored), s') ∧
    files s' = files s ∧
    reads s' = reads s ++ [GetBalance account].
Proof.
  intros Hacc Hbal.
  destruct (refreshWalletState_start now now' userId base s account Hacc)
    as (stored & s0 & Hread & (_&_&_&_&Hfiles) & Hreads & ->).
  exists stored. eexists. split; [done|].
  unfold refresh_try. rewrite or_return_eq. unfold await at 1.
  rewrite Hbal. split; [reflexivity|].
  cbn [files reads console_write record]. by rewrite Hfiles, Hreads.
Qed.

Lemma refresh_try_run now' userId account start s n st s' :
  smartAccount s = Some account →
  getBalance chain account = Fulfilled n →
  refresh_try chain platform now' userId account start s =
    (Fulfilled st, s') →
  address st = address start ∧
  isInitialized st = isInitialized start ∧
  nativeBalance st = String.string_of_list_ascii (Units.toString n) ∧
  lastUpdated st = now' ∧
  (length (tokenBalances st) ≤ 1)%nat ∧
  files s' =
    match writeFileSync_error platform (localFilePath s userId) with
    | None =>
        <[resolve platform (localFilePath s userId) :=
            JSON_stringify platform st]> (files s)
    | Some _ => files s
    end.
Proof.
  intros Hacc Hbal. unfold refresh_try.
  rewrite or_return_eq. unfold await at 1. rewrite Hbal.
  rewrite or_return_eq.
  destruct (getTokenBalance_run USDC_ADDRESS (record (GetBalance account) s)
              account Hacc) as (r1 & s1 & -> & Hr1 & Hs1 & _).
  destruct r1 as [usdc|e|]; [|by destruct (Hr1 e)|done].
  rewrite or_return_eq.
  assert (smartAccount s1 = Some account) as Hacc1
    by (destruct Hs1 as [-> _]; done).
  destruct (getTransactionHistory_run 10 s1 account Hacc1)
    as (r2 & s2 & -> & Hr2 & Hs2 & _).
  destruct r2 as [history|e|]; [|by destruct (Hr2 e)|done].
  rewrite or_return_eq.
  assert (only_asks s s2) as Hs.
  { eapply only_asks_trans; [|exact Hs2].
    eapply only_asks_trans; [|exact Hs1]. apply only_asks_record. }
  unfold saveWalletData. rewrite (only_asks_path s s2 userId Hs).
  destruct Hs as (_&_&_&_&Hfiles).
  destruct (writeFileSync_error platform (localFilePath s userId));
    intros [= <- <-]; cbn [address isInitialized nativeBalance lastUpdated
                           tokenBalances files write_file console_write];
    rewrite Hfiles; repeat split; try done; destruct usdc; simpl; lia.
Qed.

(** X18. When the native balance can be read and the refresh returns, the
    state it returns carries the new native balance, at most one token
    balance and the clock of the refresh, and keeps the address it started
    with. That same state is what the file holds when the write succeeds;
    when the write fails the file is left as it was, so the caller holds a
    state newer than the stored one. *)
Theorem refreshed_state_and_disk
    (now now' : Z) (userId account : string)
    (base : option SmartWalletState) (s s' : Service) (n : Z)
    (st : SmartWalletState) :
  smartAccount s = Some account →
  getBalance chain account = Fulfilled n →
  refreshWalletState chain platform now now' userId base s =
    (Fulfilled st, s') →
  ∃ stored,
    (getWalletData platform userId s).1 = Fulfilled stored ∧
    address st = address (starting_state account now base stored) ∧
    isInitialized st =
      isInitialized (starting_state account now base stored) ∧
    nativeBalance st = String.string_of_list_ascii (Units.toString n) ∧
    lastUpdated st = now' ∧
    (length (tokenBalances st) ≤ 1)%nat ∧
    files s' =
      match writeFileSync_error platform (localFilePath s userId) with
      | None =>
          <[resolve platform (localFilePath s userId) :=
              JSON_stringify platform st]> (files s)
      | Some _ => files s
      end.
Proof.
  intros Hacc Hbal Hrun.
  destruct (refreshWalletState_start now now' userId base s account Hacc)
    as (stored & s0 & Hread & Hs0 & _ & Heq).
  rewrite Heq in Hrun. exists stored. split; [done|].
  assert (smartAccount s0 = Some account) as Hacc0
    by (destruct Hs0 as [-> _]; done).
  pose proof (refresh_try_run now' userId account _ s0 n st s' Hacc0 Hbal
                Hrun) as Hresult.
  rewrite (only_asks_path s s0 userId Hs0) in Hresult.
  destruct Hs0 as (_&_&_&_&Hfiles). by rewrite Hfiles in Hresult.
Qed.

Lemma refresh_try_asks now' userId account start s :
  smartAccount s = Some account →
  reads s ++ [GetBalance account] `prefix_of`
    reads (refresh_try chain platform now' userId account start s).2.
Proof.
  intros Hacc. unfold refresh_try.
  rewrite or_return_eq. unfold await at 1.
  destruct (getBalance chain account) as [n|e|]; [|done..].
  rewrite or_return_eq.
  destruct (getTokenBalance_run USDC_ADDRESS (record (GetBalance account) s)
              account Hacc) as (r1 & s1 & -> & Hr1 & Hs1 & Hp1).
  destruct r1 as [usdc|e|]; [|done..].
  rewrite or_return_eq.
  assert (smartAccount s1 = Some account) as Hacc1
    by (destruct Hs1 as [-> _]; done).
  destruct (getTransactionHistory_run 10 s1 account Hacc1)
    as (r2 & s2 & -> & Hr2 & Hs2 & Hp2).
  assert (reads s ++ [GetBalance account] `prefix_of` reads s2) as Hp
    by (by etrans).
  destruct r2 as [history|e|]; [|done..].
  rewrite or_return_eq. unfold saveWalletData.
  by destruct (writeFileSync_error platform _).
Qed.

(** X19. A stored state is served as it is, with nothing asked of the chain
    and nothing written or printed, exactly when it is at most five minutes
    old; the boundary itself counts as fresh. *)
Theorem cached_state_served_within_five_minutes
    (now now1 now2 : Z) (userId account data : string)
    (existing : SmartWalletState) (s : Service) :
  smartAccount s = Some account →
  files s !! resolve platform (localFilePath s userId) = Some data →
  JSON_parse platform data = Normal (Some existing) →
  getOrCreateWalletState chain platform now now1 now2 userId s =
    (Fulfilled existing, s) ↔
  now - 300000 ≤ lastUpdated existing.
Proof.
  intros Hacc Hfile Hparse.
  unfold getOrCreateWalletState. rewrite Hacc. unfold bind at 1.
  unfold getWalletData at 1. rewrite Hfile, Hparse.
  replace (now - 5 * 60 * 1000) with (now - 300000) by lia.
  case_decide as Hstale.
  - split; [|lia]. intros Hrun. exfalso.
    destruct (refreshWalletState_start now1 now2 userId None s account Hacc)
      as (stored & s0 & _ & Hs0 & Hreads & Heq).
    rewrite Heq in Hrun.
    assert (smartAccount s0 = Some account) as Hacc0
      by (destruct Hs0 as [-> _]; done).
    pose proof (refresh_try_asks now2 userId account
                  (starting_state account now1 None stored) s0 Hacc0) as Hp.
    rewrite Hrun, Hreads in Hp. cbn [snd] in Hp.
    apply prefix_length in Hp. rewrite length_app in Hp. simpl in Hp. lia.
  - split; [lia|done].
Qed.

(** X20. A state that was saved for a user is what [getWalletData]
    returns for that user, provided the write succeeds and the state
    survives the JSON codec. The path is built from the user id as it
    comes, so the same holds for every user id whose path resolves to the
    same file: the save has overwritten what that id reads. A user id whose
    path resolves to another file reads what it read before. *)
Theorem saved_state_is_read_back
    (userId : string) (data : SmartWalletState) (s : Service) :
  writeFileSync_error platform (localFilePath s userId) = None →
  JSON_parse platform (JSON_stringify platform data) = Normal (Some data) →
  ∃ s',
    saveWalletData platform userId data s = (Fulfilled tt, s') ∧
    getWalletData platform userId s' = (Fulfilled (Some data), s') ∧
    ∀ other,
      if decide (resolve platform (localFilePath s other) =
                 resolve platform (localFilePath s userId))
      then getWalletData platform other s' = (Fulfilled (Some data), s')
      else (getWalletData platform other s').1 =
           (getWalletData platform other s).1.
Proof.
  intros Hwrite Hcodec. eexists. split.
  { unfold saveWalletData. by rewrite Hwrite. }
  assert (∀ other,
    resolve platform (localFilePath s other) =
      resolve platform (localFilePath s userId) →
    getWalletData platform other
      (write_file (resolve platform (localFilePath s userId))
         (JSON_stringify platform data) s) =
    (Fulfilled (Some data),
     write_file (resolve platform (localFilePath s userId))
       (JSON_stringify platform data) s)) as Hsame.
  { intros other Heq. unfold getWalletData.
    replace (localFilePath (write_file _ _ s) other)
      with (localFilePath s other) by done.
    unfold write_file at 1. cbn [files].
    by rewrite Heq, lookup_insert_eq, Hcodec. }
  split; [by apply Hsame|].
  intros other. case_decide as Hfile; [by apply Hsame|].
  unfold getWalletData.
  replace (localFilePath (write_file _ _ s) other)
    with (localFilePath s other) by done.
  unfold write_file at 1. cbn [files].
  rewrite lookup_insert_ne by done.
  destruct (files s !! resolve platform (localFilePath s other)) as [text|];
    [|done].
  by destruct (JSON_parse platform text).
Qed.
End WalletViewProperties.

(** **** Runs on the sample collaborators *)

Section WalletViewRuns.
Import WalletView.
Local Open Scope list_scope.

Lemma displayed_balance_transfers_exactly_witness :
  ∃ b,
    (getTokenBalance sample_chain USDC_ADDRESS (ready_service ∅)).1 =
      Fulfilled (Some b) ∧
    decimals b = 6%nat ∧
    Units.parseUnits (formattedBalance b) (decimals b) = Normal 1500000 ∧
    SmartWallet.transferTokens SmartWallet.provider_ok
      (SmartWallet.mkTransferParams USDC_ADDRESS "0xabc" (formattedBalance b)
         (decimals b)) SmartWallet.ready_wallet =
    SmartWallet.send_and_wait SmartWallet.provider_ok
      "Failed to transfer tokens:" sample_account
      [SmartWallet.mkCall USDC_ADDRESS None "0xdata:transfer"]
      SmartWallet.ready_wallet.
Proof.
  apply (displayed_balance_transfers_exactly sample_chain
           SmartWallet.provider_ok USDC_ADDRESS "0xabc" sample_account
           sample_account "0xdata:transfer" "USDC" 1500000%Z 6%nat
           (ready_service ∅) SmartWallet.ready_wallet);
    try reflexivity. lia.
Defined.

Lemma refresh_stops_at_failed_native_read_witness :
  ∃ stored s',
    (getWalletData (sample_platform 0 None) "alice" (ready_service ∅)).1 =
      Fulfilled stored ∧
    refreshWalletState chain_down (sample_platform 0 None) 10 20 "alice"
      None (ready_service ∅) =
      (Fulfilled (starting_state sample_account 10 None stored), s') ∧
    files s' = files (ready_service ∅) ∧
    reads s' = reads (ready_service ∅) ++ [GetBalance sample_account].
Proof.
  apply (refresh_stops_at_failed_native_read chain_down
           (sample_platform 0 None) 10 20 "alice" sample_account
           "HttpRequestError" None (ready_service ∅)); reflexivity.
Defined.

(** On the sample chain with a disk that refuses the write, the caller
    still receives the refreshed state. *)
Lemma refreshed_state_and_disk_witness :
  ∃ st s',
    refreshWalletState sample_chain (sample_platform 0 (Some "EACCES")) 10 20
      "alice" None (ready_service ∅) = (Fulfilled st, s') ∧
    lastUpdated st = 20 ∧ nativeBalance st = "2" ∧ files s' = ∅.
Proof.
  eexists _, _.
  assert (refreshWalletState sample_chain (sample_platform 0 (Some "EACCES"))
            10 20 "alice" None (ready_service ∅) = (Fulfilled _, _)) as Hrun
    by (vm_compute; reflexivity).
  split; [exact Hrun|].
  destruct (refreshed_state_and_disk sample_chain
              (sample_platform 0 (Some "EACCES")) 10 20 "alice"
              sample_account None (ready_service ∅) _ 2 _
              eq_refl eq_refl Hrun)
    as (stored & _ & _ & _ & Hnative & Hupdated & _ & Hfiles).
  split; [exact Hupdated|]. split; [exact Hnative|exact Hfiles].
Defined.

(** A state stored exactly five minutes ago is still served. *)
Lemma cached_state_served_within_five_minutes_witness :
  getOrCreateWalletState chain_down (sample_platform 700000 None)
    1000000 1000000 1000001 "alice"
    (ready_service {[ ".data/wallet/alice.json" := "7" ]}) =
    (Fulfilled (sample_state "7" 700000),
     ready_service {[ ".data/wallet/alice.json" := "7" ]}).
Proof.
  apply (cached_state_served_within_five_minutes chain_down
           (sample_platform 700000 None) 1000000 1000000 1000001 "alice"
           sample_account "7" (sample_state "7" 700000)
           (ready_service {[ ".data/wallet/alice.json" := "7" ]}));
    [reflexivity|reflexivity|reflexivity|simpl; lia].
Defined.

(** Saving under ["./alice"] overwrites what ["alice"] reads. *)
Lemma saved_state_is_read_back_witness :
  ∃ s',
    saveWalletData (sample_platform 5 None) "./alice" (sample_state "7" 5)
      (ready_service {[ ".data/wallet/alice.json" := "1" ]}) =
      (Fulfilled tt, s') ∧
    getWalletData (sample_platform 5 None) "alice"
      (ready_service {[ ".data/wallet/alice.json" := "1" ]}) =
      (Fulfilled (Some (sample_state "1" 5)),
       ready_service {[ ".data/wallet/alice.json" := "1" ]}) ∧
    getWalletData (sample_platform 5 None) "alice" s' =
      (Fulfilled (Some (sample_state "7" 5)), s') ∧
    (getWalletData (sample_platform 5 None) "bob" s').1 = Fulfilled None.
Proof.
  destruct (saved_state_is_read_back (sample_platform 5 None) "./alice"
              (sample_state "7" 5)
              (ready_service {[ ".data/wallet/alice.json" := "1" ]})
              eq_refl eq_refl) as (s' & Hsave & _ & Hothers).
  exists s'. split; [exact Hsave|]. split; [reflexivity|]. split.
  - exact (Hothers "alice").
  - pose proof (Hothers "bob") as Hbob. simpl in Hbob. exact Hbob.
Defined.
End WalletViewRuns.

(** * Rejections of the submitting functions *)

Section ExecutorRejections.
Import SmartWallet.

Variable provider : Provider.

Lemma waitForUserOperation_settles hash w error :
  (waitForUserOperation provider hash w).1 ≠ Rejected error.
Proof.
  unfold waitForUserOperation. cbn [smartAccount console_write].
  destruct (smartAccount w) as [account|]; [|done].
  destruct (provider_waitForUserOperation provider account hash)
    as [op|e|]; [|done..].
  by case_decide.
Qed.

Lemma send_and_wait_settles line account calls w error :
  (send_and_wait provider line account calls w).1 ≠ Rejected error.
Proof.
  unfold send_and_wait.
  destruct (sendUserOperation provider _) as [hash|e|]; [|done..].
  apply waitForUserOperation_settles.
Qed.

Lemma callContract_rejects params w error :
  (callContract provider params w).1 = Rejected error ↔
  smartAccount w = None ∧ error = "Smart wallet not initialized".
Proof.
  unfold callContract. destruct (smartAccount w) as [account|].
  - split; [|by intros [? _]]. intros Hrej. exfalso. revert Hrej.
    destruct (encodeFunctionData provider _ _ _); [|done].
    apply send_and_wait_settles.
  - split; [by intros [= <-]|by intros [_ ->]].
Qed.

(** X21. The submitting functions reject only for a missing smart account,
    with "Smart wallet not initialized"; every other failure comes back as
    a fulfilled [failed] operation. [createProject] is the exception: it
    converts the payments before [callContract] is entered, so a payment
    that does not parse rejects the call with the parser's error. *)
Theorem submitting_functions_reject_iff
    (to : string) (amount index : Z) (transfer : TokenTransferParams)
    (call : ContractCallParams) (target client freelancer : string)
    (abi : list AbiFunction) (descriptions payments : list string)
    (w : Wallet) (error : string) :
  let uninitialized :=
    smartAccount w = None ∧ error = "Smart wallet not initialized" in
  ((sendNativeTokens provider to amount w).1 = Rejected error ↔
     uninitialized) ∧
  ((transferTokens provider transfer w).1 = Rejected error ↔
     uninitialized) ∧
  ((callContract provider call w).1 = Rejected error ↔ uninitialized) ∧
  ((approveMilestone provider target abi index w).1 = Rejected error ↔
     uninitialized) ∧
  ((createProject provider target abi client freelancer descriptions
      payments w).1 = Rejected error ↔
     parse_payments payments = Throw error ∨
     ((∃ amounts, parse_payments payments = Normal amounts) ∧
      uninitialized)).
Proof.
  intros uninitialized. unfold uninitialized.
  split; [|split; [|split; [|split]]].
  - unfold sendNativeTokens. destruct (smartAccount w) as [account|].
    + split; [|by intros [? _]]. intros Hrej. exfalso. revert Hrej.
      apply send_and_wait_settles.
    + split; [by intros [= <-]|by intros [_ ->]].
  - unfold transferTokens. destruct (smartAccount w) as [account|].
    + split; [|by intros [? _]]. intros Hrej. exfalso. revert Hrej.
      destruct (Units.parseUnits _ _); [|done].
      destruct (encodeFunctionData provider _ _ _); [|done].
      apply send_and_wait_settles.
    + split; [by intros [= <-]|by intros [_ ->]].
  - apply callContract_rejects.
  - apply callContract_rejects.
  - unfold createProject.
    destruct (parse_payments payments) as [amounts|e].
    + rewrite callContract_rejects. split; [by right; eauto|].
      by intros [?|[_ ?]].
    + split; [intros [= <-]; by left|].
      intros [[= <-]|[[amounts ?] _]]; done.
Qed.
End ExecutorRejections.
